(** * Ames Stereo Pipeline: DEM-assisted disparity estimation and the CSM camera wrapper

    A shallow embedding of two translation units of the Stereo Pipeline:

    - [DEMDisparity.cc]: the lazily evaluated [DemDisparity] image view
      (helper [lowResPixToDemXyz], method [prerasterize]) and the driver
      [produce_dem_disparity];
    - [CsmModel.cc]: the pixel-convention helpers [toCsmPixel] /
      [fromCsmPixel] and the three camera operations [point_to_pixel],
      [pixel_to_vector], [camera_center];
    - [CsmModel.cc], loading a sensor model: [get_csm_plugin_folder],
      [find_csm_plugins], [print_available_models], [find_plugin_for_isd],
      [initialize_plugins], [read_ellipsoid_from_isd], [load_model],
      [load_model_from_isd], [loadModelFromStateFile] and
      [setModelFromStateString], as computations on the object and on the
      state of the process, over a record of what the operating system,
      the JSON library and the USGSCSM library provide.

    Arithmetic.  In [DEMDisparity.cc] the C++ [double] coordinates are
    idealised as exact rationals ([Q]): they are not rounded, there is
    no infinity and no NaN among them, and a division by zero has no
    counterpart.  The search range of a pixel
    is a [BBox2f], whose corners are [float]: the narrowing of the
    corners, their sum and difference in [float], and the conversion of
    the results to [float] and to [int] are computed in IEEE-754
    binary32 (24 digits, round to nearest even, overflow to infinity,
    NaN), since they decide whether a pixel is stored and what is
    stored.  [int] is [Z]; where a [double] is converted to [int] the
    range of [int] is part of the statements.  In [CsmModel.cc] the
    properties of interest are the exactness of a round trip and the
    norm of a normalised vector, so there [double] is IEEE-754 binary64,
    computed with the specification floats of the standard library
    ([SFadd 53 1024], ...).

    Exceptions.  [DemDisp] is the view of [DEMDisparity.cc] for library
    calls that return: it is where the content of a tile is studied.
    [DemDispRun] is the same code with the exceptions of the calls made
    outside of [try] blocks, and the driver; [DemDispRunFacts] shows
    that a call of [prerasterize] which returns there returns the value
    computed in [DemDisp].  In [CsmModel.cc] every call into the plugin
    may throw.

    The VisionWorkbench library ([vw::]) and the CSM plugin are external to
    the repository: camera models, transforms, the ray/DEM intersector and
    the georeference are interfaces (records and a class of functions);
    small value types ([PixelMask], [BBox2i], [BBox2f]) are spelled out. *)

From Stdlib Require Import ZArith QArith Qround Qminmax Qabs Qpower List Bool Lia Lqa String.
From Stdlib Require Import Ascii DecimalString.
From Stdlib Require Import Floats.SpecFloat.
From stdpp Require Import gmap.

(* ===================================================================== *)
(** * Part I: value types of the image library                           *)
(* ===================================================================== *)

Module VW.

Local Open Scope Q_scope.

(** ** Scalars *)

(** [a < b] on idealised doubles. *)
Definition Qltb (a b : Q) : bool := negb (Qle_bool b a).

(** [std::max(a, b)]: returns [b] when [a < b], else [a]. *)
Definition std_max (a b : Q) : Q := if Qltb a b then b else a.

(** [std::min(a, b)]: returns [b] when [b < a], else [a]. *)
Definition std_min (a b : Q) : Q := if Qltb b a then b else a.

(** C [round]: to nearest integer, halfway cases away from zero. *)
Definition cround (x : Q) : Z :=
  if Qle_bool 0 x then Qfloor (x + (1 # 2)) else Qceiling (x - (1 # 2)).

(** C [ceil]. *)
Definition cceil (x : Q) : Z := Qceiling x.

(** C cast [(int) x]: truncation toward zero. *)
Definition ctrunc (x : Q) : Z :=
  if Qle_bool 0 x then Qfloor x else Qceiling x.

(** ** Vectors *)

Record Vector2 := V2 { v2x : Q; v2y : Q }.
Record Vector3 := V3 { v3x : Q; v3y : Q; v3z : Q }.
Record Vector2i := V2i { v2ix : Z; v2iy : Z }.

(** [Vector2()], [Vector3()], [Vector2i()]: zero-initialised. *)
Definition Vector2_zero : Vector2 := V2 0 0.
Definition Vector3_zero : Vector3 := V3 0 0 0.
Definition Vector2i_zero : Vector2i := V2i 0 0.

Definition v2_of_ints (col row : Z) : Vector2 := V2 (inject_Z col) (inject_Z row).
Definition v2_of_v2i (p : Vector2i) : Vector2 := v2_of_ints (v2ix p) (v2iy p).

Definition v2_add (a b : Vector2) : Vector2 := V2 (v2x a + v2x b) (v2y a + v2y b).
Definition v2_sub (a b : Vector2) : Vector2 := V2 (v2x a - v2x b) (v2y a - v2y b).
Definition v2_div (a : Vector2) (s : Q) : Vector2 := V2 (v2x a / s) (v2y a / s).
Definition elem_prod (a b : Vector2) : Vector2 := V2 (v2x a * v2x b) (v2y a * v2y b).
Definition elem_quot (a b : Vector2) : Vector2 := V2 (v2x a / v2x b) (v2y a / v2y b).

Definition v3_add (a b : Vector3) : Vector3 :=
  V3 (v3x a + v3x b) (v3y a + v3y b) (v3z a + v3z b).
Definition v3_scale (s : Q) (a : Vector3) : Vector3 :=
  V3 (s * v3x a) (s * v3y a) (s * v3z a).

(** [a == b] on vectors: all components compare equal. *)
Definition v2_eqb (a b : Vector2) : bool :=
  Qeq_bool (v2x a) (v2x b) && Qeq_bool (v2y a) (v2y b).
Definition v3_eqb (a b : Vector3) : bool :=
  Qeq_bool (v3x a) (v3x b) && Qeq_bool (v3y a) (v3y b) && Qeq_bool (v3z a) (v3z b).

(** [subvector(llh, 0, 2)]. *)
Definition subvector02 (a : Vector3) : Vector2 := V2 (v3x a) (v3y a).

(** [round] and [ceil] applied to a vector act on every component. *)
Definition v2_round (a : Vector2) : Vector2i := V2i (cround (v2x a)) (cround (v2y a)).
Definition v2_ceil (a : Vector2) : Vector2i := V2i (cceil (v2x a)) (cceil (v2y a)).

(** ** Masked pixels *)

(** [PixelMask<T>]: a value together with a validity flag. *)
Record PixelMask (A : Type) := Mask { child : A; is_valid : bool }.
Arguments Mask {A} _ _.
Arguments child {A} _.
Arguments is_valid {A} _.

(** Assigning a plain value to a masked pixel makes it valid. *)
Definition of_child {A} (a : A) : PixelMask A := Mask a true.
Definition invalidate {A} (p : PixelMask A) : PixelMask A := Mask (child p) false.
Definition validate {A} (p : PixelMask A) : PixelMask A := Mask (child p) true.

(** Default-constructed masked pixels: zero value, not valid. *)
Definition PixelMask_Vector2 : PixelMask Vector2 := Mask Vector2_zero false.
Definition PixelMask_Vector2i : PixelMask Vector2i := Mask Vector2i_zero false.

(** ** Integer bounding boxes *)

(** [BBox2i]: min corner inclusive, max corner exclusive. *)
Record BBox2i := BBox { bmin_x : Z; bmin_y : Z; bmax_x : Z; bmax_y : Z }.

Definition INT_MAX : Z := 2147483647.
Definition INT_MIN : Z := -2147483648.

(** The default box is empty, with its corners at the opposite ends of
    the [int] range so that the first [grow] sets both. *)
Definition BBox2i_empty : BBox2i := BBox INT_MAX INT_MAX INT_MIN INT_MIN.

(** [BBox2i(x, y, w, h)]. *)
Definition BBox2i_xywh (x y w h : Z) : BBox2i := BBox x y (x + w) (y + h).

Definition bbox_is_empty (b : BBox2i) : bool :=
  (bmax_x b <=? bmin_x b)%Z || (bmax_y b <=? bmin_y b)%Z.

(** [width()] and [height()]; an empty box has no extent. *)
Definition width (b : BBox2i) : Z :=
  if bbox_is_empty b then 0%Z else (bmax_x b - bmin_x b)%Z.
Definition height (b : BBox2i) : Z :=
  if bbox_is_empty b then 0%Z else (bmax_y b - bmin_y b)%Z.

(** [grow(point)]: the smallest enlargement that contains the point; the
    max corner of an integer box is exclusive, hence one past the point. *)
Definition grow (b : BBox2i) (p : Vector2i) : BBox2i :=
  BBox (if (v2ix p <? bmin_x b)%Z then v2ix p else bmin_x b)
       (if (v2iy p <? bmin_y b)%Z then v2iy p else bmin_y b)
       (if (bmax_x b <=? v2ix p)%Z then (v2ix p + 1)%Z else bmax_x b)
       (if (bmax_y b <=? v2iy p)%Z then (v2iy p + 1)%Z else bmax_y b).

(** [expand(n)]: move every side outward by [n]. *)
Definition expand (b : BBox2i) (n : Z) : BBox2i :=
  BBox (bmin_x b - n) (bmin_y b - n) (bmax_x b + n) (bmax_y b + n).

(** [crop(other)]: intersection. *)
Definition crop_box (b o : BBox2i) : BBox2i :=
  BBox (Z.max (bmin_x b) (bmin_x o)) (Z.max (bmin_y b) (bmin_y o))
       (Z.min (bmax_x b) (bmax_x o)) (Z.min (bmax_y b) (bmax_y o)).

(** [contains(point)]. *)
Definition contains (b : BBox2i) (p : Vector2i) : bool :=
  (bmin_x b <=? v2ix p)%Z && (v2ix p <? bmax_x b)%Z &&
  (bmin_y b <=? v2iy p)%Z && (v2iy p <? bmax_y b)%Z.

(** ** Single precision *)

(** The disparity range is held in a [BBox2f], whose corners are
    [float], and the two output images hold [float] and [int]: here the
    idealised [double] coordinates are narrowed.

    A value of a binary floating-point type is a finite number, an
    infinity or NaN; the two zeros are not told apart (they compare
    equal in C++).  The type stands for [float], and for the [double]
    results that are computed from [float] values. *)
Inductive fp :=
| Fp_finite (q : Q)
| Fp_infinity (negative : bool)
| Fp_nan.

(** Rounding to the nearest integer, halfway cases to the even one. *)
Definition rne (q : Q) : Z :=
  let f := Qfloor q in
  match Qcompare (q - inject_Z f) (1 # 2) with
  | Lt => f
  | Gt => (f + 1)%Z
  | Eq => if Z.even f then f else (f + 1)%Z
  end.

(** The binade of a positive number: the [e] with [2^(e-1) <= x < 2^e]. *)
Definition binade (x : Q) : Z :=
  let e0 := (Z.log2 (Qnum x) - Z.log2 (Zpos (Qden x)))%Z in
  if Qle_bool (2 ^ e0) x then (e0 + 1)%Z else e0.

(** Binary32 has 24 digits and its least exponent is -149: a positive
    [x] is rounded to a multiple of [2^float_exponent x], to the
    nearest one, ties to the even multiple; a result of [2^128] or more
    is an overflow. *)
Definition float_exponent (x : Q) : Z := Z.max (binade x - 24) (-149).

Definition round_positive (x : Q) : Q :=
  inject_Z (rne (x / 2 ^ float_exponent x)) * 2 ^ float_exponent x.

Definition float_of_positive (x : Q) : fp :=
  let r := round_positive x in
  if Qle_bool (2 ^ 128) r then Fp_infinity false else Fp_finite (Qred r).

Definition fp_opp (a : fp) : fp :=
  match a with
  | Fp_finite q => Fp_finite (- q)
  | Fp_infinity s => Fp_infinity (negb s)
  | Fp_nan => Fp_nan
  end.

(** [float(x)] for a finite [double] [x]. *)
Definition float_of_double (x : Q) : fp :=
  match Qcompare x 0 with
  | Eq => Fp_finite 0
  | Gt => float_of_positive x
  | Lt => fp_opp (float_of_positive (- x))
  end.

(** [a + b] and [a - b] on [float]: the exact result, rounded. *)
Definition fadd (a b : fp) : fp :=
  match a, b with
  | Fp_nan, _ | _, Fp_nan => Fp_nan
  | Fp_infinity s, Fp_infinity s' => if Bool.eqb s s' then Fp_infinity s else Fp_nan
  | Fp_infinity s, Fp_finite _ | Fp_finite _, Fp_infinity s => Fp_infinity s
  | Fp_finite x, Fp_finite y => float_of_double (x + y)
  end.

Definition fsub (a b : fp) : fp := fadd a (fp_opp b).

(** [a == b]: NaN is equal to nothing. *)
Definition fp_eqb (a b : fp) : bool :=
  match a, b with
  | Fp_finite x, Fp_finite y => Qeq_bool x y
  | Fp_infinity s, Fp_infinity s' => Bool.eqb s s'
  | _, _ => false
  end.



(** [x / 2.0] for a [float] [x]: the division is done in [double],
    where it is exact. *)
Definition fp_half (a : fp) : fp :=
  match a with
  | Fp_finite x => Fp_finite (x / 2)
  | _ => a
  end.

(** [round] and [ceil] on [double]. *)
Definition fp_round (a : fp) : fp :=
  match a with
  | Fp_finite x => Fp_finite (inject_Z (cround x))
  | _ => a
  end.

Definition fp_ceil (a : fp) : fp :=
  match a with
  | Fp_finite x => Fp_finite (inject_Z (cceil x))
  | _ => a
  end.

(** Conversion of a [double] to [float]. *)
Definition float_of_fp (a : fp) : fp :=
  match a with
  | Fp_finite x => float_of_double x
  | _ => a
  end.

(** The conversion of a [double] to [int] is defined when the value is
    finite and, truncated, lies in the range of [int]. *)
Definition fits_int (a : fp) : Prop :=
  match a with
  | Fp_finite x => (INT_MIN <= ctrunc x <= INT_MAX)%Z
  | _ => False
  end.

(** Conversion of a [double] to [int].  Where C++ leaves it undefined,
    the value is the one the conversion instruction of x86-64 gives,
    [INT_MIN]. *)
Definition int_of_fp (a : fp) : Z :=
  match a with
  | Fp_finite x =>
      let n := ctrunc x in
      if (INT_MIN <=? n)%Z && (n <=? INT_MAX)%Z then n else INT_MIN
  | _ => INT_MIN
  end.

(** [float(n)] for an [int] [n]. *)
Definition float_of_int (n : Z) : fp := float_of_double (inject_Z n).

(** [a / b] on [float]: the exact result, rounded.  A zero divisor is
    the positive zero, which is what the conversion of the [int] 0
    gives. *)
Definition fdiv (a b : fp) : fp :=
  match a, b with
  | Fp_nan, _ | _, Fp_nan => Fp_nan
  | Fp_infinity _, Fp_infinity _ => Fp_nan
  | Fp_infinity s, Fp_finite y => Fp_infinity (xorb s (Qltb y 0))
  | Fp_finite _, Fp_infinity _ => Fp_finite 0
  | Fp_finite x, Fp_finite y =>
      if Qeq_bool y 0
      then (if Qeq_bool x 0 then Fp_nan else Fp_infinity (Qltb x 0))
      else float_of_double (x / y)
  end.

(** The conversion of a [float] to [double] is exact.  The idealised
    [double] has no infinity and no NaN; 0 stands for them here. *)
Definition double_of_float (a : fp) : Q :=
  match a with
  | Fp_finite x => x
  | _ => 0
  end.

(** [Vector2f]. *)
Record Vector2f := V2f { v2fx : fp; v2fy : fp }.

Definition Vector2f_zero : Vector2f := V2f (Fp_finite 0) (Fp_finite 0).

(** [Vector2f(v)] for a [Vector2] [v]. *)
Definition v2f_of_v2 (a : Vector2) : Vector2f :=
  V2f (float_of_double (v2x a)) (float_of_double (v2y a)).

(** [Vector2(v)] for a [Vector2f] [v]. *)
Definition v2_of_v2f (a : Vector2f) : Vector2 :=
  V2 (double_of_float (v2fx a)) (double_of_float (v2fy a)).

Definition v2f_eqb (a b : Vector2f) : bool :=
  fp_eqb (v2fx a) (v2fx b) && fp_eqb (v2fy a) (v2fy b).


(** [PixelMask<Vector2f>()]. *)
Definition PixelMask_Vector2f : PixelMask Vector2f := Mask Vector2f_zero false.

(** ** Real bounding boxes *)

(** [BBox2f]: a min and a max corner, in single precision. *)
Record BBox2f := BBoxf { fmin : Vector2f; fmax : Vector2f }.

(** [BBox2f(0,0,0,0)]. *)
Definition BBox2f_zero : BBox2f := BBoxf Vector2f_zero Vector2f_zero.

Definition bbox2f_eqb (a b : BBox2f) : bool :=
  v2f_eqb (fmin a) (fmin b) && v2f_eqb (fmax a) (fmax b).


(** ** Disparity range of a masked image *)

(** [EWMinMaxAccumulator<Vector2>]: the element-wise minimum and
    maximum, in [double]. *)
Record MinMax := { minimum : Vector2; maximum : Vector2 }.


(** The accumulator applied to the valid pixels: the first valid pixel
    sets both corners, later ones widen them. *)
Definition accum_minmax (acc : option MinMax) (p : PixelMask Vector2) : option MinMax :=
  if is_valid p then
    match acc with
    | None => Some {| minimum := child p; maximum := child p |}
    | Some a =>
        Some {| minimum := V2 (std_min (v2x (minimum a)) (v2x (child p)))
                              (std_min (v2y (minimum a)) (v2y (child p)));
                maximum := V2 (std_max (v2x (maximum a)) (v2x (child p)))
                              (std_max (v2y (maximum a)) (v2y (child p))) |}
    end
  else acc.

(** The box [BBox2f(minimum, maximum)]: the corners are narrowed to
    [float]. *)
Definition bbox2f_of_minmax (a : MinMax) : BBox2f :=
  BBoxf (v2f_of_v2 (minimum a)) (v2f_of_v2 (maximum a)).

(** [stereo::get_disparity_range] (a library function): the box spanned
    by the valid disparities, and [BBox2f(0,0,0,0)] when no pixel is
    valid, which is the value its caller tests for. *)
Definition get_disparity_range (img : list (PixelMask Vector2)) : BBox2f :=
  match foldl accum_minmax None img with
  | None => BBox2f_zero
  | Some a => bbox2f_of_minmax a
  end.

End VW.

(* ===================================================================== *)
(** * Part II: [DEMDisparity.cc]                                          *)
(* ===================================================================== *)

Module DemDisp.

Import VW.
Local Open Scope Q_scope.

(** ** External interfaces *)

(** [vw::camera::CameraModel]: the three virtual operations; [None]
    stands for a thrown exception. *)
Record CameraModel := {
  camera_center : Vector2 -> option Vector3;
  pixel_to_vector : Vector2 -> option Vector3;
  point_to_pixel : Vector3 -> option Vector2
}.

(** [vw::TransformPtr].  [forward] is called inside a [try] block by the
    view and [None] stands for a thrown exception.  [reverse] is called
    outside of any [try] block: this part describes the view for a
    transform whose [reverse] returns, and [DemDispRun] describes what
    happens when it throws. *)
Record Transform := {
  forward : Vector2 -> option Vector2;
  reverse : Vector2 -> Vector2
}.

(** The tolerances handed to the ray/DEM intersector. *)
Record IntersectOpts := {
  treat_nodata_as_zero : bool;
  height_error_tol : Q;
  max_abs_tol : Q;
  max_rel_tol : Q;
  num_max_iter : Z
}.

(** The cartography services used by the view, over an abstract DEM
    image type and an abstract georeference type.  The view calls them
    outside of any [try] block: this part describes the view for
    services that return, and [DemDispRun] describes what happens when
    they throw. *)
Class Cartography (DEM GEOREF : Type) := {
  (** [camera_pixel_to_dem_xyz(ctr, vec, dem, georef, ..., xyz_guess, height_guess)],
      returning [has_intersection] and the point. *)
  camera_pixel_to_dem_xyz :
    Vector3 -> Vector3 -> DEM -> GEOREF -> IntersectOpts -> Vector3 -> Q -> bool * Vector3;
  (** [georef.datum().cartesian_to_geodetic(xyz)]. *)
  cartesian_to_geodetic : GEOREF -> Vector3 -> Vector3;
  (** [georef.lonlat_to_pixel(lonlat)]. *)
  lonlat_to_pixel : GEOREF -> Vector2 -> Vector2;
  (** [crop(georef, box)] and [crop(dem, box)]. *)
  crop_georef : GEOREF -> BBox2i -> GEOREF;
  crop_dem : DEM -> BBox2i -> DEM;
  (** [bounding_box(dem)]. *)
  bounding_box : DEM -> BBox2i;
  (** [demHeightGuess(dem)]. *)
  demHeightGuess : DEM -> Q
}.

(** An [ImageView]: pixels addressed by (column, row). *)
Abbreviation Image A := (gmap (Z * Z) A).

Section View.

Context {DEM GEOREF : Type} `{Cartography DEM GEOREF}.

(** ** [lowResPixToDemXyz] *)

(** The tolerances computed inside [lowResPixToDemXyz] from [dem_error]. *)
Definition dem_intersect_opts (dem_error : Q) : IntersectOpts :=
  let height_error_tol := std_max (dem_error / 4) 1 in
  let max_abs_tol := height_error_tol / 4 in
  let max_rel_tol := 1 / 100000000000000 in
  let num_max_iter := 50%Z in
  let treat_nodata_as_zero := false in
  {| treat_nodata_as_zero := treat_nodata_as_zero;
     height_error_tol := height_error_tol;
     max_abs_tol := max_abs_tol;
     max_rel_tol := max_rel_tol;
     num_max_iter := num_max_iter |}.

(** Take a low-res pixel, make it full res, undo the transform, intersect
    with the DEM.  The C++ function returns a [bool] and writes
    [left_camera_vec], [prev_xyz] and [xyz]; here the first component is
    [Some (left_camera_vec, xyz)] on success and the second component is
    the value of [prev_xyz] after the call. *)
Definition lowResPixToDemXyz
    (left_lowres_pix : Vector2) (downsample_scale : Vector2)
    (tx_left : Transform) (left_camera_model : CameraModel)
    (dem_error : Q) (dem_georef : GEOREF) (dem : DEM) (height_guess : Q)
    (prev_xyz : Vector3) : option (Vector3 * Vector3) * Vector3 :=
  let left_fullres_pix := elem_quot left_lowres_pix downsample_scale in
  let left_fullres_pix := reverse tx_left left_fullres_pix in
  match camera_center left_camera_model left_fullres_pix with
  | None => (None, prev_xyz)
  | Some left_camera_ctr =>
      match pixel_to_vector left_camera_model left_fullres_pix with
      | None => (None, prev_xyz)
      | Some left_camera_vec =>
          let '(has_intersection, xyz) :=
            camera_pixel_to_dem_xyz left_camera_ctr left_camera_vec dem dem_georef
                                    (dem_intersect_opts dem_error) prev_xyz height_guess in
          if negb has_intersection || v3_eqb xyz Vector3_zero
          then (None, prev_xyz)
          else (Some (left_camera_vec, xyz), xyz)
      end
  end.

(** ** The view *)

(** The data members of [class DemDisparity]; the left image only
    contributes its size.  [m_disp_spread] is a reference to an image
    owned by the caller and is threaded through [prerasterize]. *)
Record DemDisparity := {
  m_left_cols : Z;
  m_left_rows : Z;
  m_dem_error : Q;
  m_dem_georef : GEOREF;
  m_dem : DEM;
  (** The member is a [Vector2f]; this is its value in [double], in
      which it is used. *)
  m_downsample_scale : Vector2;
  m_tx_left : Transform;
  m_tx_right : Transform;
  m_left_camera_model : CameraModel;
  m_right_camera_model : CameraModel;
  m_pixel_sample : Z;
  m_height_guess : Q
}.

(** The constructor: the members are copied (a [Map2CamTrans] transform
    is duplicated, which does not change what it computes) and the
    height guess is taken from the DEM. *)
Definition make_DemDisparity (left_cols left_rows : Z) (dem_error : Q)
    (dem_georef : GEOREF) (dem : DEM) (downsample_scale : Vector2)
    (tx_left tx_right : Transform)
    (left_camera_model right_camera_model : CameraModel)
    (pixel_sample : Z) : DemDisparity :=
  {| m_left_cols := left_cols; m_left_rows := left_rows;
     m_dem_error := dem_error; m_dem_georef := dem_georef; m_dem := dem;
     m_downsample_scale := downsample_scale;
     m_tx_left := tx_left; m_tx_right := tx_right;
     m_left_camera_model := left_camera_model;
     m_right_camera_model := right_camera_model;
     m_pixel_sample := pixel_sample;
     m_height_guess := demHeightGuess dem |}.

Definition cols (v : DemDisparity) : Z := m_left_cols v.
Definition rows (v : DemDisparity) : Z := m_left_rows v.

(** [CropView<ImageView<pixel_type>>]: pixel [(col, row)] of the view is
    pixel [(col + ci, row + cj)] of the child. *)
Record CropView := {
  cv_child : Image (PixelMask Vector2f);
  cv_ci : Z;
  cv_cj : Z
}.

Definition cv_get (v : CropView) (col row : Z) : option (PixelMask Vector2f) :=
  cv_child v !! ((col + cv_ci v)%Z, (row + cv_cj v)%Z).

Definition cv_set (v : CropView) (col row : Z) (p : PixelMask Vector2f) : CropView :=
  {| cv_child := <[((col + cv_ci v)%Z, (row + cv_cj v)%Z) := p]> (cv_child v);
     cv_ci := cv_ci v; cv_cj := cv_cj v |}.

(** The rows and columns visited by [for (row = min.y; row < max.y; row++)]
    and [for (col = min.x; col < max.x; col++)]. *)
Definition tile_rows (bbox : BBox2i) : list Z :=
  seqZ (bmin_y bbox) (bmax_y bbox - bmin_y bbox).
Definition tile_cols (bbox : BBox2i) : list Z :=
  seqZ (bmin_x bbox) (bmax_x bbox - bmin_x bbox).

(** The variables mutated by the loops of [prerasterize]. *)
Record LoopState := {
  st_lowres_disparity : CropView;
  st_disp_spread : Image (PixelMask Vector2i);
  st_prev_xyz : Vector3
}.

(** First loop: every pixel of the tile starts out invalid in both
    images. *)
Definition clear_pixel (row : Z) (st : LoopState) (col : Z) : LoopState :=
  {| st_lowres_disparity := cv_set (st_lowres_disparity st) col row (invalidate PixelMask_Vector2f);
     st_disp_spread := <[(col, row) := invalidate PixelMask_Vector2i]> (st_disp_spread st);
     st_prev_xyz := st_prev_xyz st |}.

Definition clear_tile (bbox : BBox2i) (st : LoopState) : LoopState :=
  foldl (fun st row => foldl (clear_pixel row) st (tile_cols bbox)) st (tile_rows bbox).

(** The sample points on the two diagonals of the tile. *)
Definition diagonals (bbox : BBox2i) : list Vector2 :=
  let wid := (width bbox - 1)%Z in
  let hgt := (height bbox - 1)%Z in
  let dim := Z.max 1 (Z.quot (Z.max wid hgt) 10) in
  let bmin := v2_of_ints (bmin_x bbox) (bmin_y bbox) in
  map (fun i => v2_add bmin (V2 (inject_Z i * inject_Z wid / inject_Z dim)
                                (inject_Z i * inject_Z hgt / inject_Z dim)))
      (seqZ 0 (dim + 1))
  ++
  map (fun i => v2_add bmin (V2 (inject_Z i * inject_Z wid / inject_Z dim)
                                (inject_Z hgt - inject_Z i * inject_Z hgt / inject_Z dim)))
      (seqZ 0 (dim + 1)).

(** One iteration of the loop over the diagonal samples: intersect with
    the full DEM and grow the box by the DEM pixel that was hit. *)
Definition grow_dem_box (v : DemDisparity) (acc : BBox2i * Vector3)
    (left_lowres_pix : Vector2) : BBox2i * Vector3 :=
  let '(dem_box, prev_xyz) := acc in
  match lowResPixToDemXyz left_lowres_pix (m_downsample_scale v) (m_tx_left v)
                          (m_left_camera_model v) (m_dem_error v) (m_dem_georef v)
                          (m_dem v) (m_height_guess v) prev_xyz with
  | (None, prev_xyz) => (dem_box, prev_xyz)
  | (Some (_, xyz), prev_xyz) =>
      let llh := cartesian_to_geodetic (m_dem_georef v) xyz in
      let pix := v2_round (lonlat_to_pixel (m_dem_georef v) (subvector02 llh)) in
      (grow dem_box pix, prev_xyz)
  end.

(** [std::max(100, (int)(0.1*std::max(dem_box.width(), dem_box.height())))]. *)
Definition expand_amount (dem_box : BBox2i) : Z :=
  Z.max 100 (ctrunc ((1 # 10) * inject_Z (Z.max (width dem_box) (height dem_box)))).

(** The DEM region loaded for a tile, and the value of [prev_xyz] left
    behind by the diagonal samples. *)
Definition estimate_dem_box (v : DemDisparity) (bbox : BBox2i) (prev_xyz : Vector3)
    : BBox2i * Vector3 :=
  let '(dem_box, prev_xyz) :=
    foldl (grow_dem_box v) (BBox2i_empty, prev_xyz) (diagonals bbox) in
  let expand_by := expand_amount dem_box in
  let dem_box := expand dem_box expand_by in
  let dem_box := crop_box dem_box (bounding_box (m_dem v)) in
  (dem_box, prev_xyz).

(** The perturbations of the intersection point along the ray. *)
Definition bias (k : nat) : Q :=
  match k with
  | O => -1
  | S O => 1
  | _ => 0
  end.

(** The body of the [try] block: project the perturbed point into the
    right camera, then through the right transform. *)
Definition reproject (v : DemDisparity) (xyz left_camera_vec : Vector3) (k : nat)
    : option Vector2 :=
  let biased_xyz := v3_add xyz (v3_scale (bias k * m_dem_error v) left_camera_vec) in
  match point_to_pixel (m_right_camera_model v) biased_xyz with
  | None => None
  | Some right_fullres_pix => forward (m_tx_right v) right_fullres_pix
  end.

(** The loop [for (k = 0; k < 3; k++)] over the perturbations, with its
    [continue] (a throw) and its [break] (both end points succeeded). *)
Fixpoint disp_range_loop (v : DemDisparity) (left_lowres_pix : Vector2)
    (xyz left_camera_vec : Vector3) (ks : list nat) (curr_pixel_disp_range : list (PixelMask Vector2))
    (success_arr : list bool) : list (PixelMask Vector2) :=
  match ks with
  | [] => curr_pixel_disp_range
  | k :: ks' =>
      let curr_pixel_disp_range := alter invalidate k curr_pixel_disp_range in
      match reproject v xyz left_camera_vec k with
      | None =>
          disp_range_loop v left_lowres_pix xyz left_camera_vec ks'
                          curr_pixel_disp_range success_arr
      | Some right_fullres_pix =>
          let right_lowres_pix := elem_prod right_fullres_pix (m_downsample_scale v) in
          let curr_pixel_disp_range :=
            <[k := validate (of_child (v2_sub right_lowres_pix left_lowres_pix))]>
              curr_pixel_disp_range in
          let success_arr := <[k := true]> success_arr in
          if Nat.eqb k 1 && nth 0 success_arr false && nth 1 success_arr false
          then curr_pixel_disp_range
          else disp_range_loop v left_lowres_pix xyz left_camera_vec ks'
                               curr_pixel_disp_range success_arr
      end
  end.

(** [ImageView<PixelMask<Vector2>> curr_pixel_disp_range(3, 1)] after the
    loop over the three perturbations. *)
Definition curr_pixel_disp_range (v : DemDisparity) (left_lowres_pix : Vector2)
    (xyz left_camera_vec : Vector3) : list (PixelMask Vector2) :=
  disp_range_loop v left_lowres_pix xyz left_camera_vec (seq 0 3)
                  (replicate 3 PixelMask_Vector2) (replicate 3 false).

(** One component of [round((min + max)/2.0)]: the sum of two [float]
    is a [float], the division by [2.0] and [round] are done in
    [double], and the result is stored as [float]. *)
Definition midpoint (lo hi : fp) : fp :=
  float_of_fp (fp_round (fp_half (fadd lo hi))).

(** One component of [ceil((max - min)/2.0)]: the difference of two
    [float] is a [float], the division by [2.0] and [ceil] are done in
    [double], and the result is stored as [int]. *)
Definition half_width (lo hi : fp) : fp := fp_ceil (fp_half (fsub hi lo)).

(** [round((search_range.min() + search_range.max())/2.0)], assigned to
    a masked pixel of the disparity block. *)
Definition disparity_of_range (search_range : BBox2f) : PixelMask Vector2f :=
  of_child (V2f (midpoint (v2fx (fmin search_range)) (v2fx (fmax search_range)))
                (midpoint (v2fy (fmin search_range)) (v2fy (fmax search_range)))).

(** [ceil((search_range.max() - search_range.min())/2.0)], assigned to a
    masked pixel of the spread image. *)
Definition spread_of_range (search_range : BBox2f) : PixelMask Vector2i :=
  of_child (V2i (int_of_fp (half_width (v2fx (fmin search_range)) (v2fx (fmax search_range))))
                (int_of_fp (half_width (v2fy (fmin search_range)) (v2fy (fmax search_range))))).

(** The body of the inner loop of the second pass, for a pixel whose row
    and column passed the stride test. *)
Definition pixel_body (v : DemDisparity) (georef_crop : GEOREF) (dem_crop : DEM)
    (row col : Z) (st : LoopState) : LoopState :=
  let left_lowres_pix := v2_of_ints col row in
  match lowResPixToDemXyz left_lowres_pix (m_downsample_scale v) (m_tx_left v)
                          (m_left_camera_model v) (m_dem_error v) georef_crop
                          dem_crop (m_height_guess v) (st_prev_xyz st) with
  | (None, prev) =>
      {| st_lowres_disparity := st_lowres_disparity st;
         st_disp_spread := st_disp_spread st;
         st_prev_xyz := prev |}
  | (Some (left_camera_vec, xyz), prev) =>
      let search_range :=
        get_disparity_range (curr_pixel_disp_range v left_lowres_pix xyz left_camera_vec) in
      if bbox2f_eqb search_range BBox2f_zero then
        {| st_lowres_disparity := st_lowres_disparity st;
           st_disp_spread := st_disp_spread st;
           st_prev_xyz := prev |}
      else
        {| st_lowres_disparity :=
             cv_set (st_lowres_disparity st) col row (disparity_of_range search_range);
           st_disp_spread :=
             <[(col, row) := spread_of_range search_range]> (st_disp_spread st);
           st_prev_xyz := prev |}
  end.

(** [if (col % m_pixel_sample != 0) continue;] followed by the body. *)
Definition col_step (v : DemDisparity) (georef_crop : GEOREF) (dem_crop : DEM)
    (row : Z) (st : LoopState) (col : Z) : LoopState :=
  if negb (Z.rem col (m_pixel_sample v) =? 0)%Z then st
  else pixel_body v georef_crop dem_crop row col st.

(** [if (row % m_pixel_sample != 0) continue;], the reset of the warm
    start, and the loop over the columns. *)
Definition row_step (v : DemDisparity) (georef_crop : GEOREF) (dem_crop : DEM)
    (bbox : BBox2i) (st : LoopState) (row : Z) : LoopState :=
  if negb (Z.rem row (m_pixel_sample v) =? 0)%Z then st
  else
    let st := {| st_lowres_disparity := st_lowres_disparity st;
                 st_disp_spread := st_disp_spread st;
                 st_prev_xyz := Vector3_zero |} in
    foldl (col_step v georef_crop dem_crop row) st (tile_cols bbox).

(** [DemDisparity::prerasterize(bbox)].  The argument [spread0] is the
    content of the shared image [m_disp_spread] before the call; the
    result is the returned block and the content of [m_disp_spread]
    after the call.  The tolerances that the C++ function computes
    again at its start are never read there and are left out.  The
    image writer asks for regions inside the image only; a write to
    [m_disp_spread] outside its extent has no defined behaviour in C++
    and is not singled out here, where an image is a map from positions
    to pixels. *)
Definition prerasterize (v : DemDisparity) (bbox : BBox2i)
    (spread0 : Image (PixelMask Vector2i)) : CropView * Image (PixelMask Vector2i) :=
  let lowres_disparity :=
    {| cv_child := ∅; cv_ci := (- bmin_x bbox)%Z; cv_cj := (- bmin_y bbox)%Z |} in
  let st := clear_tile bbox {| st_lowres_disparity := lowres_disparity;
                               st_disp_spread := spread0;
                               st_prev_xyz := Vector3_zero |} in
  let '(dem_box, prev) := estimate_dem_box v bbox (st_prev_xyz st) in
  let georef_crop := crop_georef (m_dem_georef v) dem_box in
  let dem_crop := crop_dem (m_dem v) dem_box in
  let st := {| st_lowres_disparity := st_lowres_disparity st;
               st_disp_spread := st_disp_spread st;
               st_prev_xyz := prev |} in
  let st := foldl (row_step v georef_crop dem_crop bbox) st (tile_rows bbox) in
  (st_lowres_disparity st, st_disp_spread st).

(** ** The writer's view of a tile *)

(** [rasterize(dest, bbox)]: compute the block and copy it into the
    destination image. *)
Definition copy_pixel (blk : CropView) (row : Z) (dest : Image (PixelMask Vector2f))
    (col : Z) : Image (PixelMask Vector2f) :=
  match cv_get blk col row with
  | Some p => <[(col, row) := p]> dest
  | None => dest
  end.

Definition rasterize (v : DemDisparity)
    (acc : Image (PixelMask Vector2f) * Image (PixelMask Vector2i)) (bbox : BBox2i)
    : Image (PixelMask Vector2f) * Image (PixelMask Vector2i) :=
  let '(dest, spread) := acc in
  let '(blk, spread) := prerasterize v bbox spread in
  (foldl (fun dest row => foldl (copy_pixel blk row) dest (tile_cols bbox))
         dest (tile_rows bbox),
   spread).

(** ** The loops read pixel by pixel *)

(** Membership of a pixel in a tile. *)
Definition in_tile (bbox : BBox2i) (col row : Z) : Prop :=
  (bmin_x bbox <= col < bmax_x bbox)%Z /\ (bmin_y bbox <= row < bmax_y bbox)%Z.

(** A masked pixel that is present in an image and not valid. *)
Definition is_invalid {A} (p : option (PixelMask A)) : Prop :=
  exists q, p = Some q /\ is_valid q = false.

(** The cropped georeference and DEM that [prerasterize] builds for a
    tile before its second pass. *)
Definition tile_georef (v : DemDisparity) (bbox : BBox2i) : GEOREF :=
  crop_georef (m_dem_georef v) (fst (estimate_dem_box v bbox Vector3_zero)).
Definition tile_dem (v : DemDisparity) (bbox : BBox2i) : DEM :=
  crop_dem (m_dem v) (fst (estimate_dem_box v bbox Vector3_zero)).

(** The intersection attempted by the loop body at a pixel, for a given
    warm start. *)
Definition pixel_intersection (v : DemDisparity) (georef_crop : GEOREF) (dem_crop : DEM)
    (row col : Z) (prev : Vector3) : option (Vector3 * Vector3) * Vector3 :=
  lowResPixToDemXyz (v2_of_ints col row) (m_downsample_scale v) (m_tx_left v)
                    (m_left_camera_model v) (m_dem_error v) georef_crop dem_crop
                    (m_height_guess v) prev.

(** The search range computed by the loop body after a successful
    intersection. *)
Definition pixel_search_range (v : DemDisparity) (row col : Z)
    (left_camera_vec xyz : Vector3) : BBox2f :=
  get_disparity_range (curr_pixel_disp_range v (v2_of_ints col row) xyz left_camera_vec).

(** What one iteration of the column loop decides: the search range it
    stores (if it stores one) and the warm start it leaves behind. *)
Definition col_outcome (v : DemDisparity) (georef_crop : GEOREF) (dem_crop : DEM)
    (row col : Z) (prev : Vector3) : option BBox2f * Vector3 :=
  if negb (Z.rem col (m_pixel_sample v) =? 0)%Z then (None, prev)
  else
    match pixel_intersection v georef_crop dem_crop row col prev with
    | (None, prev') => (None, prev')
    | (Some (left_camera_vec, xyz), prev') =>
        let search_range := pixel_search_range v row col left_camera_vec xyz in
        if bbox2f_eqb search_range BBox2f_zero then (None, prev')
        else (Some search_range, prev')
    end.

(** The effect of that decision on the variables of the loop. *)
Definition store_range (col row : Z) (o : option BBox2f * Vector3) (st : LoopState)
    : LoopState :=
  match fst o with
  | None =>
      {| st_lowres_disparity := st_lowres_disparity st;
         st_disp_spread := st_disp_spread st;
         st_prev_xyz := snd o |}
  | Some search_range =>
      {| st_lowres_disparity :=
           cv_set (st_lowres_disparity st) col row (disparity_of_range search_range);
         st_disp_spread :=
           <[(col, row) := spread_of_range search_range]> (st_disp_spread st);
         st_prev_xyz := snd o |}
  end.

(** The two pixels at a position, as the loop variables hold them. *)
Definition peek (st : LoopState) (col row : Z)
    : option (PixelMask Vector2f) * option (PixelMask Vector2i) :=
  (cv_get (st_lowres_disparity st) col row, st_disp_spread st !! (col, row)).

(** The two pixels written for a stored search range, and the two
    pixels of a position where nothing is stored. *)
Definition written (o : option BBox2f)
    : option (PixelMask Vector2f) * option (PixelMask Vector2i) :=
  match o with
  | Some search_range =>
      (Some (disparity_of_range search_range), Some (spread_of_range search_range))
  | None =>
      (Some (invalidate PixelMask_Vector2f), Some (invalidate PixelMask_Vector2i))
  end.

(** The warm start with which the loop body runs at column [col] of a
    sampled row: reset at the start of the row, then carried across the
    columns to the left of [col]. *)
Definition carry (v : DemDisparity) (georef_crop : GEOREF) (dem_crop : DEM)
    (row : Z) (prev : Vector3) (cs : list Z) : Vector3 :=
  foldl (fun prev c => snd (col_outcome v georef_crop dem_crop row c prev)) prev cs.

Definition warm_start (v : DemDisparity) (bbox : BBox2i) (row col : Z) : Vector3 :=
  carry v (tile_georef v bbox) (tile_dem v bbox) row Vector3_zero
        (seqZ (bmin_x bbox) (col - bmin_x bbox)).

(** The search range stored at a pixel of the tile, if one is stored. *)
Definition stored_range (v : DemDisparity) (bbox : BBox2i) (col row : Z) : option BBox2f :=
  if negb (Z.rem row (m_pixel_sample v) =? 0)%Z then None
  else fst (col_outcome v (tile_georef v bbox) (tile_dem v bbox) row col
                        (warm_start v bbox row col)).

(** The DEM pixel hit by a diagonal sample, when its ray meets the full
    DEM. *)
Definition dem_pixel_hit (v : DemDisparity) (left_lowres_pix : Vector2) (prev : Vector3)
    : option Vector2i :=
  match lowResPixToDemXyz left_lowres_pix (m_downsample_scale v) (m_tx_left v)
                          (m_left_camera_model v) (m_dem_error v) (m_dem_georef v)
                          (m_dem v) (m_height_guess v) prev with
  | (None, _) => None
  | (Some (_, xyz), _) =>
      Some (v2_round (lonlat_to_pixel (m_dem_georef v)
                        (subvector02 (cartesian_to_geodetic (m_dem_georef v) xyz))))
  end.

(** Two loop states with the same block and the same warm start. *)
Definition same_block (st st' : LoopState) : Prop :=
  st_lowres_disparity st = st_lowres_disparity st' /\ st_prev_xyz st = st_prev_xyz st'.

(** The warm start left behind by a run of diagonal samples. *)
Definition diagonal_warm_start (v : DemDisparity) (samples : list Vector2) : Vector3 :=
  snd (foldl (grow_dem_box v) (BBox2i_empty, Vector3_zero) samples).

(** The same services with another ray/DEM intersector. *)
Definition with_intersector (C : Cartography DEM GEOREF)
    (f : Vector3 -> Vector3 -> DEM -> GEOREF -> IntersectOpts -> Vector3 -> Q -> bool * Vector3)
    : Cartography DEM GEOREF :=
  {| camera_pixel_to_dem_xyz := f;
     cartesian_to_geodetic := @cartesian_to_geodetic _ _ C;
     lonlat_to_pixel := @lonlat_to_pixel _ _ C;
     crop_georef := @crop_georef _ _ C;
     crop_dem := @crop_dem _ _ C;
     bounding_box := @bounding_box _ _ C;
     demHeightGuess := @demHeightGuess _ _ C |}.

End View.

Arguments DemDisparity : clear implicits.

End DemDisp.

(* ===================================================================== *)
(** * Part II, continued: [DEMDisparity.cc] with its exceptions           *)
(* ===================================================================== *)

(** Part II is what the view computes when the calls that it makes
    outside of its [try] blocks return.  Here these calls can throw, as
    can the file accesses of the driver: [tx_left->reverse], the
    ray/DEM intersector, the georeference, the crops of the DEM,
    [demHeightGuess], the opening of the images and the two writers.
    No [catch] of the file intercepts such an exception, so it ends
    [lowResPixToDemXyz], [prerasterize] and [produce_dem_disparity]
    alike.  The camera models and the [forward] operation of the right
    transform are called inside [try] blocks, as in Part II. *)
Module DemDispRun.

Import VW DemDisp.
Local Open Scope Q_scope.

(** ** Exceptions *)

(** What is streamed into the message of an exception: text and
    numbers. *)
Inductive Item :=
| Text (s : string)
| Number (x : Q).

(** [vw::ArgumentErr] as thrown by the [vw_throw] statements of the
    driver, with its message; and an exception, of whatever type, that
    leaves a call into a library. *)
Inductive Exception :=
| ArgumentErr (msg : list Item)
| LibraryErr.

(** A call outside of any [try] block: its exception propagates. *)
Definition call {A} (r : option A) : Exception + A :=
  match r with
  | Some a => inr a
  | None => inl LibraryErr
  end.

(** Sequencing of computations that may throw. *)
Definition bind {A B} (m : Exception + A) (k : A -> Exception + B) : Exception + B :=
  match m with
  | inl e => inl e
  | inr a => k a
  end.

Notation "'run!' x ':=' m 'in' k" := (bind m (fun x => k))
  (at level 10, x name, m at level 100, k at level 200).

(** A loop whose body may throw: the exception ends the loop. *)
Fixpoint foldlM {A B} (f : A -> B -> Exception + A) (a : A) (l : list B) : Exception + A :=
  match l with
  | [] => inr a
  | x :: l' => run! a' := f a x in foldlM f a' l'
  end.

(** The end of a line. *)
Definition nl : string := String "010" EmptyString.

(** ** External interfaces *)

(** [vw::TransformPtr]: [None] stands for a thrown exception. *)
Record Transform := {
  forward : Vector2 -> option Vector2;
  reverse : Vector2 -> option Vector2
}.

(** The cartography services used by the view; [None] stands for a
    thrown exception.  [crop(dem, box)] is assigned to an [ImageView],
    which reads the region of the DEM from disk; [bounding_box] only
    looks at the size of the image. *)
Class Cartography (DEM GEOREF : Type) := {
  camera_pixel_to_dem_xyz :
    Vector3 -> Vector3 -> DEM -> GEOREF -> IntersectOpts -> Vector3 -> Q ->
    option (bool * Vector3);
  cartesian_to_geodetic : GEOREF -> Vector3 -> option Vector3;
  lonlat_to_pixel : GEOREF -> Vector2 -> option Vector2;
  crop_georef : GEOREF -> BBox2i -> option GEOREF;
  crop_dem : DEM -> BBox2i -> option DEM;
  bounding_box : DEM -> BBox2i;
  demHeightGuess : DEM -> option Q
}.

Section View.

Context {DEM GEOREF : Type} `{Cartography DEM GEOREF}.

(** ** [lowResPixToDemXyz] *)

(** The result is as in Part II: [Some (left_camera_vec, xyz)] on
    success, together with the value of [prev_xyz] after the call. *)
Definition lowResPixToDemXyz
    (left_lowres_pix : Vector2) (downsample_scale : Vector2f)
    (tx_left : Transform) (left_camera_model : CameraModel)
    (dem_error : Q) (dem_georef : GEOREF) (dem : DEM) (height_guess : Q)
    (prev_xyz : Vector3) : Exception + (option (Vector3 * Vector3) * Vector3) :=
  let left_fullres_pix := elem_quot left_lowres_pix (v2_of_v2f downsample_scale) in
  run! left_fullres_pix := call (reverse tx_left left_fullres_pix) in
  match camera_center left_camera_model left_fullres_pix with
  | None => inr (None, prev_xyz)
  | Some left_camera_ctr =>
      match pixel_to_vector left_camera_model left_fullres_pix with
      | None => inr (None, prev_xyz)
      | Some left_camera_vec =>
          run! hit := call (camera_pixel_to_dem_xyz left_camera_ctr left_camera_vec
                              dem dem_georef (dem_intersect_opts dem_error)
                              prev_xyz height_guess) in
          let '(has_intersection, xyz) := hit in
          if negb has_intersection || v3_eqb xyz Vector3_zero
          then inr (None, prev_xyz)
          else inr (Some (left_camera_vec, xyz), xyz)
      end
  end.

(** ** The view *)

(** The data members of [class DemDisparity]. *)
Record DemDisparity := {
  m_left_cols : Z;
  m_left_rows : Z;
  m_dem_error : Q;
  m_dem_georef : GEOREF;
  m_dem : DEM;
  m_downsample_scale : Vector2f;
  m_tx_left : Transform;
  m_tx_right : Transform;
  m_left_camera_model : CameraModel;
  m_right_camera_model : CameraModel;
  m_pixel_sample : Z;
  m_height_guess : Q
}.

(** The constructor; [demHeightGuess] reads the DEM. *)
Definition make_DemDisparity (left_cols left_rows : Z) (dem_error : Q)
    (dem_georef : GEOREF) (dem : DEM) (downsample_scale : Vector2f)
    (tx_left tx_right : Transform)
    (left_camera_model right_camera_model : CameraModel)
    (pixel_sample : Z) : Exception + DemDisparity :=
  run! height_guess := call (demHeightGuess dem) in
  inr {| m_left_cols := left_cols; m_left_rows := left_rows;
         m_dem_error := dem_error; m_dem_georef := dem_georef; m_dem := dem;
         m_downsample_scale := downsample_scale;
         m_tx_left := tx_left; m_tx_right := tx_right;
         m_left_camera_model := left_camera_model;
         m_right_camera_model := right_camera_model;
         m_pixel_sample := pixel_sample;
         m_height_guess := height_guess |}.

Definition cols (v : DemDisparity) : Z := m_left_cols v.
Definition rows (v : DemDisparity) : Z := m_left_rows v.

(** One iteration of the loop over the diagonal samples. *)
Definition grow_dem_box (v : DemDisparity) (acc : BBox2i * Vector3)
    (left_lowres_pix : Vector2) : Exception + (BBox2i * Vector3) :=
  let '(dem_box, prev_xyz) := acc in
  run! success := lowResPixToDemXyz left_lowres_pix (m_downsample_scale v) (m_tx_left v)
                    (m_left_camera_model v) (m_dem_error v) (m_dem_georef v)
                    (m_dem v) (m_height_guess v) prev_xyz in
  match success with
  | (None, prev_xyz) => inr (dem_box, prev_xyz)
  | (Some (_, xyz), prev_xyz) =>
      run! llh := call (cartesian_to_geodetic (m_dem_georef v) xyz) in
      run! lonlat := call (lonlat_to_pixel (m_dem_georef v) (subvector02 llh)) in
      let pix := v2_round lonlat in
      inr (grow dem_box pix, prev_xyz)
  end.

(** The DEM region loaded for a tile, and the value of [prev_xyz] left
    behind by the diagonal samples. *)
Definition estimate_dem_box (v : DemDisparity) (bbox : BBox2i) (prev_xyz : Vector3)
    : Exception + (BBox2i * Vector3) :=
  run! grown := foldlM (grow_dem_box v) (BBox2i_empty, prev_xyz) (diagonals bbox) in
  let '(dem_box, prev_xyz) := grown in
  let expand_by := expand_amount dem_box in
  let dem_box := expand dem_box expand_by in
  let dem_box := crop_box dem_box (bounding_box (m_dem v)) in
  inr (dem_box, prev_xyz).

(** The body of the [try] block of the loop over the perturbations. *)
Definition reproject (v : DemDisparity) (xyz left_camera_vec : Vector3) (k : nat)
    : option Vector2 :=
  let biased_xyz := v3_add xyz (v3_scale (bias k * m_dem_error v) left_camera_vec) in
  match point_to_pixel (m_right_camera_model v) biased_xyz with
  | None => None
  | Some right_fullres_pix => forward (m_tx_right v) right_fullres_pix
  end.

(** The loop [for (k = 0; k < 3; k++)] over the perturbations. *)
Fixpoint disp_range_loop (v : DemDisparity) (left_lowres_pix : Vector2)
    (xyz left_camera_vec : Vector3) (ks : list nat) (curr_pixel_disp_range : list (PixelMask Vector2))
    (success_arr : list bool) : list (PixelMask Vector2) :=
  match ks with
  | [] => curr_pixel_disp_range
  | k :: ks' =>
      let curr_pixel_disp_range := alter invalidate k curr_pixel_disp_range in
      match reproject v xyz left_camera_vec k with
      | None =>
          disp_range_loop v left_lowres_pix xyz left_camera_vec ks'
                          curr_pixel_disp_range success_arr
      | Some right_fullres_pix =>
          let right_lowres_pix :=
            elem_prod right_fullres_pix (v2_of_v2f (m_downsample_scale v)) in
          let curr_pixel_disp_range :=
            <[k := validate (of_child (v2_sub right_lowres_pix left_lowres_pix))]>
              curr_pixel_disp_range in
          let success_arr := <[k := true]> success_arr in
          if Nat.eqb k 1 && nth 0 success_arr false && nth 1 success_arr false
          then curr_pixel_disp_range
          else disp_range_loop v left_lowres_pix xyz left_camera_vec ks'
                               curr_pixel_disp_range success_arr
      end
  end.

Definition curr_pixel_disp_range (v : DemDisparity) (left_lowres_pix : Vector2)
    (xyz left_camera_vec : Vector3) : list (PixelMask Vector2) :=
  disp_range_loop v left_lowres_pix xyz left_camera_vec (seq 0 3)
                  (replicate 3 PixelMask_Vector2) (replicate 3 false).

(** The body of the inner loop of the second pass, for a pixel whose row
    and column passed the stride test. *)
Definition pixel_body (v : DemDisparity) (georef_crop : GEOREF) (dem_crop : DEM)
    (row col : Z) (st : LoopState) : Exception + LoopState :=
  let left_lowres_pix := v2_of_ints col row in
  run! success := lowResPixToDemXyz left_lowres_pix (m_downsample_scale v) (m_tx_left v)
                    (m_left_camera_model v) (m_dem_error v) georef_crop
                    dem_crop (m_height_guess v) (st_prev_xyz st) in
  match success with
  | (None, prev) =>
      inr {| st_lowres_disparity := st_lowres_disparity st;
             st_disp_spread := st_disp_spread st;
             st_prev_xyz := prev |}
  | (Some (left_camera_vec, xyz), prev) =>
      let search_range :=
        get_disparity_range (curr_pixel_disp_range v left_lowres_pix xyz left_camera_vec) in
      if bbox2f_eqb search_range BBox2f_zero then
        inr {| st_lowres_disparity := st_lowres_disparity st;
               st_disp_spread := st_disp_spread st;
               st_prev_xyz := prev |}
      else
        inr {| st_lowres_disparity :=
                 cv_set (st_lowres_disparity st) col row (disparity_of_range search_range);
               st_disp_spread :=
                 <[(col, row) := spread_of_range search_range]> (st_disp_spread st);
               st_prev_xyz := prev |}
  end.

Definition col_step (v : DemDisparity) (georef_crop : GEOREF) (dem_crop : DEM)
    (row : Z) (st : LoopState) (col : Z) : Exception + LoopState :=
  if negb (Z.rem col (m_pixel_sample v) =? 0)%Z then inr st
  else pixel_body v georef_crop dem_crop row col st.

Definition row_step (v : DemDisparity) (georef_crop : GEOREF) (dem_crop : DEM)
    (bbox : BBox2i) (st : LoopState) (row : Z) : Exception + LoopState :=
  if negb (Z.rem row (m_pixel_sample v) =? 0)%Z then inr st
  else
    let st := {| st_lowres_disparity := st_lowres_disparity st;
                 st_disp_spread := st_disp_spread st;
                 st_prev_xyz := Vector3_zero |} in
    foldlM (col_step v georef_crop dem_crop row) st (tile_cols bbox).

(** [DemDisparity::prerasterize(bbox)]: the returned block and the
    content of [m_disp_spread] after the call, or the exception that
    ended the call. *)
Definition prerasterize (v : DemDisparity) (bbox : BBox2i)
    (spread0 : Image (PixelMask Vector2i))
    : Exception + (CropView * Image (PixelMask Vector2i)) :=
  let lowres_disparity :=
    {| cv_child := ∅; cv_ci := (- bmin_x bbox)%Z; cv_cj := (- bmin_y bbox)%Z |} in
  let st := clear_tile bbox {| st_lowres_disparity := lowres_disparity;
                               st_disp_spread := spread0;
                               st_prev_xyz := Vector3_zero |} in
  run! estimate := estimate_dem_box v bbox (st_prev_xyz st) in
  let '(dem_box, prev) := estimate in
  run! georef_crop := call (crop_georef (m_dem_georef v) dem_box) in
  run! dem_crop := call (crop_dem (m_dem v) dem_box) in
  let st := {| st_lowres_disparity := st_lowres_disparity st;
               st_disp_spread := st_disp_spread st;
               st_prev_xyz := prev |} in
  run! st := foldlM (row_step v georef_crop dem_crop bbox) st (tile_rows bbox) in
  inr (st_lowres_disparity st, st_disp_spread st).

(** [rasterize(dest, bbox)]. *)
Definition rasterize (v : DemDisparity)
    (acc : Image (PixelMask Vector2f) * Image (PixelMask Vector2i)) (bbox : BBox2i)
    : Exception + (Image (PixelMask Vector2f) * Image (PixelMask Vector2i)) :=
  let '(dest, spread) := acc in
  run! block := prerasterize v bbox spread in
  let '(blk, spread) := block in
  inr (foldl (fun dest row => foldl (copy_pixel blk row) dest (tile_cols bbox))
             dest (tile_rows bbox),
       spread).

(** ** [produce_dem_disparity] *)

(** The settings read by the driver. *)
Record StereoSettings := {
  disparity_estimation_dem : string;
  disparity_estimation_dem_error : Q
}.

(** What the driver does with files.  [None] stands for a thrown
    exception. *)
Record Files := {
  (** [DiskImageView<PixelGray<float>>] of [-L.tif] and of [-L_sub.tif]:
      the numbers of columns and rows. *)
  left_image : option (Z * Z);
  left_image_sub : option (Z * Z);
  (** [read_georeference(dem_georef, dem_file)]: [Some None] when it
      returns [false]. *)
  read_georeference : string -> option (option GEOREF);
  (** The statements that open the DEM and mask its no-data pixels. *)
  read_masked_dem : string -> option DEM;
  (** The writers of [-D_sub.tif] and of [-D_sub_spread.tif], apart from
      the evaluation of the view that the first one writes. *)
  write_disparity : option unit;
  write_spread : option unit
}.

(** The size of the low-resolution left image, once it has been
    opened. *)
Definition left_image_sub_size (files : Files) : Z * Z :=
  default (0%Z, 0%Z) (left_image_sub files).

(** The two rasters written on success: [-D_sub.tif] and
    [-D_sub_spread.tif]. *)
Record Written := {
  D_sub : Image (PixelMask Vector2f);
  D_sub_spread : Image (PixelMask Vector2i)
}.

(** The driver.  [tiles] is the sequence of blocks in which the image
    writer asks for the view (the tiling is the writer's business; the
    driver sets the tile size to 64 x 64).  The session name only
    selects between the single-threaded and the block-parallel writer,
    and the warning about an ignored search range has no effect on the
    result; both are left out. *)
Definition produce_dem_disparity (settings : StereoSettings) (files : Files)
    (tx_left tx_right : Transform)
    (left_camera_model right_camera_model : CameraModel)
    (tiles : Z -> Z -> Z -> list BBox2i) : Exception + Written :=
  let pixel_sample := 2%Z in
  run! left_image := call (left_image files) in
  run! left_image_sub := call (left_image_sub files) in
  let dem_file := disparity_estimation_dem settings in
  if String.eqb dem_file EmptyString then
    inl (ArgumentErr [Text "dem_disparity: No value was provided for ";
                      Text ("disparity-estimation-dem." ++ nl)])
  else
    let dem_error := disparity_estimation_dem_error settings in
    if Qltb dem_error 0 then
      inl (ArgumentErr [Text "dem_disparity: Invalid value for ";
                        Text "disparity-estimation-dem-error: ";
                        Number dem_error; Text ("." ++ nl)])
    else
      run! has_georef := call (read_georeference files dem_file) in
      match has_georef with
      | None =>
          inl (ArgumentErr [Text "There is no georeference information in: ";
                            Text dem_file; Text ("." ++ nl)])
      | Some dem_georef =>
          run! dem := call (read_masked_dem files dem_file) in
          let '(left_cols, left_rows) := left_image in
          let '(sub_cols, sub_rows) := left_image_sub in
          let downsample_scale :=
            V2f (fdiv (float_of_int sub_cols) (float_of_int left_cols))
                (fdiv (float_of_int sub_rows) (float_of_int left_rows)) in
          let raster_tile_size := 64%Z in
          let disp_spread : Image (PixelMask Vector2i) := ∅ in
          run! lowres_disparity :=
            make_DemDisparity sub_cols sub_rows dem_error dem_georef dem
                              downsample_scale tx_left tx_right
                              left_camera_model right_camera_model pixel_sample in
          run! rasters :=
            foldlM (rasterize lowres_disparity) (∅, disp_spread)
                   (tiles sub_cols sub_rows raster_tile_size) in
          let '(d_sub, disp_spread) := rasters in
          run! disparity_done := call (write_disparity files) in
          run! spread_done := call (write_spread files) in
          inr {| D_sub := d_sub; D_sub_spread := disp_spread |}
      end.

(** ** The link with Part II *)

(** The interfaces of Part II that agree with the present ones wherever
    these return.  The value given where an operation throws is
    immaterial: a call that reaches it does not return. *)
Definition pure_transform (t : Transform) : DemDisp.Transform :=
  {| DemDisp.forward := forward t;
     DemDisp.reverse := fun p => default p (reverse t p) |}.

Definition pure_cartography : DemDisp.Cartography DEM GEOREF :=
  {| DemDisp.camera_pixel_to_dem_xyz := fun ctr vec dem georef opts guess height_guess =>
       default (false, Vector3_zero)
               (camera_pixel_to_dem_xyz ctr vec dem georef opts guess height_guess);
     DemDisp.cartesian_to_geodetic := fun georef xyz =>
       default Vector3_zero (cartesian_to_geodetic georef xyz);
     DemDisp.lonlat_to_pixel := fun georef lonlat =>
       default Vector2_zero (lonlat_to_pixel georef lonlat);
     DemDisp.crop_georef := fun georef box => default georef (crop_georef georef box);
     DemDisp.crop_dem := fun dem box => default dem (crop_dem dem box);
     DemDisp.bounding_box := bounding_box;
     DemDisp.demHeightGuess := fun dem => default 0 (demHeightGuess dem) |}.

Definition pure_view (v : DemDisparity) : DemDisp.DemDisparity DEM GEOREF :=
  {| DemDisp.m_left_cols := m_left_cols v;
     DemDisp.m_left_rows := m_left_rows v;
     DemDisp.m_dem_error := m_dem_error v;
     DemDisp.m_dem_georef := m_dem_georef v;
     DemDisp.m_dem := m_dem v;
     DemDisp.m_downsample_scale := v2_of_v2f (m_downsample_scale v);
     DemDisp.m_tx_left := pure_transform (m_tx_left v);
     DemDisp.m_tx_right := pure_transform (m_tx_right v);
     DemDisp.m_left_camera_model := m_left_camera_model v;
     DemDisp.m_right_camera_model := m_right_camera_model v;
     DemDisp.m_pixel_sample := m_pixel_sample v;
     DemDisp.m_height_guess := m_height_guess v |}.

(** The calls of the view outside of [try] blocks all return. *)
Definition cartography_returns : Prop :=
  (forall ctr vec dem georef opts guess height_guess,
     is_Some (camera_pixel_to_dem_xyz ctr vec dem georef opts guess height_guess)) /\
  (forall georef xyz, is_Some (cartesian_to_geodetic georef xyz)) /\
  (forall georef lonlat, is_Some (lonlat_to_pixel georef lonlat)) /\
  (forall georef box, is_Some (crop_georef georef box)) /\
  (forall dem box, is_Some (crop_dem dem box)) /\
  (forall dem, is_Some (demHeightGuess dem)).

Definition reverse_returns (t : Transform) : Prop :=
  forall p, is_Some (reverse t p).

Definition view_returns (v : DemDisparity) : Prop :=
  cartography_returns /\ reverse_returns (m_tx_left v).

(** A computation that may throw agrees with a value: if it returns, it
    returns that value; it does return when [returns] holds; and an
    exception that ends it comes from a library. *)
Definition agrees {A} (returns : Prop) (m : Exception + A) (a : A) : Prop :=
  (forall r, m = inr r -> r = a) /\
  (returns -> m = inr a) /\
  (forall e, m = inl e -> e = LibraryErr).

End View.

Arguments DemDisparity : clear implicits.
Arguments Files : clear implicits.

(** Services that never throw. *)
Definition returning {DEM GEOREF : Type} (C : DemDisp.Cartography DEM GEOREF)
    : Cartography DEM GEOREF :=
  {| camera_pixel_to_dem_xyz := fun ctr vec dem georef opts guess height_guess =>
       Some (DemDisp.camera_pixel_to_dem_xyz ctr vec dem georef opts guess height_guess);
     cartesian_to_geodetic := fun georef xyz =>
       Some (DemDisp.cartesian_to_geodetic georef xyz);
     lonlat_to_pixel := fun georef lonlat => Some (DemDisp.lonlat_to_pixel georef lonlat);
     crop_georef := fun georef box => Some (DemDisp.crop_georef georef box);
     crop_dem := fun dem box => Some (DemDisp.crop_dem dem box);
     bounding_box := DemDisp.bounding_box;
     demHeightGuess := fun dem => Some (DemDisp.demHeightGuess dem) |}.

End DemDispRun.

(* ===================================================================== *)
(** * Part III: [CsmModel.cc]                                             *)
(* ===================================================================== *)

Module Csm.

(** ** Binary64 arithmetic *)

Abbreviation prec := 53%Z.
Abbreviation emax := 1024%Z.

(** A C++ [double]. *)
Abbreviation double := spec_float.

Definition dadd : double -> double -> double := SFadd prec emax.
Definition dsub : double -> double -> double := SFsub prec emax.
Definition dmul : double -> double -> double := SFmul prec emax.
Definition ddiv : double -> double -> double := SFdiv prec emax.
Definition dsqrt : double -> double := SFsqrt prec emax.

(** The double nearest to [m * 2^e]; exact when [m * 2^e] is
    representable. *)
Definition double_of (m e : Z) : double := binary_normalize prec emax m e false.

(** An integer literal or an [int] converted to [double]. *)
Definition double_of_Z (n : Z) : double := double_of n 0.

(** The literals [0.0], [0.5] and [1.0e-8]. *)
Definition d_zero : double := S754_zero false.
Definition d_half : double := S754_finite false 4503599627370496 (-53).
Definition d_1em8 : double :=
  Eval vm_compute in ddiv (double_of_Z 1) (double_of_Z 100000000).

(** ** Vectors and CSM coordinates *)

Record Vector2 := V2 { v2_0 : double; v2_1 : double }.
Record Vector3 := V3 { v3_0 : double; v3_1 : double; v3_2 : double }.

Definition Vector3_zero : Vector3 := V3 d_zero d_zero d_zero.

(** [csm::ImageCoord], [csm::EcefCoord], [csm::ImageVector]. *)
Record ImageCoord := { line : double; samp : double }.
Record EcefCoord := { x : double; y : double; z : double }.
Record ImageVector := { iv_line : double; iv_samp : double }.

Definition v2_add (a b : Vector2) : Vector2 :=
  V2 (dadd (v2_0 a) (v2_0 b)) (dadd (v2_1 a) (v2_1 b)).
Definition v2_sub (a b : Vector2) : Vector2 :=
  V2 (dsub (v2_0 a) (v2_0 b)) (dsub (v2_1 a) (v2_1 b)).
Definition v3_sub (a b : Vector3) : Vector3 :=
  V3 (dsub (v3_0 a) (v3_0 b)) (dsub (v3_1 a) (v3_1 b)) (dsub (v3_2 a) (v3_2 b)).
Definition v3_div (a : Vector3) (s : double) : Vector3 :=
  V3 (ddiv (v3_0 a) s) (ddiv (v3_1 a) s) (ddiv (v3_2 a) s).

(** [norm_2]: the square root of the sum of the squares. *)
Definition norm_2 (a : Vector3) : double :=
  dsqrt (dadd (dadd (dmul (v3_0 a) (v3_0 a)) (dmul (v3_1 a) (v3_1 a)))
              (dmul (v3_2 a) (v3_2 a))).

(** To convert from CSM pixels we have to subtract only 0.5. *)
Definition ASP_TO_CSM_SHIFT : Vector2 := V2 d_half d_half.

(** ** Helper functions *)

Definition vectorToEcefCoord (v : Vector3) : EcefCoord :=
  {| x := v3_0 v; y := v3_1 v; z := v3_2 v |}.

Definition vectorToImageCoord (v : Vector2) : ImageCoord :=
  {| line := v2_1 v; samp := v2_0 v |}.

(** Convert a pixel from ASP conventions to what CSM expects and vice
    versa. *)
Definition toCsmPixel (pix : Vector2) : ImageCoord :=
  {| line := dadd (v2_1 pix) (v2_1 ASP_TO_CSM_SHIFT);
     samp := dadd (v2_0 pix) (v2_0 ASP_TO_CSM_SHIFT) |}.

Definition fromCsmPixel (csm : ImageCoord) : Vector2 :=
  V2 (dsub (samp csm) (v2_0 ASP_TO_CSM_SHIFT))
     (dsub (line csm) (v2_1 ASP_TO_CSM_SHIFT)).

Definition ecefCoordToVector (c : EcefCoord) : Vector3 := V3 (x c) (y c) (z c).

Definition imageCoordToVector (c : ImageCoord) : Vector2 := V2 (samp c) (line c).

(** ** The sensor model and the wrapper class *)

(** What can be thrown: [vw::ArgumentErr], or an error of the CSM
    plugin. *)
Inductive Exception :=
| ArgumentErr (msg : string)
| CsmError.

(** The operations of [csm::RasterGM] used by the wrapper; [None] is a
    thrown [csm::Error]. *)
Record RasterGM := {
  getImageSize : ImageVector;
  getSensorPosition : ImageCoord -> option EcefCoord;
  (** [imageToGround(imagePt, height, desiredPrecision)]. *)
  imageToGround : ImageCoord -> double -> double -> option EcefCoord;
  (** [groundToImage(groundPt, desiredPrecision)]. *)
  groundToImage : EcefCoord -> double -> option ImageCoord
}.

(** The data members of [class CsmModel]; [m_csm_model] is a shared
    pointer, null until a model is loaded. *)
Record CsmModel := {
  m_csm_model : option RasterGM;
  m_semi_major_axis : double;
  m_semi_minor_axis : double;
  m_sun_position : Vector3;
  m_desired_precision : double
}.

(** [CsmModel::CsmModel()]. *)
Definition CsmModel_default : CsmModel :=
  {| m_csm_model := None;
     m_semi_major_axis := d_zero;
     m_semi_minor_axis := d_zero;
     m_sun_position := Vector3_zero;
     m_desired_precision := d_1em8 |}.

(** A call into the plugin: its error becomes an exception. *)
Definition csm_call {A} (r : option A) : Exception + A :=
  match r with
  | Some a => inr a
  | None => inl CsmError
  end.

(** Sequencing of computations that may throw. *)
Definition bind {A B} (m : Exception + A) (k : A -> Exception + B) : Exception + B :=
  match m with
  | inl e => inl e
  | inr a => k a
  end.

Notation "'try!' x ':=' m 'in' k" := (bind m (fun x => k))
  (at level 10, x name, m at level 100, k at level 200).

(** [throw_if_not_init]: yields the loaded model. *)
Definition throw_if_not_init (c : CsmModel) : Exception + RasterGM :=
  match m_csm_model c with
  | Some model => inr model
  | None => inl (ArgumentErr "CsmModel: Sensor model has not been loaded yet!")
  end.

Definition get_image_size (c : CsmModel) : Exception + Vector2 :=
  try! model := throw_if_not_init c in
  let size := getImageSize model in
  inr (V2 (iv_samp size) (iv_line size)).

Definition target_radii (c : CsmModel) : Vector3 :=
  V3 (m_semi_major_axis c) (m_semi_major_axis c) (m_semi_minor_axis c).

Definition point_to_pixel (c : CsmModel) (point : Vector3) : Exception + Vector2 :=
  try! model := throw_if_not_init c in
  let ecef := vectorToEcefCoord point in
  try! imagePt := csm_call (groundToImage model ecef (m_desired_precision c)) in
  inr (v2_sub (imageCoordToVector imagePt) ASP_TO_CSM_SHIFT).

Definition pixel_to_vector (c : CsmModel) (pix : Vector2) : Exception + Vector3 :=
  try! model := throw_if_not_init c in
  let imagePt := vectorToImageCoord (v2_add pix ASP_TO_CSM_SHIFT) in
  try! ctr := csm_call (getSensorPosition model imagePt) in
  let groundHeight := d_zero in
  try! groundPt := csm_call (imageToGround model imagePt groundHeight (m_desired_precision c)) in
  let dir0 := v3_sub (ecefCoordToVector groundPt) (ecefCoordToVector ctr) in
  let dir0 := v3_div dir0 (norm_2 dir0) in
  inr dir0.

Definition camera_center (c : CsmModel) (pix : Vector2) : Exception + Vector3 :=
  try! model := throw_if_not_init c in
  let imagePt := vectorToImageCoord (v2_add pix ASP_TO_CSM_SHIFT) in
  try! ecef := csm_call (getSensorPosition model imagePt) in
  inr (ecefCoordToVector ecef).

(** ** Pixels on a dyadic grid *)

(** The pixel with coordinates [(kx / 2^g, ky / 2^g)]: the integer pixel
    positions for [g = 1] and even [kx], [ky], the half-pixel positions
    for [g = 1], finer positions for larger [g]. *)
Definition grid_pixel (g kx ky : Z) : Vector2 :=
  V2 (double_of kx (- g)) (double_of ky (- g)).

(** The double nearest to 0.1. *)
Definition d_tenth : double :=
  Eval vm_compute in ddiv (double_of_Z 1) (double_of_Z 10).

(** [p * 2^n] as a positive number, for [n >= 0]. *)
Definition pshl (p : positive) (n : Z) : positive :=
  match n with
  | Zpos d => Pos.iter xO p d
  | _ => p
  end.

(** The binary64 number [(-1)^s * p * 2^e] for a [p] of at most 53 bits,
    with its mantissa brought to 53 bits. *)
Definition normal (s : bool) (p : positive) (e : Z) : double :=
  S754_finite s (pshl p (53 - Zpos (digits2_pos p))) (e + Zpos (digits2_pos p) - 53).

(** A sensor model whose image coordinates are the ground coordinates
    shifted by half a pixel, seen from a fixed position. *)
Definition shift_model : RasterGM := {|
  getImageSize := {| iv_line := double_of_Z 1024; iv_samp := double_of_Z 1024 |};
  getSensorPosition := fun _ =>
    Some {| x := d_zero; y := d_zero; z := double_of_Z 1000 |};
  imageToGround := fun p height _ =>
    Some {| x := dsub (samp p) d_half; y := dsub (line p) d_half; z := height |};
  groundToImage := fun q _ =>
    Some {| line := dadd (y q) d_half; samp := dadd (x q) d_half |}
|}.

Definition shift_camera : CsmModel := {|
  m_csm_model := Some shift_model;
  m_semi_major_axis := double_of_Z 1737400;
  m_semi_minor_axis := double_of_Z 1737400;
  m_sun_position := Vector3_zero;
  m_desired_precision := d_1em8
|}.

(** ** Values and rounding error *)

(** The rational number denoted by a [double] (zero for the infinities
    and NaN, which the statements below exclude). *)
Definition B2Q (a : double) : Q :=
  match a with
  | S754_finite s m e => (inject_Z (cond_Zopp s (Zpos m)) * 2 ^ e)%Q
  | _ => 0%Q
  end.

(** The unit of relative error used in the analysis, [2^-52], and the
    tolerance on the squared norm of a normalised vector, [2^-49]. *)
Definition ulp1 : Q := 1 # 4503599627370496.
Definition unit_tol : Q := 1 # 562949953421312.

(** [a] is a zero, or a normal number (53-bit mantissa) with exponent
    between [lo] and [hi]. *)
Definition in_range (lo hi : Z) (a : double) : bool :=
  match a with
  | S754_zero _ => true
  | S754_finite _ m e => (Zpos (digits2_pos m) =? 53)%Z && (lo <=? e)%Z && (e <=? hi)%Z
  | _ => false
  end.

Definition is_zero (a : double) : bool :=
  match a with
  | S754_zero _ => true
  | _ => false
  end.

(** The square of the Euclidean norm, taken exactly. *)
Definition sq_norm (v : Vector3) : Q :=
  (B2Q (v3_0 v) * B2Q (v3_0 v) + B2Q (v3_1 v) * B2Q (v3_1 v) +
   B2Q (v3_2 v) * B2Q (v3_2 v))%Q.

End Csm.


(* ===================================================================== *)
(** * [DEMDisparity.cc]: more ways to read the loops                      *)
(* ===================================================================== *)

Module DemDispMore.

Import VW DemDisp.
Local Open Scope Q_scope.



Section View.

Context {DEM GEOREF : Type} `{Cartography DEM GEOREF}.



End View.

(** The pair of pixels at a position of the two rasters. *)
Definition pixel_pair (acc : Image (PixelMask Vector2f) * Image (PixelMask Vector2i))
    (c r : Z) : option (PixelMask Vector2f) * option (PixelMask Vector2i) :=
  (fst acc !! (c, r), snd acc !! (c, r)).

End DemDispMore.

(* ===================================================================== *)
(** * [CsmModel.cc]: more about the camera operations                     *)
(* ===================================================================== *)

Module CsmMore.

Import Csm.

(** Two numbers with the same sign bit that are both zeros or both
    finite and non-zero. *)
Definition same_sign (a b : double) : bool :=
  match a, b with
  | S754_zero s, S754_zero s' => Bool.eqb s s'
  | S754_finite s _ _, S754_finite s' _ _ => Bool.eqb s s'
  | _, _ => false
  end.

(** The vector whose components are all NaN. *)
Definition Vector3_nan : Vector3 := V3 S754_nan S754_nan S754_nan.

(** The message of [throw_if_not_init]. *)
Definition not_loaded : Exception :=
  ArgumentErr "CsmModel: Sensor model has not been loaded yet!".

End CsmMore.

(* ===================================================================== *)
(** * [CsmModel.cc]: loading a sensor model                                *)
(* ===================================================================== *)

Module CsmLoad.

Import Csm.
Local Open Scope string_scope.

(** ** Strings *)

(** [isspace] in the C locale. *)
Definition isspace (c : ascii) : bool :=
  Ascii.eqb c " " || Ascii.eqb c "009" || Ascii.eqb c "010" ||
  Ascii.eqb c "011" || Ascii.eqb c "012" || Ascii.eqb c "013".

(** [ifs >> line] on the content of a stream: leading white space is
    skipped, then characters are taken up to the next white space or the
    end of the stream. *)
Fixpoint skip_spaces (s : string) : string :=
  match s with
  | EmptyString => EmptyString
  | String c s' => if isspace c then skip_spaces s' else s
  end.

Fixpoint take_word (s : string) : string :=
  match s with
  | EmptyString => EmptyString
  | String c s' => if isspace c then EmptyString else String c (take_word s')
  end.

Definition first_word (s : string) : string := take_word (skip_spaces s).

(** [s.rfind(name, 0) == 0]: [s] starts with [name]. *)
Definition starts_with (name s : string) : bool := String.prefix name s.

(** [s.find(t) != std::string::npos]. *)
Definition has_substring (t s : string) : bool :=
  match String.index 0 t s with
  | Some _ => true
  | None => false
  end.

(** [boost::to_lower] in the C locale: the letters [A] to [Z] are
    replaced by [a] to [z]. *)
Definition to_lower_char (c : ascii) : ascii :=
  let n := nat_of_ascii c in
  if (65 <=? n)%nat && (n <=? 90)%nat then ascii_of_nat (n + 32) else c.

Fixpoint to_lower (s : string) : string :=
  match s with
  | EmptyString => EmptyString
  | String c s' => String (to_lower_char c) (to_lower s')
  end.

(** The line feed that ends a message. *)
Definition nl : string := String "010" EmptyString.

(** ** The CSM plugin interface *)

(** [csm::Isd(filename)]. *)
Record Isd := { isd_filename : string }.

(** [csm::Model*] as returned by a plugin; what matters to the wrapper
    is the result of [dynamic_cast<csm::RasterGM*>]. *)
Record Model := { dynamic_cast_RasterGM : option RasterGM }.

(** [csm::Plugin], as far as the wrapper uses it.  Every operation is
    a call into the plugin and may throw; [None] stands for a thrown
    exception.  A warning is represented by its message;
    [canModelBeConstructedFromISD] returns its answer and the warnings,
    [constructModelFromISD] the model pointer (possibly null) and the
    warnings. *)
Record Plugin := {
  getPluginName : option string;
  getNumModels : option nat;
  getModelName : nat -> option string;
  getModelFamily : nat -> option string;
  canModelBeConstructedFromISD : Isd -> string -> option (bool * list string);
  constructModelFromISD : Isd -> string -> option (option Model * list string)
}.

(** The enumeration of the USGSCSM model types. *)
Inductive USGSCSM_MODEL_TYPE :=
| USGSCSM_FRAME_MODEL
| USGSCSM_LINESCAN_MODEL
| USGSCSM_PUSHFRAME_MODEL
| USGSCSM_SAR_MODEL.

(** ** The world outside the class *)

(** What the loader obtains from the operating system and from the
    libraries it is linked with, over the type [J] of JSON values.  An
    operation that can throw returns an [option]. *)
Record Environment (J : Type) := {
  (** [getenv], [fs::exists], [fs::path(a) /= b] and the macro
      [BOOST_PLATFORM]. *)
  getenv : string -> option string;
  fs_exists : string -> bool;
  path_append : string -> string -> string;
  BOOST_PLATFORM : string;
  (** The content of a file; [None] when it cannot be opened. *)
  read_file : string -> option string;
  (** [boost::dll::shared_library lib(file)]: the plugins that register
      themselves when the library is loaded.  (The library object lives
      for one iteration of the loop; the plugins are taken to stay
      registered, as the source expects.) *)
  load_shared_library : string -> option (list Plugin);
  (** [nlohmann::json]: [std::ifstream ifs(path); ifs >> json] (the
      value read from the file), [at], [find], [operator[]] and the
      conversions to [double], [std::string], [std::vector<double>]. *)
  json_read_file : string -> option J;
  json_at : J -> string -> option J;
  json_find : J -> string -> option J;
  json_index : J -> string -> option J;
  json_get_double : J -> option double;
  json_get_string : J -> option string;
  json_get_vector : J -> option (list double);
  (** USGSCSM: the names that start a model state, the construction
      [new T; model->replaceModelState(state);
      dynamic_cast<csm::RasterGM*>(model)], [stateAsJson] and
      [getModelState]. *)
  SENSOR_MODEL_NAME : USGSCSM_MODEL_TYPE -> string;
  model_from_state : USGSCSM_MODEL_TYPE -> string -> option (option RasterGM);
  stateAsJson : string -> option J;
  getModelState : RasterGM -> option string
}.

Arguments getenv {J} _ _.
Arguments fs_exists {J} _ _.
Arguments path_append {J} _ _ _.
Arguments BOOST_PLATFORM {J} _.
Arguments read_file {J} _ _.
Arguments load_shared_library {J} _ _.
Arguments json_read_file {J} _ _.
Arguments json_at {J} _ _ _.
Arguments json_find {J} _ _ _.
Arguments json_index {J} _ _ _.
Arguments json_get_double {J} _ _.
Arguments json_get_string {J} _ _.
Arguments json_get_vector {J} _ _.
Arguments SENSOR_MODEL_NAME {J} _ _.
Arguments model_from_state {J} _ _ _.
Arguments stateAsJson {J} _ _.
Arguments getModelState {J} _ _.

(** ** Computations that load *)

(** What can be thrown while loading: an exception of the camera
    operations, or one of another library ([nlohmann::json], [boost],
    the standard library). *)
Inductive Thrown :=
| Threw (e : Exception)
| ThrewOther.

(** The state of the process: the list of registered plugins
    ([csm::Plugin::getList()]) and the lines printed to [vw_out()]. *)
Record Process := {
  plugin_list : list Plugin;
  printed : list string
}.

(** A member function that may modify the object and the process, and
    returns or throws; the object and the process come out as they are
    at that moment. *)
Definition Load (A : Type) : Type :=
  CsmModel -> Process -> (Thrown + A) * CsmModel * Process.

Definition ret {A} (a : A) : Load A := fun c p => (inr a, c, p).
Definition throw {A} (t : Thrown) : Load A := fun c p => (inl t, c, p).
Definition vw_throw {A} (msg : string) : Load A := throw (Threw (ArgumentErr msg)).

Definition and_then {A B} (m : Load A) (k : A -> Load B) : Load B :=
  fun c p =>
    match m c p with
    | (inl t, c', p') => (inl t, c', p')
    | (inr a, c', p') => k a c' p'
    end.

Notation "'do!' x ':=' m 'in' k" := (and_then m (fun x => k))
  (at level 10, x name, m at level 100, k at level 200).

(** A call into a library: a throw there is not an [ArgumentErr]. *)
Definition library_call {A} (r : option A) : Load A :=
  match r with
  | Some a => ret a
  | None => throw ThrewOther
  end.

(** A call into the CSM plugin. *)
Definition plugin_call {A} (r : option A) : Load A :=
  match r with
  | Some a => ret a
  | None => throw (Threw CsmError)
  end.

(** [vw_out() << line << std::endl]. *)
Definition vw_out (line : string) : Load unit :=
  fun c p => (inr tt, c, {| plugin_list := plugin_list p; printed := (printed p ++ [line])%list |}).

Definition print_warnings (warnings : list string) : Load unit :=
  fun c p => (inr tt, c, {| plugin_list := plugin_list p;
                            printed := (printed p ++ map (append "CSM warning: ") warnings)%list |}).

Definition get_plugin_list : Load (list Plugin) := fun c p => (inr (plugin_list p), c, p).
Definition register_plugins (l : list Plugin) : Load unit :=
  fun c p => (inr tt, c, {| plugin_list := (plugin_list p ++ l)%list; printed := printed p |}).

Definition get_object : Load CsmModel := fun c p => (inr c, c, p).

(** Assignments to the data members. *)
Definition set_semi_major_axis (a : double) : Load unit :=
  fun c p => (inr tt, {| m_csm_model := m_csm_model c;
                         m_semi_major_axis := a;
                         m_semi_minor_axis := m_semi_minor_axis c;
                         m_sun_position := m_sun_position c;
                         m_desired_precision := m_desired_precision c |}, p).

Definition set_semi_minor_axis (b : double) : Load unit :=
  fun c p => (inr tt, {| m_csm_model := m_csm_model c;
                         m_semi_major_axis := m_semi_major_axis c;
                         m_semi_minor_axis := b;
                         m_sun_position := m_sun_position c;
                         m_desired_precision := m_desired_precision c |}, p).

Definition set_sun_position (s : Vector3) : Load unit :=
  fun c p => (inr tt, {| m_csm_model := m_csm_model c;
                         m_semi_major_axis := m_semi_major_axis c;
                         m_semi_minor_axis := m_semi_minor_axis c;
                         m_sun_position := s;
                         m_desired_precision := m_desired_precision c |}, p).

(** [m_csm_model.reset(raster_model)]. *)
Definition reset_csm_model (raster_model : RasterGM) : Load unit :=
  fun c p => (inr tt, {| m_csm_model := Some raster_model;
                         m_semi_major_axis := m_semi_major_axis c;
                         m_semi_minor_axis := m_semi_minor_axis c;
                         m_sun_position := m_sun_position c;
                         m_desired_precision := m_desired_precision c |}, p).

Section Loader.

Context {J : Type}.
Variable env : Environment J.

(** ** Finding the plugin *)

Definition get_csm_plugin_folder : Load string :=
  let plugin_path_arr := getenv env "CSM_PLUGIN_PATH" in
  match getenv env "ISISROOT" with
  | None => vw_throw ("The variable ISISROOT was not set." ++ nl)
  | Some isis_root =>
      let plugin_path :=
        match plugin_path_arr with
        | Some path => if negb (String.eqb path EmptyString) then path
                       else path_append env isis_root "lib"
        | None => path_append env isis_root "lib"
        end in
      if negb (fs_exists env plugin_path) then
        vw_throw ("Could not find CSM plugin folder: " ++ plugin_path ++ "." ++ nl ++
                  "Check the value of the environmental variable CSM_PLUGIN_PATH.")
      else ret plugin_path
  end.

(** [find_csm_plugins(plugins)]: the vector is an output argument that
    is cleared first; the result is the returned size together with the
    final content of the vector. *)
Definition find_csm_plugins (plugins : list string) : Load (nat * list string) :=
  let plugins : list string := [] in
  do! folder := get_csm_plugin_folder in
  let platform := to_lower (BOOST_PLATFORM env) in
  do! ext :=
    (if has_substring "linux" platform then ret ".so"
     else if has_substring "mac" platform then ret ".dylib"
     else vw_throw ("Unknown operating system: " ++ BOOST_PLATFORM env ++ nl)) in
  let plugin := path_append env folder ("libusgscsm" ++ ext) in
  if negb (fs_exists env plugin) then
    vw_throw ("Cannot find plugin: " ++ plugin ++
              ". Set CSM_PLUGIN_PATH to the directory where the plugins are stored." ++ nl)
  else
    let plugins := (plugins ++ [plugin])%list in
    ret (length plugins, plugins).

(** [for (...) body]. *)
Fixpoint for_each {A} (l : list A) (body : A -> Load unit) : Load unit :=
  match l with
  | [] => ret tt
  | a :: l' => do! _ := body a in for_each l' body
  end.

(** A [size_t] printed in decimal. *)
Definition show_nat (n : nat) : string := NilEmpty.string_of_uint (Nat.to_uint n).

(** A line is recorded as printed when it is complete; the part of a
    line that has gone to the stream when a plugin throws is not
    recorded. *)
Definition print_available_models : Load unit :=
  do! available_plugins := get_plugin_list in
  for_each available_plugins (fun plugin =>
    do! plugin_name := plugin_call (getPluginName plugin) in
    do! _ := vw_out ("  -->  " ++ plugin_name) in
    do! num_models := plugin_call (getNumModels plugin) in
    do! _ := vw_out ("    - Num models = " ++ show_nat num_models) in
    for_each (seq 0 num_models) (fun i =>
      do! model_name := plugin_call (getModelName plugin i) in
      do! model_family := plugin_call (getModelFamily plugin i) in
      vw_out ("      -> " ++ model_name ++ ", family =  " ++ model_family))).

(** The inner loop of [find_plugin_for_isd] over the models of one
    plugin, from index [i] on; [Some] is the early [return]. *)
Fixpoint try_models (csm_plugin : Plugin) (support_data : Isd) (show_warnings : bool)
    (indices : list nat) : Load (option (string * string)) :=
  match indices with
  | [] => ret None
  | i :: indices' =>
      do! this_model_name := plugin_call (getModelName csm_plugin i) in
      do! answer := plugin_call (canModelBeConstructedFromISD csm_plugin support_data
                                   this_model_name) in
      let '(can, warnings) := answer in
      if can then
        do! model_family := plugin_call (getModelFamily csm_plugin i) in
        ret (Some (this_model_name, model_family))
      else
        do! _ := (if show_warnings then print_warnings warnings else ret tt) in
        try_models csm_plugin support_data show_warnings indices'
  end.

(** The outer loop over the plugins. *)
Fixpoint try_plugins (plugins : list Plugin) (support_data : Isd) (show_warnings : bool)
    : Load (option (Plugin * string * string)) :=
  match plugins with
  | [] => ret None
  | csm_plugin :: plugins' =>
      do! num_models := plugin_call (getNumModels csm_plugin) in
      do! r := try_models csm_plugin support_data show_warnings (seq 0 num_models) in
      match r with
      | Some (model_name, model_family) => ret (Some (csm_plugin, model_name, model_family))
      | None => try_plugins plugins' support_data show_warnings
      end
  end.

(** [find_plugin_for_isd]: the plugin found (or null) and the values
    left in [model_name] and [model_family]. *)
Definition find_plugin_for_isd (support_data : Isd) (show_warnings : bool)
    : Load (option Plugin * string * string) :=
  do! plugins := get_plugin_list in
  do! r := try_plugins plugins support_data show_warnings in
  match r with
  | Some (csm_plugin, model_name, model_family) =>
      ret (Some csm_plugin, model_name, model_family)
  | None => ret (None, EmptyString, EmptyString)
  end.

(** The mutex only serialises threads; one thread is modelled. *)
Definition initialize_plugins : Load unit :=
  do! plugins := get_plugin_list in
  if negb (match plugins with [] => true | _ => false end) then ret tt
  else
    do! r := find_csm_plugins [] in
    let '(num_plugin_files, plugin_files) := r in
    do! _ := for_each (seq 0 num_plugin_files) (fun i =>
      do! _ := vw_out ("Loading CSM plugin: " ++ nth i plugin_files EmptyString) in
      do! registered := library_call (load_shared_library env (nth i plugin_files EmptyString)) in
      register_plugins registered) in
    print_available_models.

(** ** Reading the ellipsoid *)

(** [json.at(k1).at(k2)]. *)
Definition json_at2 (j : J) (k1 k2 : string) : option J :=
  match json_at env j k1 with
  | Some r => json_at env r k2
  | None => None
  end.

(** The formatted numbers at the end of the last message are left
    out. *)
Definition read_ellipsoid_from_isd (isd_path : string) : Load unit :=
  do! json_isd :=
    (match json_read_file env isd_path with
     | Some j => ret j
     | None => vw_throw ("Cannot open file: " ++ isd_path ++ nl)
     end) in
  do! _ := set_semi_major_axis d_zero in
  do! _ := (match json_at2 json_isd "radii" "semimajor" with
            | Some e => match json_get_double env e with
                        | Some a => set_semi_major_axis a
                        | None => ret tt
                        end
            | None => ret tt
            end) in
  do! _ := set_semi_minor_axis d_zero in
  do! _ := (match json_at2 json_isd "radii" "semiminor" with
            | Some e => match json_get_double env e with
                        | Some b => set_semi_minor_axis b
                        | None => ret tt
                        end
            | None => ret tt
            end) in
  let unit : string :=
    match json_at2 json_isd "radii" "unit" with
    | Some e => match json_get_string env e with
                | Some u => u
                | None => EmptyString
                end
    | None => EmptyString
    end in
  let unit := to_lower unit in
  do! _ := (if String.eqb unit "km" then
              do! c := get_object in
              do! _ := set_semi_major_axis (dmul (m_semi_major_axis c) (double_of_Z 1000)) in
              set_semi_minor_axis (dmul (m_semi_minor_axis c) (double_of_Z 1000))
            else if negb (String.eqb unit "m") then
              vw_throw ("Unknown unit for the ellipsoid radii in " ++ isd_path ++
                        ". The read value is: " ++ unit)
            else ret tt) in
  do! c := get_object in
  if SFleb (m_semi_major_axis c) d_zero || SFleb (m_semi_minor_axis c) d_zero then
    vw_throw ("Could not read positive semi-major and semi-minor axies from:  " ++
              isd_path ++ ". The read values are: ")
  else ret tt.

(** ** Loading *)

Definition load_model_from_isd (isd_path : string) : Load unit :=
  do! _ := initialize_plugins in
  let support_data := {| isd_filename := isd_path |} in
  do! _ := read_ellipsoid_from_isd isd_path in
  do! r := find_plugin_for_isd support_data false in
  let '(csm_plugin, model_name, model_family) := r in
  match csm_plugin with
  | None =>
      do! _ := find_plugin_for_isd support_data true in
      vw_throw ("Unable to construct a camera model for the ISD file " ++ isd_path ++
                " using any of the loaded CSM plugins!")
  | Some csm_plugin =>
      do! plugin_name := plugin_call (getPluginName csm_plugin) in
      do! _ := vw_out ("Using plugin: " ++ plugin_name ++
                       " with model name " ++ model_name) in
      do! r := plugin_call (constructModelFromISD csm_plugin support_data model_name) in
      let '(csm_model, warnings) := r in
      do! _ := print_warnings warnings in
      match csm_model with
      | None => vw_throw ("Failed to load CSM sensor model from file: " ++ isd_path)
      | Some csm_model =>
          match dynamic_cast_RasterGM csm_model with
          | None => vw_throw "Failed to cast CSM sensor model to raster type!"
          | Some raster_model => reset_csm_model raster_model
          end
      end
  end.

(** [j[key]] converted to [double]. *)
Definition json_index_double (j : J) (key : string) : option double :=
  match json_index env j key with
  | Some e => json_get_double env e
  | None => None
  end.

Definition setModelFromStateString (model_state : string) : Load unit :=
  do! raster_model :=
    (if starts_with (SENSOR_MODEL_NAME env USGSCSM_FRAME_MODEL) model_state then
       plugin_call (model_from_state env USGSCSM_FRAME_MODEL model_state)
     else if starts_with (SENSOR_MODEL_NAME env USGSCSM_LINESCAN_MODEL) model_state then
       plugin_call (model_from_state env USGSCSM_LINESCAN_MODEL model_state)
     else if starts_with (SENSOR_MODEL_NAME env USGSCSM_PUSHFRAME_MODEL) model_state then
       plugin_call (model_from_state env USGSCSM_PUSHFRAME_MODEL model_state)
     else if starts_with (SENSOR_MODEL_NAME env USGSCSM_SAR_MODEL) model_state then
       plugin_call (model_from_state env USGSCSM_SAR_MODEL model_state)
     else vw_throw ("Could not create CSM model from state string." ++ nl)) in
  do! j := library_call (stateAsJson env model_state) in
  do! a := library_call (json_index_double j "m_majorAxis") in
  do! _ := set_semi_major_axis a in
  do! b := library_call (json_index_double j "m_minorAxis") in
  do! _ := set_semi_minor_axis b in
  do! c := get_object in
  if SFleb (m_semi_major_axis c) d_zero || SFleb (m_semi_minor_axis c) d_zero then
    vw_throw "Could not read positive semi-major and semi-minor axies from state string."
  else
    match raster_model with
    | None => vw_throw "Failed to cast linescan model to raster type."
    | Some raster_model => reset_csm_model raster_model
    end.

(** The state is read as one string; a file that cannot be opened makes
    [reserve] throw. *)
Definition loadModelFromStateFile (state_file : string) : Load unit :=
  do! model_state := library_call (read_file env state_file) in
  setModelFromStateString model_state.

(** [std::ifstream ifs(isd_path); ifs >> line]: nothing is read from a
    file that cannot be opened. *)
Definition first_line_word (isd_path : string) : string :=
  match read_file env isd_path with
  | Some content => first_word content
  | None => EmptyString
  end.

(** A model state file starts with one of four names. *)
Definition is_model_state_word (line : string) : bool :=
  String.eqb line (SENSOR_MODEL_NAME env USGSCSM_FRAME_MODEL) ||
  String.eqb line (SENSOR_MODEL_NAME env USGSCSM_LINESCAN_MODEL) ||
  String.eqb line (SENSOR_MODEL_NAME env USGSCSM_PUSHFRAME_MODEL) ||
  String.eqb line (SENSOR_MODEL_NAME env USGSCSM_SAR_MODEL).

(** [load_model]: an ISD or a model state, told apart by the first word
    of the file; then the Sun position is read from the model state.
    Dereferencing a null [m_csm_model] has no defined behaviour; it is
    given an outcome here and shown not to occur. *)
Definition load_model (isd_path : string) : Load unit :=
  let line := first_line_word isd_path in
  let is_model_state := is_model_state_word line in
  do! _ := (if negb is_model_state then load_model_from_isd isd_path
            else loadModelFromStateFile isd_path) in
  do! c := get_object in
  match m_csm_model c with
  | None => throw ThrewOther
  | Some model =>
      do! modelState := plugin_call (getModelState env model) in
      do! j := library_call (stateAsJson env modelState) in
      match json_find env j "m_sunPosition" with
      | None => ret tt
      | Some e =>
          do! sun_pos := library_call (json_get_vector env e) in
          if (length sun_pos <? 3)%nat then
            vw_throw ("The Sun position must be a vector of size >= 3." ++ nl)
          else
            set_sun_position (V3 (nth 0 sun_pos d_zero) (nth 1 sun_pos d_zero)
                                 (nth 2 sun_pos d_zero))
      end
  end.

(** ** Reading the loader *)

(** The model type whose name starts a state string, in the order in
    which [setModelFromStateString] tries them. *)
Definition state_kind (model_state : string) : option USGSCSM_MODEL_TYPE :=
  if starts_with (SENSOR_MODEL_NAME env USGSCSM_FRAME_MODEL) model_state
  then Some USGSCSM_FRAME_MODEL
  else if starts_with (SENSOR_MODEL_NAME env USGSCSM_LINESCAN_MODEL) model_state
  then Some USGSCSM_LINESCAN_MODEL
  else if starts_with (SENSOR_MODEL_NAME env USGSCSM_PUSHFRAME_MODEL) model_state
  then Some USGSCSM_PUSHFRAME_MODEL
  else if starts_with (SENSOR_MODEL_NAME env USGSCSM_SAR_MODEL) model_state
  then Some USGSCSM_SAR_MODEL
  else None.

(** The first step of [load_model]. *)
Definition load_either (isd_path : string) : Load unit :=
  if negb (is_model_state_word (first_line_word isd_path))
  then load_model_from_isd isd_path
  else loadModelFromStateFile isd_path.

(** The radius and the unit that [read_ellipsoid_from_isd] obtains from
    a parsed ISD: [0.0] and the empty string stand in for what cannot
    be read. *)
Definition isd_radius (json_isd : J) (key : string) : double :=
  match json_at2 json_isd "radii" key with
  | Some e => match json_get_double env e with
              | Some a => a
              | None => d_zero
              end
  | None => d_zero
  end.

Definition isd_unit (json_isd : J) : string :=
  to_lower (match json_at2 json_isd "radii" "unit" with
            | Some e => match json_get_string env e with
                        | Some u => u
                        | None => EmptyString
                        end
            | None => EmptyString
            end).

(** The answer of a plugin about its model number [i]: the name of the
    model and whether it can be constructed from the ISD, when both
    calls return. *)
Definition answer_of (csm_plugin : Plugin) (support_data : Isd) (i : nat)
    : option (string * bool) :=
  match getModelName csm_plugin i with
  | Some this_model_name =>
      match canModelBeConstructedFromISD csm_plugin support_data this_model_name with
      | Some (can, _) => Some (this_model_name, can)
      | None => None
      end
  | None => None
  end.

(** A candidate of the search: plugin number [k] of the list, model
    number [i] of that plugin.  It is constructible when the plugin
    says that it has that many models and that this one can be
    constructed, and rejected when the plugin says that it cannot. *)
Definition constructible (plugins : list Plugin) (support_data : Isd) (k i : nat) : Prop :=
  exists csm_plugin num_models this_model_name,
    nth_error plugins k = Some csm_plugin /\
    getNumModels csm_plugin = Some num_models /\ (i < num_models)%nat /\
    answer_of csm_plugin support_data i = Some (this_model_name, true).

Definition rejected (csm_plugin : Plugin) (support_data : Isd) (i : nat) : Prop :=
  exists this_model_name,
    answer_of csm_plugin support_data i = Some (this_model_name, false).

(** The process after the warnings of a rejected model have been
    printed, or not. *)
Definition after_warnings (show_warnings : bool) (warnings : list string) (p : Process)
    : Process :=
  if show_warnings
  then {| plugin_list := plugin_list p;
          printed := (printed p ++ map (append "CSM warning: ") warnings)%list |}
  else p.

(** All models of a plugin are rejected. *)
Definition all_rejected (csm_plugin : Plugin) (support_data : Isd) : Prop :=
  exists num_models,
    getNumModels csm_plugin = Some num_models /\
    forall i, (i < num_models)%nat -> rejected csm_plugin support_data i.

(** Every call that the search can make into a plugin returns. *)
Definition plugin_answers (csm_plugin : Plugin) (support_data : Isd) : Prop :=
  exists num_models,
    getNumModels csm_plugin = Some num_models /\
    forall i, (i < num_models)%nat ->
      is_Some (answer_of csm_plugin support_data i) /\
      is_Some (getModelFamily csm_plugin i).

End Loader.

(** The parts of an outcome. *)
Definition result_of {A} (o : (Thrown + A) * CsmModel * Process) : Thrown + A := fst (fst o).
Definition object_of {A} (o : (Thrown + A) * CsmModel * Process) : CsmModel := snd (fst o).
Definition process_of {A} (o : (Thrown + A) * CsmModel * Process) : Process := snd o.

(** The object with other axes. *)
Definition with_axes (c : CsmModel) (a b : double) : CsmModel :=
  {| m_csm_model := m_csm_model c;
     m_semi_major_axis := a;
     m_semi_minor_axis := b;
     m_sun_position := m_sun_position c;
     m_desired_precision := m_desired_precision c |}.

(** Both axes pass the sanity check [!(a <= 0.0 || b <= 0.0)]. *)
Definition axes_ok (c : CsmModel) : Prop :=
  SFleb (m_semi_major_axis c) d_zero = false /\
  SFleb (m_semi_minor_axis c) d_zero = false.

(** A relation between the object before and after, or between the
    process before and after, that holds however the computation
    ends. *)
Definition object_rel {A} (R : CsmModel -> CsmModel -> Prop) (m : Load A) : Prop :=
  forall c p, R c (object_of (m c p)).

Definition process_rel {A} (R : Process -> Process -> Prop) (m : Load A) : Prop :=
  forall c p, R p (process_of (m c p)).

(** The members other than the two axes are the same. *)
Definition same_members (c c' : CsmModel) : Prop :=
  m_csm_model c' = m_csm_model c /\ m_sun_position c' = m_sun_position c /\
  m_desired_precision c' = m_desired_precision c.

(** The Sun position and the precision are the same. *)
Definition same_settings (c c' : CsmModel) : Prop :=
  m_sun_position c' = m_sun_position c /\ m_desired_precision c' = m_desired_precision c.

(** The plugin list is kept and only warnings are added to the output. *)
Definition warnings_added (p p' : Process) : Prop :=
  plugin_list p' = plugin_list p /\
  exists extra, printed p' = (printed p ++ extra)%list /\
                Forall (fun line => starts_with "CSM warning: " line = true) extra.

(** A loading step: the Sun position and the precision are kept; the
    model pointer is kept when the step throws, and set, with axes that
    pass the check, when it returns. *)
Definition all_or_nothing (m : Load unit) : Prop :=
  forall c p,
    same_settings c (object_of (m c p)) /\
    match result_of (m c p) with
    | inl _ => m_csm_model (object_of (m c p)) = m_csm_model c
    | inr _ => (exists raster_model, m_csm_model (object_of (m c p)) = Some raster_model) /\
               axes_ok (object_of (m c p))
    end.

(** No white space in a string. *)
Fixpoint no_space (s : string) : bool :=
  match s with
  | EmptyString => true
  | String c s' => negb (isspace c) && no_space s'
  end.

End CsmLoad.

(* ===================================================================== *)
(** * Part IV: small scenes on which the code is run                      *)
(* ===================================================================== *)

Module Scenes.

Import VW DemDisp.
Local Open Scope Q_scope.

(** A flat terrain at height 1 over a rectangle of DEM pixels.  The DEM
    is represented by its extent, DEM pixel [(i, j)] lies at ground
    position [(i, j)], and a ray meets the terrain straight below the
    camera centre, provided that this position is inside the extent. *)
#[export] Instance flat_terrain : Cartography BBox2i unit := {|
  camera_pixel_to_dem_xyz := fun ctr _ dem _ _ _ _ =>
    (contains dem (v2_round (V2 (v3x ctr) (v3y ctr))), V3 (v3x ctr) (v3y ctr) 1);
  cartesian_to_geodetic := fun _ xyz => xyz;
  lonlat_to_pixel := fun _ lonlat => lonlat;
  crop_georef := fun georef _ => georef;
  crop_dem := fun dem box => crop_box dem box;
  bounding_box := fun dem => dem;
  demHeightGuess := fun _ => 0
|}.

(** The same terrain behind an intersector that refuses to run unless it
    is given fifty iterations and a relative tolerance of 1e-14. *)
Definition strict_intersector (ctr vec : Vector3) (dem : BBox2i) (georef : unit)
    (opts : IntersectOpts) (guess : Vector3) (height_guess : Q) : bool * Vector3 :=
  if (num_max_iter opts =? 50)%Z && Qeq_bool (max_rel_tol opts) (1 # 100000000000000)
  then @camera_pixel_to_dem_xyz _ _ flat_terrain ctr vec dem georef opts guess height_guess
  else (false, Vector3_zero).

(** The identity transform. *)
Definition tx_id : Transform := {| forward := fun p => Some p; reverse := fun p => p |}.

(** A camera looking straight down from height 10. *)
Definition nadir_camera : CameraModel := {|
  camera_center := fun p => Some (V3 (v2x p) (v2y p) 10);
  pixel_to_vector := fun _ => Some (V3 0 0 (-1));
  point_to_pixel := fun q => Some (V2 (v3x q) (v3y q))
|}.

(** A second camera whose column depends on the height of the ground
    point (parallax [b] per unit of height above 1, offset [c]) and which
    cannot project points whose height differs from 1 by more than [w]. *)
Definition parallax_camera (b c w : Q) : CameraModel := {|
  camera_center := fun p => Some (V3 (v2x p) (v2y p) 10);
  pixel_to_vector := fun _ => Some (V3 0 0 (-1));
  point_to_pixel := fun q =>
    if Qle_bool (Qabs (v3z q - 1)) w
    then Some (V2 (v3x q + b * (v3z q - 1) + c) (v3y q))
    else None
|}.

(** A wide-angle camera: pixel [(c, r)] looks at the ground position
    [(400 c (4 - c), 400 r (4 - r))]. *)
Definition wide_camera : CameraModel := {|
  camera_center := fun p =>
    Some (V3 (400 * v2x p * (4 - v2x p)) (400 * v2y p * (4 - v2y p)) 10);
  pixel_to_vector := fun _ => Some (V3 0 0 (-1));
  point_to_pixel := fun q => Some (V2 (v3x q) (v3y q))
|}.

(** A camera that throws on every call. *)
Definition blind_camera : CameraModel := {|
  camera_center := fun _ => None;
  pixel_to_vector := fun _ => None;
  point_to_pixel := fun _ => None
|}.

(** The DEM: 2000 x 2000 pixels. *)
Definition dem_2000 : BBox2i := BBox2i_xywh 0 0 2000 2000.

(** An 8 x 8 view over the flat terrain, sampled every second pixel as
    the driver does. *)
Definition stereo_view (left right : CameraModel) (dem_error : Q)
    : DemDisparity BBox2i unit :=
  make_DemDisparity 8 8 dem_error tt dem_2000 (V2 1 1) tx_id tx_id left right 2.

(** The nadir camera paired with a parallax camera ([b = 2], [c = 7],
    [w = 3/2]), for a given DEM error. *)
Definition parallax_view (dem_error : Q) : DemDisparity BBox2i unit :=
  stereo_view nadir_camera (parallax_camera 2 7 (3 # 2)) dem_error.


(** The wide-angle camera on the left. *)
Definition wide_view : DemDisparity BBox2i unit :=
  stereo_view wide_camera (parallax_camera 2 7 (3 # 2)) 1.

(** Tiles. *)
Definition tile_4x4 : BBox2i := BBox2i_xywh 0 0 4 4.
Definition tile_5x5 : BBox2i := BBox2i_xywh 0 0 5 5.

(** A writer that asks for the whole image as one block. *)
Definition one_tile (cols rows _ : Z) : list BBox2i := [BBox2i_xywh 0 0 cols rows].

End Scenes.

(** Scenes for the driver and for the calls that throw. *)
Module RunScenes.

Import VW DemDisp DemDispRun Scenes.
Local Open Scope Q_scope.

(** The flat terrain of [Scenes], behind services that never throw. *)
#[export] Instance flat_terrain_run : DemDispRun.Cartography BBox2i unit :=
  returning flat_terrain.

(** The identity transform. *)
Definition tx_id : DemDispRun.Transform :=
  {| forward := fun p => Some p; reverse := fun p => Some p |}.

(** A transform that cannot be inverted in the column 4 of the
    full-resolution image. *)
Definition tx_not_invertible : DemDispRun.Transform :=
  {| forward := fun p => Some p;
     reverse := fun p => if Qeq_bool (v2x p) 4 then None else Some p |}.


(** Files of a run: an 8 x 8 left image with a 4 x 4 low-resolution
    version, and a DEM file that has a georeference exactly when
    [georef] says so. *)
Definition run_files (georef : bool) : Files BBox2i unit := {|
  left_image := Some (8%Z, 8%Z);
  left_image_sub := Some (4%Z, 4%Z);
  read_georeference := fun _ => Some (if georef then Some tt else None);
  read_masked_dem := fun _ => Some dem_2000;
  write_disparity := Some tt;
  write_spread := Some tt
|}.

(** The same files when [-L.tif] cannot be opened. *)
Definition no_left_image : Files BBox2i unit := {|
  left_image := None;
  left_image_sub := Some (4%Z, 4%Z);
  read_georeference := fun _ => Some (Some tt);
  read_masked_dem := fun _ => Some dem_2000;
  write_disparity := Some tt;
  write_spread := Some tt
|}.

Definition run_settings (dem_file : string) (dem_error : Q) : StereoSettings :=
  {| disparity_estimation_dem := dem_file;
     disparity_estimation_dem_error := dem_error |}.

End RunScenes.


(* ===================================================================== *)
(** * Scenes for loading a sensor model                                   *)
(* ===================================================================== *)

Module LoadScenes.

Import Csm CsmLoad.
Local Open Scope string_scope.

(** A sensor model for which the ground point under every pixel is the
    sensor position itself. *)
Definition collapsed_model : RasterGM := {|
  getImageSize := {| iv_line := double_of_Z 16; iv_samp := double_of_Z 16 |};
  getSensorPosition := fun _ =>
    Some {| x := double_of_Z 7; y := double_of_Z 8; z := double_of_Z 9 |};
  imageToGround := fun _ _ _ =>
    Some {| x := double_of_Z 7; y := double_of_Z 8; z := double_of_Z 9 |};
  groundToImage := fun _ _ => Some {| line := d_zero; samp := d_zero |}
|}.

Definition collapsed_camera : CsmModel := {|
  m_csm_model := Some collapsed_model;
  m_semi_major_axis := double_of_Z 1737400;
  m_semi_minor_axis := double_of_Z 1737400;
  m_sun_position := Vector3_zero;
  m_desired_precision := d_1em8
|}.

(** JSON values, as far as the scenes need them. *)
Inductive Json :=
| JNumber (d : double)
| JString (s : string)
| JVector (l : list double)
| JObject (members : list Member)
with Member :=
| Pair (key : string) (value : Json).

Fixpoint member (members : list Member) (key : string) : option Json :=
  match members with
  | [] => None
  | Pair k v :: members' => if String.eqb k key then Some v else member members' key
  end.

Definition json_member (j : Json) (key : string) : option Json :=
  match j with
  | JObject members => member members key
  | _ => None
  end.

(** The names with which the USGSCSM model states start. *)
Definition usgscsm_name (kind : USGSCSM_MODEL_TYPE) : string :=
  match kind with
  | USGSCSM_FRAME_MODEL => "USGS_ASTRO_FRAME_SENSOR_MODEL"
  | USGSCSM_LINESCAN_MODEL => "USGS_ASTRO_LINE_SCANNER_SENSOR_MODEL"
  | USGSCSM_PUSHFRAME_MODEL => "USGS_ASTRO_PUSH_FRAME_SENSOR_MODEL"
  | USGSCSM_SAR_MODEL => "USGS_ASTRO_SAR_SENSOR_MODEL"
  end.

(** A plugin with two models, of which only the second can be built
    from an ISD. *)
Definition usgs_plugin : Plugin := {|
  getPluginName := Some "UsgsAstroPluginCSM";
  getNumModels := Some 2%nat;
  getModelName := fun i =>
    match i with
    | O => Some (usgscsm_name USGSCSM_FRAME_MODEL)
    | _ => Some (usgscsm_name USGSCSM_LINESCAN_MODEL)
    end;
  getModelFamily := fun _ => Some "Raster";
  canModelBeConstructedFromISD := fun _ name =>
    if String.eqb name (usgscsm_name USGSCSM_LINESCAN_MODEL) then Some (true, [])
    else Some (false, ["not a frame ISD"]);
  constructModelFromISD := fun _ _ =>
    Some (Some {| dynamic_cast_RasterGM := Some collapsed_model |}, [])
|}.

(** A plugin that throws when it is asked about an ISD. *)
Definition broken_plugin : Plugin := {|
  getPluginName := Some "Broken";
  getNumModels := Some 1%nat;
  getModelName := fun _ => Some "BROKEN_MODEL";
  getModelFamily := fun _ => Some "Raster";
  canModelBeConstructedFromISD := fun _ _ => None;
  constructModelFromISD := fun _ _ => None
|}.

(** The state of a line scanner of the Moon, as JSON. *)
Definition moon_state : Json :=
  JObject [Pair "m_majorAxis" (JNumber (double_of_Z 1737400));
           Pair "m_minorAxis" (JNumber (double_of_Z 1737400));
           Pair "m_sunPosition" (JVector [double_of_Z 1; double_of_Z 2; double_of_Z 3;
                                          double_of_Z 4])].

(** A Linux installation with [ISISROOT] set, one plugin library, an ISD
    [cam.json] with radii in kilometres, a model state file, and the same
    model state behind a blank line. *)
Definition moon_env : Environment Json := {|
  getenv := fun name => if String.eqb name "ISISROOT" then Some "/isis" else None;
  fs_exists := fun path =>
    String.eqb path "/isis/lib" || String.eqb path "/isis/lib/libusgscsm.so";
  path_append := fun a b => a ++ "/" ++ b;
  BOOST_PLATFORM := "linux";
  read_file := fun path =>
    if String.eqb path "cam.json" then Some "{ }"
    else if String.eqb path "state.json" then
      Some (usgscsm_name USGSCSM_LINESCAN_MODEL ++ nl ++ "{ }")
    else if String.eqb path "blank.json" then
      Some (nl ++ usgscsm_name USGSCSM_LINESCAN_MODEL ++ nl ++ "{ }")
    else None;
  load_shared_library := fun _ => Some [usgs_plugin];
  json_read_file := fun path =>
    if String.eqb path "cam.json" then
      Some (JObject [Pair "radii" (JObject [Pair "semimajor" (JNumber (double_of_Z 1737));
                                            Pair "semiminor" (JNumber (double_of_Z 1737));
                                            Pair "unit" (JString "Km")])])
    else None;
  json_at := json_member;
  json_find := json_member;
  json_index := json_member;
  json_get_double := fun j => match j with JNumber d => Some d | _ => None end;
  json_get_string := fun j => match j with JString s => Some s | _ => None end;
  json_get_vector := fun j => match j with JVector l => Some l | _ => None end;
  SENSOR_MODEL_NAME := usgscsm_name;
  model_from_state := fun _ _ => Some (Some collapsed_model);
  stateAsJson := fun _ => Some moon_state;
  getModelState := fun _ => Some (usgscsm_name USGSCSM_LINESCAN_MODEL ++ nl ++ "{ }")
|}.

(** A process in which nothing has been registered or printed. *)
Definition fresh_process : Process := {| plugin_list := []; printed := [] |}.

End LoadScenes.

(* ===================================================================== *)
(** * Part V: facts about the value types                                 *)
(* ===================================================================== *)

Module VWFacts.

Import VW.






Section Rounding.
Local Open Scope Q_scope.

(** ** Powers of two *)

Lemma two_pow_pos e : 0 < 2 ^ e.
Proof. apply Qpower_0_lt. reflexivity. Qed.

Lemma two_pow_plus a b : 2 ^ (a + b) == 2 ^ a * 2 ^ b.
Proof. apply Qpower_plus. discriminate. Qed.

Lemma two_pow_Z n : (0 <= n)%Z -> 2 ^ n == inject_Z (2 ^ n).
Proof. intros Hn. rewrite Zpower_Qpower by assumption. reflexivity. Qed.

Lemma two_pow_ge_1 n : (0 <= n)%Z -> 1 <= 2 ^ n.
Proof.
  intros Hn. rewrite two_pow_Z by assumption.
  change 1 with (inject_Z 1). rewrite <- Zle_Qle.
  assert (0 < 2 ^ n)%Z by (apply Z.pow_pos_nonneg; lia). lia.
Qed.


Lemma two_pow_lt a b : (a < b)%Z -> 2 ^ a < 2 ^ b.
Proof.
  intros Hab. replace b with (a + 1 + (b - a - 1))%Z by lia.
  rewrite !two_pow_plus.
  pose proof (two_pow_pos a) as Ha.
  assert (H1 : 1 <= 2 ^ (b - a - 1)) by (apply two_pow_ge_1; lia).
  change (2 ^ 1) with 2.
  assert (H2 : 2 ^ a * 2 <= 2 ^ a * 2 * 2 ^ (b - a - 1)).
  { rewrite <- (Qmult_1_r (2 ^ a * 2)) at 1. apply Qmult_le_l; [lra|assumption]. }
  lra.
Qed.

(** ** Rounding to an integer *)







(** ** The binade *)




(** ** Rounding to binary32 *)















(** ** The error of the rounding *)










(** ** Boxes in single precision *)



(** ** Differences *)








End Rounding.

(** Boxes. *)
Lemma contains_spec b p :
  contains b p = true <->
  (bmin_x b <= v2ix p < bmax_x b)%Z /\ (bmin_y b <= v2iy p < bmax_y b)%Z.
Proof. unfold contains. rewrite !andb_true_iff, !Z.leb_le, !Z.ltb_lt. lia. Qed.

Lemma grow_contains_point b p : contains (grow b p) p = true.
Proof.
  apply contains_spec. unfold grow; simpl.
  repeat match goal with |- context [if ?c then _ else _] => 
    let E := fresh in destruct c eqn:E;
    [first [apply Z.ltb_lt in E | apply Z.leb_le in E]
    |first [apply Z.ltb_ge in E | apply Z.leb_gt in E]] end; lia.
Qed.

Lemma grow_contains_old b p q : contains b q = true -> contains (grow b p) q = true.
Proof.
  rewrite !contains_spec. unfold grow; simpl. intros Hq.
  repeat match goal with |- context [if ?c then _ else _] => 
    let E := fresh in destruct c eqn:E;
    [first [apply Z.ltb_lt in E | apply Z.leb_le in E]
    |first [apply Z.ltb_ge in E | apply Z.leb_gt in E]] end; lia.
Qed.

End VWFacts.

(* ===================================================================== *)
(** * Part VI: the loops of [prerasterize]                                *)
(* ===================================================================== *)

Module DemDispFacts.

Import VW DemDisp VWFacts.

Section Loops.
Context {DEM GEOREF : Type} `{Cartography DEM GEOREF}.
Implicit Types (v : DemDisparity DEM GEOREF) (st : LoopState) (bbox : BBox2i).

Lemma cv_get_set_eq blk col row p : cv_get (cv_set blk col row p) col row = Some p.
Proof. unfold cv_get, cv_set; simpl. apply lookup_insert_eq. Qed.

Lemma cv_get_set_ne blk col row p c r :
  (c, r) <> (col, row) -> cv_get (cv_set blk col row p) c r = cv_get blk c r.
Proof.
  intros Hne. unfold cv_get, cv_set; simpl. apply lookup_insert_ne.
  intros Heq. apply Hne. inversion Heq. f_equal; lia.
Qed.

Lemma col_step_store v g d row st col :
  col_step v g d row st col =
  store_range col row (col_outcome v g d row col (st_prev_xyz st)) st.
Proof.
  unfold col_step, col_outcome, store_range, pixel_body, pixel_intersection, pixel_search_range.
  destruct (negb _); [destruct st; reflexivity|].
  destruct (lowResPixToDemXyz _ _ _ _ _ _ _ _ _) as [[[vec xyz]|] prev]; simpl; [|reflexivity].
  destruct (bbox2f_eqb _ _); reflexivity.
Qed.

Lemma peek_store_ne col row o st c r :
  (c, r) <> (col, row) -> peek (store_range col row o st) c r = peek st c r.
Proof.
  intros Hne. unfold peek, store_range. destruct (fst o); simpl; [|reflexivity].
  rewrite cv_get_set_ne by assumption. rewrite lookup_insert_ne; [reflexivity|congruence].
Qed.

Lemma peek_store_eq col row o st :
  peek (store_range col row o st) col row =
  match fst o with Some sr => written (Some sr) | None => peek st col row end.
Proof.
  unfold peek, store_range, written. destruct (fst o); simpl; [|reflexivity].
  rewrite cv_get_set_eq, lookup_insert_eq. reflexivity.
Qed.

Lemma prev_store col row o st : st_prev_xyz (store_range col row o st) = snd o.
Proof. unfold store_range. destruct (fst o); reflexivity. Qed.


Lemma col_loop_prev v g d row cs : forall st,
  st_prev_xyz (foldl (col_step v g d row) st cs) = carry v g d row (st_prev_xyz st) cs.
Proof.
  induction cs as [|c cs IH]; intros st; simpl; [reflexivity|].
  rewrite IH, col_step_store, prev_store. reflexivity.
Qed.

Lemma col_loop_other v g d row cs : forall st c r,
  (r <> row \/ c ∉ cs) ->
  peek (foldl (col_step v g d row) st cs) c r = peek st c r.
Proof.
  induction cs as [|c0 cs IH]; intros st c r Hout; simpl; [reflexivity|].
  rewrite IH.
  - rewrite col_step_store. apply peek_store_ne.
    intros Heq; inversion Heq; subst. destruct Hout as [Hr|Hc]; [congruence|].
    apply Hc. left.
  - destruct Hout as [Hr|Hc]; [left; assumption|right].
    intros Hin. apply Hc. right. assumption.
Qed.

Lemma col_loop_at v g d row pre c post st :
  c ∉ post ->
  peek (foldl (col_step v g d row) st (pre ++ c :: post)) c row =
  match fst (col_outcome v g d row c (carry v g d row (st_prev_xyz st) pre)) with
  | Some sr => written (Some sr)
  | None => peek (foldl (col_step v g d row) st pre) c row
  end.
Proof.
  intros Hpost. rewrite foldl_app. simpl.
  rewrite col_loop_other by (right; assumption).
  rewrite col_step_store, peek_store_eq, col_loop_prev. reflexivity.
Qed.

Lemma seqZ_split lo n c :
  (lo <= c < lo + n)%Z ->
  seqZ lo n = seqZ lo (c - lo) ++ c :: seqZ (c + 1) (lo + n - c - 1).
Proof.
  intros Hc. replace n with ((c - lo) + (lo + n - c))%Z at 1 by lia.
  rewrite seqZ_app by lia. f_equal.
  replace (lo + (c - lo))%Z with c by lia.
  rewrite seqZ_cons by lia. f_equal.
Qed.

Lemma not_elem_of_seqZ_lt lo n c : (c < lo)%Z -> c ∉ seqZ lo n.
Proof. intros Hc Hin. apply elem_of_seqZ in Hin. lia. Qed.

Lemma not_elem_of_seqZ_ge lo n c : (lo + n <= c)%Z -> c ∉ seqZ lo n.
Proof. intros Hc Hin. apply elem_of_seqZ in Hin. lia. Qed.

Lemma row_step_other v g d bbox st row c r :
  (r <> row \/ c ∉ tile_cols bbox) ->
  peek (row_step v g d bbox st row) c r = peek st c r.
Proof.
  intros Hout. unfold row_step. destruct (negb _); [reflexivity|].
  rewrite col_loop_other by assumption. reflexivity.
Qed.

Lemma row_step_at v g d bbox st row c :
  (bmin_x bbox <= c < bmax_x bbox)%Z ->
  peek (row_step v g d bbox st row) c row =
  match (if negb (Z.rem row (m_pixel_sample v) =? 0)%Z then None
         else fst (col_outcome v g d row c
                     (carry v g d row Vector3_zero (seqZ (bmin_x bbox) (c - bmin_x bbox)))))
  with
  | Some sr => written (Some sr)
  | None => peek st c row
  end.
Proof.
  intros Hc. unfold row_step. destruct (negb _); [reflexivity|].
  unfold tile_cols.
  rewrite (seqZ_split (bmin_x bbox) _ c) by lia.
  rewrite col_loop_at by (apply not_elem_of_seqZ_lt; lia).
  simpl. destruct (fst _); [reflexivity|].
  rewrite col_loop_other by (right; apply not_elem_of_seqZ_ge; lia). reflexivity.
Qed.

Lemma row_loop_other v g d bbox rs : forall st c r,
  (r ∉ rs \/ c ∉ tile_cols bbox) ->
  peek (foldl (row_step v g d bbox) st rs) c r = peek st c r.
Proof.
  induction rs as [|r0 rs IH]; intros st c r Hout; simpl; [reflexivity|].
  rewrite IH.
  - apply row_step_other. destruct Hout as [Hr|Hc]; [left|right; assumption].
    intros ->. apply Hr. left.
  - destruct Hout as [Hr|Hc]; [left|right; assumption].
    intros Hin. apply Hr. right. assumption.
Qed.

Lemma row_loop_at v g d bbox st c row :
  in_tile bbox c row ->
  peek (foldl (row_step v g d bbox) st (tile_rows bbox)) c row =
  match (if negb (Z.rem row (m_pixel_sample v) =? 0)%Z then None
         else fst (col_outcome v g d row c
                     (carry v g d row Vector3_zero (seqZ (bmin_x bbox) (c - bmin_x bbox)))))
  with
  | Some sr => written (Some sr)
  | None => peek st c row
  end.
Proof.
  intros [Hc Hr]. unfold tile_rows.
  rewrite (seqZ_split (bmin_y bbox) _ row) by lia.
  rewrite foldl_app. simpl.
  rewrite row_loop_other by (left; apply not_elem_of_seqZ_lt; lia).
  rewrite row_step_at by assumption.
  destruct (if negb _ then _ else _); [reflexivity|].
  apply row_loop_other. left. apply not_elem_of_seqZ_ge; lia.
Qed.

(** The clearing loop. *)
Lemma clear_cols_prev row cs : forall st,
  st_prev_xyz (foldl (clear_pixel row) st cs) = st_prev_xyz st.
Proof. induction cs as [|c cs IH]; intros st; simpl; [reflexivity|]. rewrite IH. reflexivity. Qed.

Lemma clear_tile_prev bbox st : st_prev_xyz (clear_tile bbox st) = st_prev_xyz st.
Proof.
  unfold clear_tile. generalize (tile_rows bbox) as rs. intros rs. revert st.
  induction rs as [|r rs IH]; intros st; simpl; [reflexivity|].
  rewrite IH. apply clear_cols_prev.
Qed.

Lemma peek_clear_ne row st col c r :
  (c, r) <> (col, row) -> peek (clear_pixel row st col) c r = peek st c r.
Proof.
  intros Hne. unfold peek, clear_pixel; simpl.
  rewrite cv_get_set_ne by assumption. rewrite lookup_insert_ne; [reflexivity|congruence].
Qed.

Lemma peek_clear_eq row st col : peek (clear_pixel row st col) col row = written None.
Proof.
  unfold peek, clear_pixel, written; simpl. rewrite cv_get_set_eq, lookup_insert_eq. reflexivity.
Qed.

Lemma clear_cols_other row cs : forall st c r,
  (r <> row \/ c ∉ cs) -> peek (foldl (clear_pixel row) st cs) c r = peek st c r.
Proof.
  induction cs as [|c0 cs IH]; intros st c r Hout; simpl; [reflexivity|].
  rewrite IH.
  - apply peek_clear_ne. intros Heq; inversion Heq; subst.
    destruct Hout as [Hr|Hc]; [congruence|]. apply Hc. left.
  - destruct Hout as [Hr|Hc]; [left; assumption|right].
    intros Hin. apply Hc. right. assumption.
Qed.

Lemma clear_cols_at row cs : forall st c,
  c ∈ cs -> peek (foldl (clear_pixel row) st cs) c row = written None.
Proof.
  induction cs as [|c0 cs IH]; intros st c Hin; simpl.
  - inversion Hin.
  - destruct (decide (c ∈ cs)) as [Hc|Hc]; [apply IH; assumption|].
    rewrite clear_cols_other by (right; assumption).
    apply elem_of_cons in Hin as [->|Hin]; [apply peek_clear_eq|contradiction].
Qed.

Lemma clear_rows_other bbox rs : forall st c r,
  (r ∉ rs \/ c ∉ tile_cols bbox) ->
  peek (foldl (fun st row => foldl (clear_pixel row) st (tile_cols bbox)) st rs) c r = peek st c r.
Proof.
  induction rs as [|r0 rs IH]; intros st c r Hout; simpl; [reflexivity|].
  rewrite IH.
  - apply clear_cols_other. destruct Hout as [Hr|Hc]; [left|right; assumption].
    intros ->. apply Hr. left.
  - destruct Hout as [Hr|Hc]; [left|right; assumption].
    intros Hin. apply Hr. right. assumption.
Qed.

Lemma clear_rows_at bbox rs : forall st c r,
  r ∈ rs -> c ∈ tile_cols bbox ->
  peek (foldl (fun st row => foldl (clear_pixel row) st (tile_cols bbox)) st rs) c r = written None.
Proof.
  induction rs as [|r0 rs IH]; intros st c r Hr Hc; simpl.
  - inversion Hr.
  - destruct (decide (r ∈ rs)) as [Hin|Hin]; [apply IH; assumption|].
    rewrite clear_rows_other by (left; assumption).
    apply elem_of_cons in Hr as [->|Hr]; [apply clear_cols_at; assumption|contradiction].
Qed.

Lemma in_tile_elem bbox c r :
  in_tile bbox c r <-> r ∈ tile_rows bbox /\ c ∈ tile_cols bbox.
Proof.
  unfold in_tile, tile_rows, tile_cols. rewrite !elem_of_seqZ. lia.
Qed.

Lemma clear_tile_in bbox st c r :
  in_tile bbox c r -> peek (clear_tile bbox st) c r = written None.
Proof. intros Hin. apply in_tile_elem in Hin as [Hr Hc]. apply clear_rows_at; assumption. Qed.

Lemma clear_tile_out bbox st c r :
  ~ in_tile bbox c r -> peek (clear_tile bbox st) c r = peek st c r.
Proof.
  intros Hout. apply clear_rows_other.
  destruct (decide (r ∈ tile_rows bbox)) as [Hr|Hr]; [|left; assumption].
  right. intros Hc. apply Hout. apply in_tile_elem. split; assumption.
Qed.

(** The loops seen from [prerasterize]. *)
Lemma prerasterize_peek v bbox s0 c r :
  in_tile bbox c r ->
  (cv_get (fst (prerasterize v bbox s0)) c r, snd (prerasterize v bbox s0) !! (c, r)) =
  written (stored_range v bbox c r).
Proof.
  intros Hin. unfold prerasterize. rewrite clear_tile_prev. simpl.
  unfold stored_range, warm_start, tile_georef, tile_dem.
  destruct (estimate_dem_box v bbox Vector3_zero) as [dem_box prev] eqn:Hbox. simpl.
  match goal with |- (cv_get (st_lowres_disparity ?s) _ _, st_disp_spread ?s !! _) = _ =>
    change (peek s c r = written
      (if negb (Z.rem r (m_pixel_sample v) =? 0)%Z then None
       else fst (col_outcome v (crop_georef (m_dem_georef v) dem_box) (crop_dem (m_dem v) dem_box) r c
              (carry v (crop_georef (m_dem_georef v) dem_box) (crop_dem (m_dem v) dem_box) r Vector3_zero
                 (seqZ (bmin_x bbox) (c - bmin_x bbox)))))) end.
  rewrite row_loop_at by assumption.
  destruct (if negb _ then _ else _); [reflexivity|].
  change (peek (clear_tile bbox
     {| st_lowres_disparity := {| cv_child := ∅; cv_ci := - bmin_x bbox; cv_cj := - bmin_y bbox |};
        st_disp_spread := s0; st_prev_xyz := Vector3_zero |}) c r = written None).
  apply clear_tile_in. assumption.
Qed.

Lemma prerasterize_spread_outside v bbox s0 c r :
  ~ in_tile bbox c r -> snd (prerasterize v bbox s0) !! (c, r) = s0 !! (c, r).
Proof.
  intros Hout. unfold prerasterize.
  destruct (estimate_dem_box v bbox _) as [dem_box prev]. simpl.
  match goal with |- st_disp_spread ?s !! _ = _ =>
    change (snd (peek s c r) = s0 !! (c, r)) end.
  rewrite row_loop_other.
  - change (snd (peek (clear_tile bbox
       {| st_lowres_disparity := {| cv_child := ∅; cv_ci := - bmin_x bbox; cv_cj := - bmin_y bbox |};
          st_disp_spread := s0; st_prev_xyz := Vector3_zero |}) c r) = s0 !! (c, r)).
    rewrite clear_tile_out by assumption. reflexivity.
  - destruct (decide (r ∈ tile_rows bbox)) as [Hr|Hr]; [|left; assumption].
    right. intros Hc. apply Hout. apply in_tile_elem. split; assumption.
Qed.

Lemma foldl_same_block {A} (f : LoopState -> A -> LoopState) (l : list A) :
  (forall st st' a, same_block st st' -> same_block (f st a) (f st' a)) ->
  forall st st', same_block st st' -> same_block (foldl f st l) (foldl f st' l).
Proof.
  intros Hf. induction l as [|a l IH]; intros st st' Hs; simpl; [assumption|].
  apply IH. apply Hf. assumption.
Qed.

Lemma clear_tile_same_block bbox st st' :
  same_block st st' -> same_block (clear_tile bbox st) (clear_tile bbox st').
Proof.
  unfold clear_tile. apply foldl_same_block. intros s s' row Hs.
  apply foldl_same_block; [|assumption].
  intros t t' col [Hb Hp]. unfold clear_pixel, same_block; simpl. rewrite Hb, Hp. split; reflexivity.
Qed.

Lemma row_loop_same_block v g d bbox st st' :
  same_block st st' ->
  same_block (foldl (row_step v g d bbox) st (tile_rows bbox))
             (foldl (row_step v g d bbox) st' (tile_rows bbox)).
Proof.
  apply foldl_same_block. intros s s' row Hs. unfold row_step.
  destruct (negb _); [assumption|].
  apply foldl_same_block.
  - intros t t' col [Hb Hp]. rewrite !col_step_store. rewrite Hp.
    unfold store_range, same_block. destruct (fst _); simpl; rewrite Hb; split; reflexivity.
  - destruct Hs as [Hb Hp]. unfold same_block; simpl. rewrite Hb. split; reflexivity.
Qed.

Lemma prerasterize_block_indep v bbox s0 s0' :
  fst (prerasterize v bbox s0) = fst (prerasterize v bbox s0').
Proof.
  unfold prerasterize. rewrite !clear_tile_prev. simpl.
  destruct (estimate_dem_box v bbox Vector3_zero) as [dem_box prev]. simpl.
  apply row_loop_same_block.
  pose proof (clear_tile_same_block bbox
    {| st_lowres_disparity := {| cv_child := ∅; cv_ci := - bmin_x bbox; cv_cj := - bmin_y bbox |};
       st_disp_spread := s0; st_prev_xyz := Vector3_zero |}
    {| st_lowres_disparity := {| cv_child := ∅; cv_ci := - bmin_x bbox; cv_cj := - bmin_y bbox |};
       st_disp_spread := s0'; st_prev_xyz := Vector3_zero |}) as Hc.
  destruct Hc as [Hb Hp]; [split; reflexivity|].
  split; simpl; [assumption|reflexivity].
Qed.

#[local] Instance in_tile_dec bbox c r : Decision (in_tile bbox c r).
Proof. unfold in_tile. apply _. Defined.

Lemma prerasterize_spread v bbox s0 c r :
  snd (prerasterize v bbox s0) !! (c, r) =
  if decide (in_tile bbox c r) then snd (written (stored_range v bbox c r)) else s0 !! (c, r).
Proof.
  destruct (decide _) as [Hin|Hout].
  - rewrite <- (prerasterize_peek v bbox s0 c r Hin). reflexivity.
  - apply prerasterize_spread_outside. assumption.
Qed.

End Loops.

(** ** What is stored at a pixel *)

Section Stored.
Context {DEM GEOREF : Type} `{Cartography DEM GEOREF}.
Implicit Types (v : DemDisparity DEM GEOREF) (st : LoopState) (bbox : BBox2i).


Lemma stored_range_unsampled v bbox col row :
  Z.rem col (m_pixel_sample v) <> 0%Z \/ Z.rem row (m_pixel_sample v) <> 0%Z ->
  stored_range v bbox col row = None.
Proof.
  intros Hs. unfold stored_range, col_outcome.
  destruct (Z.eqb_spec (Z.rem row (m_pixel_sample v)) 0) as [Hr|Hr]; simpl; [|reflexivity].
  destruct (Z.eqb_spec (Z.rem col (m_pixel_sample v)) 0) as [Hc|Hc]; simpl; [|reflexivity].
  destruct Hs; contradiction.
Qed.


Lemma written_none_invalid :
  is_invalid (fst (written None)) /\ is_invalid (snd (written None)).
Proof. split; eexists; split; reflexivity. Qed.

Lemma prerasterize_not_stored v bbox s0 col row :
  in_tile bbox col row -> stored_range v bbox col row = None ->
  is_invalid (cv_get (fst (prerasterize v bbox s0)) col row) /\
  is_invalid (snd (prerasterize v bbox s0) !! (col, row)).
Proof.
  intros Hin Hs. pose proof (prerasterize_peek v bbox s0 col row Hin) as Hp.
  rewrite Hs in Hp. injection Hp as -> ->. apply written_none_invalid.
Qed.



Lemma not_multiple_rem k a : k <> 0%Z -> ~ (k | a)%Z -> Z.rem a k <> 0%Z.
Proof. intros Hk Hnd Hrem. apply Hnd. apply Z.rem_divide; assumption. Qed.

Lemma is_invalid_not_valid {A} (o : option (PixelMask A)) p :
  is_invalid o -> o = Some p -> is_valid p = true -> False.
Proof. intros [q [Hq Hv]] Hp Ht. rewrite Hq in Hp. injection Hp as ->. congruence. Qed.



(** ** The DEM box of a tile *)

Lemma expand_amount_ge b : (100 <= expand_amount b)%Z.
Proof. unfold expand_amount. lia. Qed.

Lemma grow_dem_box_keeps v acc d q :
  contains (fst acc) q = true -> contains (fst (grow_dem_box v acc d)) q = true.
Proof.
  destruct acc as [b p]. unfold grow_dem_box. simpl.
  destruct (lowResPixToDemXyz _ _ _ _ _ _ _ _ _) as [[[vec xyz]|] prev]; simpl; [|auto].
  apply grow_contains_old.
Qed.

Lemma grow_dem_box_loop_keeps v samples : forall acc q,
  contains (fst acc) q = true ->
  contains (fst (foldl (grow_dem_box v) acc samples)) q = true.
Proof.
  induction samples as [|d samples IH]; intros acc q Hq; simpl; [assumption|].
  apply IH. apply grow_dem_box_keeps. assumption.
Qed.

Lemma grow_dem_box_hit v b p d pix :
  dem_pixel_hit v d p = Some pix ->
  contains (fst (grow_dem_box v (b, p) d)) pix = true.
Proof.
  unfold dem_pixel_hit, grow_dem_box.
  destruct (lowResPixToDemXyz _ _ _ _ _ _ _ _ _) as [[[vec xyz]|] prev]; [|discriminate].
  intros [= <-]. simpl. apply grow_contains_point.
Qed.

End Stored.

(** ** The intersector is only consulted with the tolerances of the view *)

Lemma foldl_pointwise {A B} (f g : A -> B -> A) (l : list B) :
  (forall a b, f a b = g a b) -> forall a, foldl f a l = foldl g a l.
Proof.
  intros Hfg. induction l as [|b l IH]; intros a; simpl; [reflexivity|].
  rewrite Hfg. apply IH.
Qed.

Section Intersectors.
Context {DEM GEOREF : Type}.
Variable C : Cartography DEM GEOREF.
Variables f g : Vector3 -> Vector3 -> DEM -> GEOREF -> IntersectOpts -> Vector3 -> Q -> bool * Vector3.
Variable dem_error : Q.
Hypothesis agree : forall ctr vec dem georef prev guess,
  f ctr vec dem georef (dem_intersect_opts dem_error) prev guess =
  g ctr vec dem georef (dem_intersect_opts dem_error) prev guess.

Lemma lowResPixToDemXyz_policy pix scale tx cam georef dem guess prev :
  @lowResPixToDemXyz _ _ (with_intersector C f) pix scale tx cam dem_error georef dem guess prev =
  @lowResPixToDemXyz _ _ (with_intersector C g) pix scale tx cam dem_error georef dem guess prev.
Proof.
  unfold lowResPixToDemXyz. simpl.
  destruct (camera_center cam _); [|reflexivity].
  destruct (pixel_to_vector cam _); [|reflexivity].
  rewrite agree. reflexivity.
Qed.

Lemma prerasterize_policy (v : DemDisparity DEM GEOREF) bbox s0 :
  m_dem_error v = dem_error ->
  @prerasterize _ _ (with_intersector C f) v bbox s0 =
  @prerasterize _ _ (with_intersector C g) v bbox s0.
Proof.
  intros He. unfold prerasterize.
  assert (Hbox : forall p, @estimate_dem_box _ _ (with_intersector C f) v bbox p =
                           @estimate_dem_box _ _ (with_intersector C g) v bbox p).
  { intros p. unfold estimate_dem_box.
    rewrite (foldl_pointwise (@grow_dem_box _ _ (with_intersector C f) v)
                             (@grow_dem_box _ _ (with_intersector C g) v)); [reflexivity|].
    intros [b q] d. unfold grow_dem_box. rewrite He, lowResPixToDemXyz_policy. reflexivity. }
  rewrite Hbox.
  destruct (estimate_dem_box v bbox _) as [dem_box prev]. simpl.
  erewrite foldl_pointwise; [reflexivity|].
  intros st row. unfold row_step. destruct (negb _); [reflexivity|].
  apply foldl_pointwise. intros st' col. unfold col_step. destruct (negb _); [reflexivity|].
  unfold pixel_body. rewrite He, lowResPixToDemXyz_policy. reflexivity.
Qed.

End Intersectors.

End DemDispFacts.

(* ===================================================================== *)
(** * Part VII: the disparity view, claim by claim                        *)
(* ===================================================================== *)

Module DemDispClaims.

Import VW DemDisp VWFacts DemDispFacts Scenes.

Section View.
Context {DEM GEOREF : Type} `{Cartography DEM GEOREF}.
Implicit Types (v : DemDisparity DEM GEOREF) (bbox : BBox2i).


(** C2.  With a stride [k > 1], a pixel of the tile whose column or row
    is not a multiple of [k] is invalid in the disparity block and in
    the spread image; hence a valid pixel of either output has a column
    and a row that are multiples of [k]. *)
Theorem C2_stride_pixels_only v bbox s0 col row :
  (1 < m_pixel_sample v)%Z ->
  in_tile bbox col row ->
  let blk := fst (prerasterize v bbox s0) in
  let spread := snd (prerasterize v bbox s0) in
  (~ (m_pixel_sample v | col)%Z \/ ~ (m_pixel_sample v | row)%Z ->
     is_invalid (cv_get blk col row) /\ is_invalid (spread !! (col, row))) /\
  (forall p, cv_get blk col row = Some p -> is_valid p = true ->
     (m_pixel_sample v | col)%Z /\ (m_pixel_sample v | row)%Z) /\
  (forall q, spread !! (col, row) = Some q -> is_valid q = true ->
     (m_pixel_sample v | col)%Z /\ (m_pixel_sample v | row)%Z).
Proof.
  intros Hk Hin blk spread.
  assert (Hskip : ~ (m_pixel_sample v | col)%Z \/ ~ (m_pixel_sample v | row)%Z ->
            is_invalid (cv_get blk col row) /\ is_invalid (spread !! (col, row))).
  { intros Hnm. apply prerasterize_not_stored; [assumption|].
    apply stored_range_unsampled.
    destruct Hnm as [Hc|Hr]; [left|right]; apply not_multiple_rem; (lia || assumption). }
  assert (Hdec : forall a, (m_pixel_sample v | a)%Z \/ ~ (m_pixel_sample v | a)%Z).
  { intros a. destruct (Z.eq_dec (Z.rem a (m_pixel_sample v)) 0%Z) as [E|E].
    - left. apply Z.rem_divide; [lia|assumption].
    - right. intros Hd. apply E. apply Z.rem_divide; [lia|assumption]. }
  split; [exact Hskip|]. split.
  - intros p Hp Hv. destruct (Hdec col) as [Hc|Hc], (Hdec row) as [Hr|Hr];
      try (split; assumption); exfalso;
      (assert (Hno : ~ (m_pixel_sample v | col)%Z \/ ~ (m_pixel_sample v | row)%Z)
         by (tauto)); destruct (Hskip Hno) as [Hi _];
      apply (is_invalid_not_valid _ p Hi Hp Hv).
  - intros q Hq Hv. destruct (Hdec col) as [Hc|Hc], (Hdec row) as [Hr|Hr];
      try (split; assumption); exfalso;
      (assert (Hno : ~ (m_pixel_sample v | col)%Z \/ ~ (m_pixel_sample v | row)%Z)
         by (tauto)); destruct (Hskip Hno) as [_ Hi];
      apply (is_invalid_not_valid _ q Hi Hq Hv).
Qed.

(** C3.  The block returned by [prerasterize] does not depend on what
    the spread image held before the call, and neither do the pixels of
    the tile in the spread image after the call; a second call with the
    same region, made on the spread image left by the first, returns
    the same block and leaves the spread image as the first call left
    it. *)
Theorem C3_prerasterize_deterministic v bbox s0 s0' :
  fst (prerasterize v bbox s0) = fst (prerasterize v bbox s0') /\
  (forall col row, in_tile bbox col row ->
     snd (prerasterize v bbox s0) !! (col, row) = snd (prerasterize v bbox s0') !! (col, row)) /\
  prerasterize v bbox (snd (prerasterize v bbox s0)) = prerasterize v bbox s0.
Proof.
  split; [apply prerasterize_block_indep|]. split.
  - intros col row Hin. rewrite !prerasterize_spread.
    destruct (decide _); [reflexivity|contradiction].
  - apply injective_projections; [apply prerasterize_block_indep|].
    apply map_eq. intros [c r].
    rewrite (prerasterize_spread v bbox (snd _)).
    rewrite (prerasterize_spread v bbox s0).
    destruct (decide _); reflexivity.
Qed.


(** C6 (as amended).  The DEM box of a tile contains every DEM pixel
    that is hit by a diagonal sample of the tile (intersected with the
    full DEM, with the warm start left by the samples before it) and
    that lies inside the DEM, together with every DEM pixel of the DEM
    at most 100 pixels away from such a hit in each coordinate: the box
    of the hits is expanded by [max(100, 10% of its larger side)] and
    then clipped to the DEM. *)
Theorem C6_dem_crop_covers_diagonal_hits v bbox pre d post pix q :
  diagonals bbox = pre ++ d :: post ->
  dem_pixel_hit v d (diagonal_warm_start v pre) = Some pix ->
  (Z.abs (v2ix q - v2ix pix) <= 100)%Z -> (Z.abs (v2iy q - v2iy pix) <= 100)%Z ->
  contains (bounding_box (m_dem v)) q = true ->
  contains (fst (estimate_dem_box v bbox Vector3_zero)) q = true.
Proof.
  intros Hd Hhit Hx Hy Hin. unfold estimate_dem_box. rewrite Hd, foldl_app. simpl.
  unfold diagonal_warm_start in Hhit.
  destruct (foldl (grow_dem_box v) (BBox2i_empty, Vector3_zero) pre) as [b p] eqn:Hpre.
  simpl in Hhit.
  pose proof (grow_dem_box_loop_keeps v post _ pix (grow_dem_box_hit v b p d pix Hhit)) as Hpix.
  destruct (foldl (grow_dem_box v) (grow_dem_box v (b, p) d) post) as [box prev]. simpl in *.
  pose proof (expand_amount_ge box) as Hm.
  apply contains_spec in Hpix. apply contains_spec in Hin. apply contains_spec.
  unfold crop_box, expand; simpl. lia.
Qed.


End View.

(** C5 (as amended).  Every intersection made by [prerasterize] uses the
    tolerances that [lowResPixToDemXyz] computes from the DEM error of
    the view: replacing the intersector by one that agrees with it on
    these tolerances changes nothing.  The tolerances are
    [height_error_tol = max(dem_error/4, 1)], [max_abs_tol =
    height_error_tol/4], [max_rel_tol = 1e-14], [num_max_iter = 50] and
    no-data is not treated as zero. *)
Theorem C5_intersection_tolerances {DEM GEOREF : Type} (C : Cartography DEM GEOREF)
    (f g : Vector3 -> Vector3 -> DEM -> GEOREF -> IntersectOpts -> Vector3 -> Q -> bool * Vector3)
    (v : DemDisparity DEM GEOREF) (bbox : BBox2i) s0 :
  (forall ctr vec dem georef prev guess,
     f ctr vec dem georef (dem_intersect_opts (m_dem_error v)) prev guess =
     g ctr vec dem georef (dem_intersect_opts (m_dem_error v)) prev guess) ->
  @prerasterize _ _ (with_intersector C f) v bbox s0 =
  @prerasterize _ _ (with_intersector C g) v bbox s0 /\
  let opts := dem_intersect_opts (m_dem_error v) in
  height_error_tol opts = std_max (m_dem_error v / 4) 1 /\
  max_abs_tol opts = (height_error_tol opts / 4)%Q /\
  (max_rel_tol opts * 100000000000000 == 1)%Q /\
  num_max_iter opts = 50%Z /\
  treat_nodata_as_zero opts = false.
Proof.
  intros Hfg. split.
  - apply (prerasterize_policy C f g (m_dem_error v) Hfg). reflexivity.
  - simpl. repeat split; reflexivity.
Qed.

(** ** Runs of the code *)



(** C2, witness: pixel (1, 2) of the 4 x 4 tile, stride 2. *)
Lemma C2_witness :
  (1 < m_pixel_sample (parallax_view 1))%Z /\
  in_tile tile_4x4 1 2 /\
  is_invalid (cv_get (fst (prerasterize (parallax_view 1) tile_4x4 ∅)) 1 2) /\
  is_invalid (snd (prerasterize (parallax_view 1) tile_4x4 ∅) !! (1%Z, 2%Z)).
Proof.
  assert (Hk : (1 < m_pixel_sample (parallax_view 1))%Z) by (simpl; lia).
  assert (Hin : in_tile tile_4x4 1 2) by (unfold in_tile; simpl; lia).
  split; [exact Hk|]. split; [exact Hin|].
  apply (C2_stride_pixels_only (parallax_view 1) tile_4x4 ∅ 1 2 Hk Hin).
  left. simpl. intros [z Hz]. lia.
Defined.



(** C5, witness: the flat terrain behind the strict intersector. *)
Lemma C5_witness :
  @prerasterize _ _ (with_intersector flat_terrain
                       (@camera_pixel_to_dem_xyz _ _ flat_terrain))
                (parallax_view 1) tile_4x4 ∅ =
  @prerasterize _ _ (with_intersector flat_terrain strict_intersector)
                (parallax_view 1) tile_4x4 ∅.
Proof.
  apply (C5_intersection_tolerances flat_terrain
           (@camera_pixel_to_dem_xyz _ _ flat_terrain) strict_intersector
           (parallax_view 1) tile_4x4 ∅).
  intros ctr vec dem georef prev guess. reflexivity.
Defined.

(** C5, counterexample: no call of [lowResPixToDemXyz] can obtain another
    iteration limit or another relative tolerance; the only argument on
    which the tolerances depend is the DEM error, and these two do not
    depend on it either. *)
Lemma C5_tolerances_not_configurable :
  ~ exists dem_error1 dem_error2 : Q,
      num_max_iter (dem_intersect_opts dem_error1) <>
      num_max_iter (dem_intersect_opts dem_error2) \/
      ~ (max_rel_tol (dem_intersect_opts dem_error1) ==
         max_rel_tol (dem_intersect_opts dem_error2))%Q.
Proof. intros (e1 & e2 & [Hd|Hd]); apply Hd; reflexivity. Qed.

(** C6, witness: the first diagonal sample of the 5 x 5 tile of the
    wide-angle view hits DEM pixel (0, 0); DEM pixel (50, 50) is in the
    box. *)
Lemma C6_witness :
  dem_pixel_hit wide_view (V2 0 0) Vector3_zero = Some (V2i 0 0) /\
  contains (fst (estimate_dem_box wide_view tile_5x5 Vector3_zero)) (V2i 50 50) = true.
Proof.
  split; [vm_compute; reflexivity|].
  apply (C6_dem_crop_covers_diagonal_hits wide_view tile_5x5
           [] (V2 (0 # 1) (0 # 1)) [V2 (4 # 1) (4 # 1); V2 (0 # 1) (4 # 1); V2 (4 # 1) (0 # 1)]
           (V2i 0 0) (V2i 50 50)).
  - vm_compute. reflexivity.
  - vm_compute. reflexivity.
  - simpl. lia.
  - simpl. lia.
  - vm_compute. reflexivity.
Defined.

(** C6, counterexample: the four diagonal samples of the 5 x 5 tile are
    its corners, which all look at DEM pixel (0, 0), so the DEM box is
    [0, 101) x [0, 101) whatever the DEM error.  The centre pixel of the
    tile, which is on the stride grid, looks at DEM pixel (1600, 1600):
    its ray meets the DEM there, outside the box. *)
Lemma C6_crop_misses_offdiagonal_hit :
  in_tile tile_5x5 2 2 /\
  dem_pixel_hit wide_view (v2_of_ints 2 2) Vector3_zero = Some (V2i 1600 1600) /\
  contains (bounding_box (m_dem wide_view)) (V2i 1600 1600) = true /\
  contains (fst (estimate_dem_box wide_view tile_5x5 Vector3_zero)) (V2i 1600 1600) = false /\
  forall dem_error,
    fst (estimate_dem_box (stereo_view wide_camera (parallax_camera 2 7 (3 # 2)) dem_error)
                          tile_5x5 Vector3_zero) = BBox 0 0 101 101.
Proof.
  split; [unfold in_tile; simpl; lia|].
  split; [vm_compute; reflexivity|].
  split; [vm_compute; reflexivity|].
  split; [vm_compute; reflexivity|].
  intros dem_error. vm_compute. reflexivity.
Qed.



(** ** The narrowing to [float] at work *)

(** With a DEM error of 0 every offset of the centre pixel is the
    offset [c] of the parallax camera.  For [c = 1/2 - 2^-30] the
    corners of the search range are narrowed to [1/2], and the
    disparity stored is [round(1/2) = 1], not [round(c) = 0]. *)
Example offset_narrowed_to_one_half :
  let v := stereo_view nadir_camera
             (parallax_camera 2 ((1 # 2) - (1 # 2 ^ 30)) (3 # 2)) 0 in
  pixel_search_range v 2 2 (V3 0 0 (-1)) (V3 (2 # 1) (2 # 1) 1) =
    BBoxf (V2f (Fp_finite (1 # 2)) (Fp_finite 0)) (V2f (Fp_finite (1 # 2)) (Fp_finite 0)) /\
  cv_get (fst (prerasterize v tile_4x4 ∅)) 2 2 =
    Some (Mask (V2f (Fp_finite 1) (Fp_finite 0)) true) /\
  snd (prerasterize v tile_4x4 ∅) !! (2%Z, 2%Z) = Some (Mask (V2i 0 0) true).
Proof. vm_compute. repeat split; reflexivity. Qed.

(** For [c = 2^-160] the corners are narrowed to 0: the search range is
    the all-zero box and the pixel is left invalid, although every
    reprojection succeeded with an offset that is not zero. *)
Example offset_narrowed_to_zero :
  let v := stereo_view nadir_camera (parallax_camera 2 (1 # 2 ^ 160) (3 # 2)) 0 in
  (forall k, (k < 3)%nat -> reproject v (V3 (2 # 1) (2 # 1) 1) (V3 0 0 (-1)) k <> None) /\
  pixel_search_range v 2 2 (V3 0 0 (-1)) (V3 (2 # 1) (2 # 1) 1) = BBox2f_zero /\
  cv_get (fst (prerasterize v tile_4x4 ∅)) 2 2 = Some (Mask Vector2f_zero false) /\
  snd (prerasterize v tile_4x4 ∅) !! (2%Z, 2%Z) = Some (Mask (V2i 0 0) false).
Proof.
  split.
  - intros k Hk. destruct k as [|[|[|k]]]; [vm_compute; discriminate..|lia].
  - vm_compute. repeat split; reflexivity.
Qed.

(** With a parallax of 3 000 000 000 pixels per unit of height the
    search range runs from -3 000 000 000 to 3 000 000 000: the pixel
    is valid and its half-width has no conversion to [int]. *)
Example half_width_beyond_int :
  let v := stereo_view nadir_camera (parallax_camera 3000000000 0 (3 # 2)) 1 in
  pixel_search_range v 2 2 (V3 0 0 (-1)) (V3 (2 # 1) (2 # 1) 1) =
    BBoxf (V2f (Fp_finite (-3000000000)) (Fp_finite 0))
          (V2f (Fp_finite 3000000000) (Fp_finite 0)) /\
  ~ fits_int (half_width (Fp_finite (-3000000000)) (Fp_finite 3000000000)) /\
  exists q, snd (prerasterize v tile_4x4 ∅) !! (2%Z, 2%Z) = Some q /\ is_valid q = true.
Proof.
  split; [vm_compute; reflexivity|]. split.
  - vm_compute. intros [_ H]. apply H. reflexivity.
  - eexists. split; [vm_compute; reflexivity|reflexivity].
Qed.

End DemDispClaims.

(* ===================================================================== *)
(** * Facts about the exceptions of [DEMDisparity.cc]                     *)
(* ===================================================================== *)

Module DemDispRunFacts.

Import VW DemDisp DemDispRun.
Local Open Scope Q_scope.

(** ** Computations that may throw *)

Lemma agrees_ret {A} (R : Prop) (a : A) : agrees R (inr a) a.
Proof.
  split; [intros r E; injection E as <-; reflexivity|].
  split; [intros _; reflexivity|intros e E; discriminate].
Qed.

Lemma agrees_bind {A B} (R : Prop) (m : Exception + A) (k : A -> Exception + B) a b :
  agrees R m a -> agrees R (k a) b -> agrees R (bind m k) b.
Proof.
  intros (S1 & P1 & L1) (S2 & P2 & L2). split; [|split].
  - intros r E. destruct m as [e|a']; [discriminate|]. simpl in E.
    rewrite (S1 a' eq_refl) in E. apply S2, E.
  - intros HR. rewrite (P1 HR). simpl. apply P2, HR.
  - intros e E. destruct m as [e'|a']; simpl in E.
    + injection E as <-. apply L1. reflexivity.
    + rewrite (S1 a' eq_refl) in E. apply L2, E.
Qed.

Lemma agrees_call {A} (R : Prop) (o : option A) (d : A) :
  (R -> is_Some o) -> agrees R (call o) (default d o).
Proof.
  intros HR. split; [|split].
  - intros r E. destruct o; [injection E as <-; reflexivity|discriminate].
  - intros Hr. destruct (HR Hr) as [a ->]. reflexivity.
  - intros e E. destruct o; [discriminate|injection E as <-; reflexivity].
Qed.

Lemma agrees_foldlM {A B} (R : Prop) (f : A -> B -> Exception + A) (g : A -> B -> A) l :
  (forall a x, agrees R (f a x) (g a x)) ->
  forall a, agrees R (foldlM f a l) (foldl g a l).
Proof.
  intros Hstep. induction l as [|x l IH]; intros a; simpl.
  - apply agrees_ret.
  - eapply agrees_bind; [apply Hstep|apply IH].
Qed.

Lemma agrees_weaken {A} (R R' : Prop) (m : Exception + A) a :
  (R' -> R) -> agrees R m a -> agrees R' m a.
Proof.
  intros HR (S & P & L). split; [exact S|]. split; [intros Hr; apply P, HR, Hr|exact L].
Qed.

(** A computation that returns, returns the value it agrees with. *)
Lemma agrees_inr {A} (R : Prop) (m : Exception + A) a r :
  agrees R m a -> m = inr r -> r = a.
Proof. intros (S & _). apply S. Qed.

(** A computation that is ended by an exception was ended in a
    library. *)
Lemma agrees_inl {A} (R : Prop) (m : Exception + A) a e :
  agrees R m a -> m = inl e -> e = LibraryErr.
Proof. intros (_ & _ & L). apply L. Qed.

(** A computation returns when the calls it makes do. *)
Lemma agrees_returns {A} (R : Prop) (m : Exception + A) a :
  agrees R m a -> R -> m = inr a.
Proof. intros (_ & P & _). exact P. Qed.

Section View.

Context {DEM GEOREF : Type} `{Cartography DEM GEOREF}.

(** ** [lowResPixToDemXyz] *)

Lemma lowResPixToDemXyz_agrees pix scale tx cam dem_error georef dem height_guess prev :
  agrees (cartography_returns /\ reverse_returns tx)
    (lowResPixToDemXyz pix scale tx cam dem_error georef dem height_guess prev)
    (@DemDisp.lowResPixToDemXyz DEM GEOREF pure_cartography pix (v2_of_v2f scale)
       (pure_transform tx) cam dem_error georef dem height_guess prev).
Proof.
  unfold lowResPixToDemXyz, DemDisp.lowResPixToDemXyz.
  cbn [DemDisp.reverse pure_transform].
  eapply agrees_bind.
  { apply (agrees_call _ _ (elem_quot pix (v2_of_v2f scale))). intros [_ Hr]. apply Hr. }
  cbv beta.
  destruct (camera_center cam _) as [ctr|]; [|apply agrees_ret].
  destruct (pixel_to_vector cam _) as [vec|]; [|apply agrees_ret].
  cbn [DemDisp.camera_pixel_to_dem_xyz pure_cartography].
  eapply agrees_bind.
  { apply (agrees_call _ _ (false, Vector3_zero)). intros [(Hc & _) _]. apply Hc. }
  cbv beta.
  destruct (default _ _) as [has_intersection xyz].
  destruct (negb has_intersection || v3_eqb xyz Vector3_zero); apply agrees_ret.
Qed.

(** ** The loops of [prerasterize] *)

Section Loops.

Variable v : DemDisparity DEM GEOREF.

Lemma grow_dem_box_agrees acc pix :
  agrees (view_returns v) (grow_dem_box v acc pix)
    (@DemDisp.grow_dem_box DEM GEOREF pure_cartography (pure_view v) acc pix).
Proof.
  unfold grow_dem_box, DemDisp.grow_dem_box. destruct acc as [dem_box prev].
  cbn [pure_view DemDisp.m_downsample_scale DemDisp.m_tx_left DemDisp.m_left_camera_model
       DemDisp.m_dem_error DemDisp.m_dem_georef DemDisp.m_dem DemDisp.m_height_guess].
  eapply agrees_bind; [apply lowResPixToDemXyz_agrees|]. cbv beta.
  destruct (DemDisp.lowResPixToDemXyz _ _ _ _ _ _ _ _ _) as [[[vec xyz]|] prev'];
    [|apply agrees_ret].
  cbn [DemDisp.cartesian_to_geodetic DemDisp.lonlat_to_pixel pure_cartography].
  eapply agrees_bind.
  { apply (agrees_call _ _ Vector3_zero). intros [(_ & Hc & _) _]. apply Hc. }
  eapply agrees_bind.
  { apply (agrees_call _ _ Vector2_zero). intros [(_ & _ & Hc & _) _]. apply Hc. }
  apply agrees_ret.
Qed.

Lemma estimate_dem_box_agrees bbox prev :
  agrees (view_returns v) (estimate_dem_box v bbox prev)
    (@DemDisp.estimate_dem_box DEM GEOREF pure_cartography (pure_view v) bbox prev).
Proof.
  unfold estimate_dem_box, DemDisp.estimate_dem_box.
  eapply agrees_bind; [apply agrees_foldlM, grow_dem_box_agrees|]. cbv beta.
  destruct (foldl _ _ _) as [dem_box prev']. apply agrees_ret.
Qed.

(** The perturbation loop runs inside its [try] block in both parts. *)
Lemma disp_range_loop_pure pix xyz vec ks range success_arr :
  disp_range_loop v pix xyz vec ks range success_arr =
  @DemDisp.disp_range_loop DEM GEOREF (pure_view v) pix xyz vec ks range success_arr.
Proof.
  revert range success_arr. induction ks as [|k ks IH]; intros range success_arr;
    [reflexivity|].
  cbn [disp_range_loop DemDisp.disp_range_loop].
  change (DemDisp.reproject (pure_view v) xyz vec k) with (reproject v xyz vec k).
  destruct (reproject v xyz vec k) as [p|]; [|apply IH].
  cbn [pure_view DemDisp.m_downsample_scale].
  destruct (_ && _ && _); [reflexivity|apply IH].
Qed.

Lemma curr_pixel_disp_range_pure pix xyz vec :
  curr_pixel_disp_range v pix xyz vec =
  @DemDisp.curr_pixel_disp_range DEM GEOREF (pure_view v) pix xyz vec.
Proof. apply disp_range_loop_pure. Qed.

Lemma pixel_body_agrees georef_crop dem_crop row col st :
  agrees (view_returns v) (pixel_body v georef_crop dem_crop row col st)
    (@DemDisp.pixel_body DEM GEOREF pure_cartography (pure_view v)
       georef_crop dem_crop row col st).
Proof.
  unfold pixel_body, DemDisp.pixel_body.
  cbn [pure_view DemDisp.m_downsample_scale DemDisp.m_tx_left DemDisp.m_left_camera_model
       DemDisp.m_dem_error DemDisp.m_height_guess].
  eapply agrees_bind; [apply lowResPixToDemXyz_agrees|]. cbv beta.
  destruct (DemDisp.lowResPixToDemXyz _ _ _ _ _ _ _ _ _) as [[[vec xyz]|] prev'];
    [|apply agrees_ret].
  rewrite curr_pixel_disp_range_pure.
  destruct (bbox2f_eqb _ _); apply agrees_ret.
Qed.

Lemma col_step_agrees georef_crop dem_crop row st col :
  agrees (view_returns v) (col_step v georef_crop dem_crop row st col)
    (@DemDisp.col_step DEM GEOREF pure_cartography (pure_view v)
       georef_crop dem_crop row st col).
Proof.
  unfold col_step, DemDisp.col_step. cbn [pure_view DemDisp.m_pixel_sample].
  destruct (negb _); [apply agrees_ret|apply pixel_body_agrees].
Qed.

Lemma row_step_agrees georef_crop dem_crop bbox st row :
  agrees (view_returns v) (row_step v georef_crop dem_crop bbox st row)
    (@DemDisp.row_step DEM GEOREF pure_cartography (pure_view v)
       georef_crop dem_crop bbox st row).
Proof.
  unfold row_step, DemDisp.row_step. cbn [pure_view DemDisp.m_pixel_sample].
  destruct (negb _); [apply agrees_ret|].
  apply agrees_foldlM. intros a x. apply col_step_agrees.
Qed.

(** [prerasterize] returns what Part II computes, whenever it returns;
    and it returns when the calls outside of its [try] blocks do. *)
Lemma prerasterize_agrees bbox spread0 :
  agrees (view_returns v) (prerasterize v bbox spread0) (@DemDisp.prerasterize DEM GEOREF pure_cartography (pure_view v) bbox spread0).
Proof.
  unfold prerasterize, DemDisp.prerasterize.
  eapply agrees_bind; [apply estimate_dem_box_agrees|]. cbv beta.
  destruct (DemDisp.estimate_dem_box _ _ _) as [dem_box prev].
  cbn [DemDisp.crop_georef DemDisp.crop_dem pure_cartography pure_view
       DemDisp.m_dem_georef DemDisp.m_dem].
  eapply agrees_bind.
  { apply (agrees_call _ _ (m_dem_georef v)). intros [(_ & _ & _ & Hc & _) _]. apply Hc. }
  eapply agrees_bind.
  { apply (agrees_call _ _ (m_dem v)). intros [(_ & _ & _ & _ & Hc & _) _]. apply Hc. }
  eapply agrees_bind.
  { apply agrees_foldlM. intros a x. apply row_step_agrees. }
  apply agrees_ret.
Qed.

(** What Part II says about the block and the spread image of a tile
    applies to every call of [prerasterize] that returns; a call that
    does not return was ended in a library, by a call that can throw. *)
Lemma prerasterize_returns bbox spread0 r :
  prerasterize v bbox spread0 = inr r ->
  r = @DemDisp.prerasterize DEM GEOREF pure_cartography (pure_view v) bbox spread0.
Proof. apply (agrees_inr _ _ _ _ (prerasterize_agrees bbox spread0)). Qed.

Lemma prerasterize_throws bbox spread0 e :
  prerasterize v bbox spread0 = inl e -> e = LibraryErr /\ ~ view_returns v.
Proof.
  intros E. split; [apply (agrees_inl _ _ _ _ (prerasterize_agrees bbox spread0) E)|].
  intros Hr. rewrite (agrees_returns _ _ _ (prerasterize_agrees bbox spread0) Hr) in E.
  discriminate.
Qed.

Lemma rasterize_agrees acc bbox :
  agrees (view_returns v) (rasterize v acc bbox) (@DemDisp.rasterize DEM GEOREF pure_cartography (pure_view v) acc bbox).
Proof.
  unfold rasterize, DemDisp.rasterize. destruct acc as [dest spread].
  eapply agrees_bind; [apply prerasterize_agrees|]. cbv beta.
  destruct (DemDisp.prerasterize _ _ _) as [blk spread']. apply agrees_ret.
Qed.

Lemma rasterize_all_agrees acc ts :
  agrees (view_returns v) (foldlM (rasterize v) acc ts) (foldl (@DemDisp.rasterize DEM GEOREF pure_cartography (pure_view v)) acc ts).
Proof. apply agrees_foldlM. intros a x. apply rasterize_agrees. Qed.

End Loops.

(** ** The driver *)

(** A run of the driver that returns has opened its files and has
    written the rasters that Part II computes for the view it built. *)
Lemma produce_dem_disparity_returns (settings : StereoSettings) (files : Files DEM GEOREF)
    tx_left tx_right left_camera_model right_camera_model tiles w :
  produce_dem_disparity settings files tx_left tx_right
    left_camera_model right_camera_model tiles = inr w ->
  exists (v : DemDisparity DEM GEOREF) size,
    left_image_sub files = Some size /\
    m_pixel_sample v = 2%Z /\
    (D_sub w, D_sub_spread w) =
      foldl (@DemDisp.rasterize DEM GEOREF pure_cartography (pure_view v)) (∅, ∅) (tiles (fst size) (snd size) 64%Z).
Proof.
  unfold produce_dem_disparity. intros Hw.
  destruct (left_image files) as [[lc lr]|]; [|discriminate].
  destruct (left_image_sub files) as [[sc sr]|]; [|discriminate].
  cbn [call bind] in Hw.
  destruct (String.eqb _ _); [discriminate|].
  destruct (Qltb _ _); [discriminate|].
  destruct (read_georeference files _) as [[georef|]|]; try discriminate.
  cbn [call bind] in Hw.
  destruct (read_masked_dem files _) as [dem|]; [|discriminate].
  cbn [call bind] in Hw.
  unfold make_DemDisparity in Hw.
  destruct (demHeightGuess dem) as [height_guess|]; [|discriminate].
  cbn [call bind] in Hw.
  match type of Hw with context [foldlM (rasterize ?x)] => set (v := x) in Hw end.
  destruct (foldlM (rasterize v) (∅, ∅) (tiles sc sr 64%Z)) as [e|[d s]] eqn:Hf;
    [discriminate|].
  cbn [bind] in Hw.
  destruct (write_disparity files); [|discriminate].
  destruct (write_spread files); [|discriminate].
  cbn [call bind] in Hw. injection Hw as <-.
  exists v, (sc, sr). split; [reflexivity|]. split; [reflexivity|].
  cbn [D_sub D_sub_spread fst snd].
  apply (agrees_inr _ _ _ _ (rasterize_all_agrees v (∅, ∅) (tiles sc sr 64%Z)) Hf).
Qed.

End View.

End DemDispRunFacts.

(* ===================================================================== *)
(** * The claim about the driver of [DEMDisparity.cc]                     *)
(* ===================================================================== *)

Module DemDispRunClaims.

Import VW DemDisp DemDispRun VWFacts DemDispRunFacts Scenes RunScenes.
Local Open Scope Q_scope.

Section View.

Context {DEM GEOREF : Type} `{Cartography DEM GEOREF}.


End View.



(** A run in which every camera call throws writes its rasters with
    every pixel invalid. *)
Example blind_cameras_do_not_abort :
  exists w, produce_dem_disparity (run_settings "dem.tif" 1) (run_files true) tx_id tx_id
              blind_camera blind_camera one_tile = inr w /\
            D_sub w !! (2%Z, 2%Z) = Some (Mask Vector2f_zero false).
Proof. vm_compute. eexists. split; reflexivity. Qed.

(** The left transform is inverted outside of any [try] block: when
    [reverse] throws at one pixel, the run is ended by that exception,
    although the configuration is in order. *)
Example reverse_exception_ends_the_run :
  produce_dem_disparity (run_settings "dem.tif" 1) (run_files true) tx_not_invertible tx_id
    nadir_camera nadir_camera one_tile = inl LibraryErr.
Proof. vm_compute. reflexivity. Qed.

(** The left image is opened before the settings are looked at: when it
    cannot be opened, the run is ended by that exception and the
    missing DEM file is not reported. *)
Example images_are_opened_first :
  produce_dem_disparity (run_settings EmptyString 1) no_left_image tx_id tx_id
    nadir_camera nadir_camera one_tile = inl LibraryErr.
Proof. vm_compute. reflexivity. Qed.

End DemDispRunClaims.

(* ===================================================================== *)
(** * Part VIII: binary64 arithmetic, exact on a grid and rounded       *)
(* ===================================================================== *)

Module CsmFacts.

Import Csm.
Local Open Scope Z_scope.

Lemma iter_xO_spec d : forall p, Zpos (Pos.iter xO p d) = Zpos p * 2 ^ Zpos d.
Proof.
  induction d as [|d IH] using Pos.peano_ind; intros p.
  - simpl. lia.
  - rewrite Pos.iter_succ. rewrite Pos2Z.inj_succ, Z.pow_succ_r by lia.
    change (Zpos (Pos.iter xO p d)~0) with (2 * Zpos (Pos.iter xO p d)).
    rewrite IH. lia.
Qed.

Lemma pshl_spec p n : 0 <= n -> Zpos (pshl p n) = Zpos p * 2 ^ n.
Proof.
  intros Hn. destruct n as [|d|d]; simpl pshl; [lia| |lia].
  apply iter_xO_spec.
Qed.

Lemma pshl_pshl p a b : 0 <= a -> 0 <= b -> pshl (pshl p a) b = pshl p (a + b).
Proof.
  intros Ha Hb. apply Pos2Z.inj. rewrite !pshl_spec by lia.
  rewrite Z.pow_add_r by lia. lia.
Qed.

Lemma digits2_size p : digits2_pos p = Pos.size p.
Proof. induction p; simpl; congruence. Qed.

Lemma digits_bounds p :
  2 ^ (Zpos (digits2_pos p) - 1) <= Zpos p < 2 ^ Zpos (digits2_pos p).
Proof.
  rewrite digits2_size. split.
  - pose proof (Pos.size_le p) as Hle.
    assert (E : Zpos (2 ^ Pos.size p) = 2 ^ Zpos (Pos.size p)) by (rewrite Pos2Z.inj_pow; reflexivity).
    assert (L : Zpos (2 ^ Pos.size p) <= Zpos (p~0)) by (apply Pos2Z.pos_le_pos; exact Hle).
    rewrite E in L.
    replace (Zpos (Pos.size p)) with (Z.succ (Zpos (Pos.size p) - 1)) in L by lia.
    rewrite Z.pow_succ_r in L by lia. lia.
  - pose proof (Pos.size_gt p) as Hgt.
    assert (L : Zpos p < Zpos (2 ^ Pos.size p)) by (apply Pos2Z.pos_lt_pos; exact Hgt).
    rewrite Pos2Z.inj_pow in L. exact L.
Qed.

Lemma digits_unique p d :
  2 ^ (d - 1) <= Zpos p < 2 ^ d -> Zpos (digits2_pos p) = d.
Proof.
  intros [Hlo Hhi]. destruct (digits_bounds p) as [Blo Bhi].
  set (d' := Zpos (digits2_pos p)) in *.
  assert (Hd' : 0 < d') by (unfold d'; lia).
  assert (Hd : 0 < d).
  { destruct (Z.lt_trichotomy d 0) as [Hn|[Hz|Hp]].
    - rewrite (Z.pow_neg_r 2 d) in Hhi by lia. lia.
    - subst d. simpl in Hhi. lia.
    - lia. }
  destruct (Z.lt_trichotomy d d') as [Hlt|[Heq|Hgt]]; [|lia|].
  - assert (2 ^ d <= 2 ^ (d' - 1)) by (apply Z.pow_le_mono_r; lia). lia.
  - assert (2 ^ d' <= 2 ^ (d - 1)) by (apply Z.pow_le_mono_r; lia). lia.
Qed.

Lemma digits_pshl p n : 0 <= n -> Zpos (digits2_pos (pshl p n)) = Zpos (digits2_pos p) + n.
Proof.
  intros Hn. apply digits_unique. rewrite pshl_spec by lia.
  destruct (digits_bounds p) as [Blo Bhi].
  replace (Zpos (digits2_pos p) + n - 1) with ((Zpos (digits2_pos p) - 1) + n) by lia.
  rewrite !Z.pow_add_r by lia.
  assert (0 < 2 ^ n) by (apply Z.pow_pos_nonneg; lia).
  split; nia.
Qed.

(** Shifting out zero bits is exact. *)
Lemma shr_exact n : forall m,
  SpecFloat.iter_pos shr_1 n {| shr_m := Zpos (Pos.iter xO m n); shr_r := false; shr_s := false |} =
  {| shr_m := Zpos m; shr_r := false; shr_s := false |}.
Proof.
  induction n as [n IH|n IH|]; intros m; simpl.
  - rewrite !IH. reflexivity.
  - rewrite !IH. reflexivity.
  - reflexivity.
Qed.

Lemma fexp_53 e : -1021 <= e -> fexp 53 1024 e = e - 53.
Proof. intros He. unfold fexp, emin. lia. Qed.

Lemma shr_fexp_exact m j e :
  Zpos (digits2_pos m) = 53 -> 0 <= j -> -1074 <= e + j ->
  shr_fexp 53 1024 (Zpos (pshl m j)) e loc_Exact =
  ({| shr_m := Zpos m; shr_r := false; shr_s := false |}, e + j).
Proof.
  intros Hd Hj He. unfold shr_fexp. simpl Zdigits2. rewrite digits_pshl by lia.
  rewrite Hd, fexp_53 by lia.
  replace (53 + j + e - 53 - e) with j by lia.
  unfold shr, shr_record_of_loc. destruct j as [|jp|jp]; [| |lia].
  - simpl pshl. f_equal. lia.
  - simpl pshl. rewrite shr_exact. reflexivity.
Qed.

Lemma binary_round_aux_exact s m j e :
  Zpos (digits2_pos m) = 53 -> 0 <= j -> -1074 <= e + j <= 971 ->
  binary_round_aux 53 1024 s (Zpos (pshl m j)) e loc_Exact = S754_finite s m (e + j).
Proof.
  intros Hd Hj He. unfold binary_round_aux.
  rewrite shr_fexp_exact by lia.
  cbn [shr_m loc_of_shr_record round_nearest_even].
  change (Zpos m) with (Zpos (pshl m 0)).
  rewrite shr_fexp_exact by lia.
  cbn [shr_m]. replace (e + j + 0) with (e + j) by lia.
  destruct (Z.leb_spec (e + j) (1024 - 53)); [reflexivity|lia].
Qed.

Lemma shl_align_le p e e' : e' <= e -> shl_align p e e' = (pshl p (e - e'), e').
Proof.
  intros Hle. unfold shl_align. destruct (e' - e) as [|d|d] eqn:E.
  - assert (e' = e) by lia. subst. replace (e - e) with 0 by lia. reflexivity.
  - lia.
  - replace (e - e') with (Zpos d) by lia. reflexivity.
Qed.

Lemma shl_align_ge p e e' : e <= e' -> shl_align p e e' = (p, e).
Proof.
  intros Hle. unfold shl_align. destruct (e' - e) as [|d|d] eqn:E; [reflexivity|reflexivity|lia].
Qed.

Lemma binary_round_small s p e :
  Zpos (digits2_pos p) <= 53 -> -1021 <= e + Zpos (digits2_pos p) <= 1024 ->
  binary_round 53 1024 s p e = normal s p e.
Proof.
  intros Hd He. unfold binary_round, normal.
  rewrite fexp_53 by lia.
  rewrite shl_align_le by lia.
  replace (e - (Zpos (digits2_pos p) + e - 53)) with (53 - Zpos (digits2_pos p)) by lia.
  change (Zpos (pshl p (53 - Zpos (digits2_pos p))))
    with (Zpos (pshl (pshl p (53 - Zpos (digits2_pos p))) 0)).
  rewrite binary_round_aux_exact.
  - f_equal; lia.
  - rewrite digits_pshl by lia. lia.
  - lia.
  - lia.
Qed.

Lemma binary_round_scaled s p j e :
  Zpos (digits2_pos p) <= 53 -> 0 <= j ->
  -1021 <= e + Zpos (digits2_pos p) <= 1024 ->
  binary_round 53 1024 s (pshl p j) (e - j) = normal s p e.
Proof.
  intros Hd Hj He.
  destruct (Z.le_gt_cases (Zpos (digits2_pos p) + j) 53) as [Hs|Hl].
  - rewrite binary_round_small.
    + unfold normal. rewrite digits_pshl by lia. rewrite pshl_pshl by lia.
      f_equal; [f_equal; lia|lia].
    + rewrite digits_pshl by lia. lia.
    + rewrite digits_pshl by lia. lia.
  - unfold binary_round, normal. rewrite digits_pshl by lia.
    rewrite fexp_53 by lia. rewrite shl_align_ge by lia.
    replace (pshl p j) with
      (pshl (pshl p (53 - Zpos (digits2_pos p))) (Zpos (digits2_pos p) + j - 53))
      by (rewrite pshl_pshl by lia; f_equal; lia).
    rewrite binary_round_aux_exact.
    + f_equal; lia.
    + rewrite digits_pshl by lia. lia.
    + lia.
    + lia.
Qed.

Lemma digits_le_53 p : Zpos p < 2 ^ 53 -> Zpos (digits2_pos p) <= 53.
Proof.
  intros Hp. destruct (digits_bounds p) as [Blo _].
  destruct (Z.le_gt_cases (Zpos (digits2_pos p)) 53) as [Hle|Hgt]; [assumption|].
  assert (2 ^ 53 <= 2 ^ (Zpos (digits2_pos p) - 1)) by (apply Z.pow_le_mono_r; lia). lia.
Qed.

Lemma double_of_pos p e :
  Zpos p < 2 ^ 53 -> -1020 <= e <= 971 -> double_of (Zpos p) e = normal false p e.
Proof.
  intros Hp He. unfold double_of, binary_normalize.
  pose proof (digits_le_53 p Hp). apply binary_round_small; lia.
Qed.

Lemma double_of_neg p e :
  Zpos p < 2 ^ 53 -> -1020 <= e <= 971 -> double_of (Zneg p) e = normal true p e.
Proof.
  intros Hp He. unfold double_of, binary_normalize.
  pose proof (digits_le_53 p Hp). apply binary_round_small; lia.
Qed.

Lemma double_of_scaled n j e :
  Z.abs n < 2 ^ 53 -> 0 <= j -> -1020 <= e <= 971 ->
  binary_normalize 53 1024 (n * 2 ^ j) (e - j) false = double_of n e.
Proof.
  intros Hn Hj He. destruct n as [|p|p].
  - reflexivity.
  - rewrite <- pshl_spec by lia. unfold double_of, binary_normalize.
    pose proof (digits_le_53 p ltac:(lia)).
    rewrite binary_round_scaled by lia. symmetry. apply binary_round_small; lia.
  - replace (Zneg p * 2 ^ j) with (Zneg (pshl p j))
      by (rewrite <- Pos2Z.opp_pos, pshl_spec by lia; lia).
    unfold double_of, binary_normalize.
    pose proof (digits_le_53 p ltac:(lia)).
    rewrite binary_round_scaled by lia. symmetry. apply binary_round_small; lia.
Qed.

Lemma SFadd_finite sx mx ex sy my ey :
  SFadd 53 1024 (S754_finite sx mx ex) (S754_finite sy my ey) =
  binary_normalize 53 1024
    (cond_Zopp sx (Zpos (fst (shl_align mx ex (Z.min ex ey)))) +
     cond_Zopp sy (Zpos (fst (shl_align my ey (Z.min ex ey)))))
    (Z.min ex ey) false.
Proof. reflexivity. Qed.

Lemma SFsub_finite sx mx ex sy my ey :
  SFsub 53 1024 (S754_finite sx mx ex) (S754_finite sy my ey) =
  binary_normalize 53 1024
    (cond_Zopp sx (Zpos (fst (shl_align mx ex (Z.min ex ey)))) -
     cond_Zopp sy (Zpos (fst (shl_align my ey (Z.min ex ey)))))
    (Z.min ex ey) false.
Proof. reflexivity. Qed.

(** Aligning two normal numbers of a common grid [2^e]. *)
Lemma align_normal p e ez :
  Zpos (digits2_pos p) <= 53 -> ez <= e + Zpos (digits2_pos p) - 53 ->
  Zpos (fst (shl_align (pshl p (53 - Zpos (digits2_pos p)))
                       (e + Zpos (digits2_pos p) - 53) ez)) =
  Zpos p * 2 ^ (e - ez).
Proof.
  intros Hd Hez. rewrite shl_align_le by lia. cbn [fst].
  rewrite pshl_pshl by lia. rewrite pshl_spec by lia. f_equal. f_equal. lia.
Qed.

Lemma add_normal sx px sy py e :
  Zpos px < 2 ^ 53 -> Zpos py < 2 ^ 53 ->
  Z.abs (cond_Zopp sx (Zpos px) + cond_Zopp sy (Zpos py)) < 2 ^ 53 ->
  -1020 <= e <= 971 ->
  SFadd 53 1024 (normal sx px e) (normal sy py e) =
  double_of (cond_Zopp sx (Zpos px) + cond_Zopp sy (Zpos py)) e.
Proof.
  intros Hx Hy Hsum He. unfold normal. rewrite SFadd_finite.
  pose proof (digits_le_53 px Hx) as Dx. pose proof (digits_le_53 py Hy) as Dy.
  set (ez := Z.min (e + Zpos (digits2_pos px) - 53) (e + Zpos (digits2_pos py) - 53)).
  rewrite !align_normal by lia.
  replace (cond_Zopp sx (Zpos px * 2 ^ (e - ez)) + cond_Zopp sy (Zpos py * 2 ^ (e - ez)))
    with ((cond_Zopp sx (Zpos px) + cond_Zopp sy (Zpos py)) * 2 ^ (e - ez))
    by (destruct sx, sy; unfold cond_Zopp; ring).
  replace ez with (e - (e - ez)) at 2 by lia.
  apply double_of_scaled; lia.
Qed.

Lemma sub_normal sx px sy py e :
  Zpos px < 2 ^ 53 -> Zpos py < 2 ^ 53 ->
  Z.abs (cond_Zopp sx (Zpos px) - cond_Zopp sy (Zpos py)) < 2 ^ 53 ->
  -1020 <= e <= 971 ->
  SFsub 53 1024 (normal sx px e) (normal sy py e) =
  double_of (cond_Zopp sx (Zpos px) - cond_Zopp sy (Zpos py)) e.
Proof.
  intros Hx Hy Hsum He. unfold normal. rewrite SFsub_finite.
  pose proof (digits_le_53 px Hx) as Dx. pose proof (digits_le_53 py Hy) as Dy.
  set (ez := Z.min (e + Zpos (digits2_pos px) - 53) (e + Zpos (digits2_pos py) - 53)).
  rewrite !align_normal by lia.
  replace (cond_Zopp sx (Zpos px * 2 ^ (e - ez)) - cond_Zopp sy (Zpos py * 2 ^ (e - ez)))
    with ((cond_Zopp sx (Zpos px) - cond_Zopp sy (Zpos py)) * 2 ^ (e - ez))
    by (destruct sx, sy; unfold cond_Zopp; ring).
  replace ez with (e - (e - ez)) at 2 by lia.
  apply double_of_scaled; lia.
Qed.

(** Exact addition and subtraction on a common grid. *)
Lemma double_of_cases n e :
  Z.abs n < 2 ^ 53 -> -1020 <= e <= 971 ->
  (n = 0 /\ double_of n e = S754_zero false) \/
  (exists s p, n = cond_Zopp s (Zpos p) /\ Zpos p < 2 ^ 53 /\ double_of n e = normal s p e).
Proof.
  intros Hn He. destruct n as [|p|p].
  - left. split; reflexivity.
  - right. exists false, p. split; [reflexivity|]. split; [lia|]. apply double_of_pos; lia.
  - right. exists true, p. split; [reflexivity|]. split; [lia|]. apply double_of_neg; lia.
Qed.

Lemma add_on_grid a b e :
  Z.abs a < 2 ^ 53 -> Z.abs b < 2 ^ 53 -> Z.abs (a + b) < 2 ^ 53 -> -1020 <= e <= 971 ->
  SFadd 53 1024 (double_of a e) (double_of b e) = double_of (a + b) e.
Proof.
  intros Ha Hb Hab He.
  destruct (double_of_cases a e Ha He) as [[-> Ea]|(sa & pa & -> & Hpa & Ea)];
  destruct (double_of_cases b e Hb He) as [[-> Eb]|(sb & pb & -> & Hpb & Eb)].
  - reflexivity.
  - rewrite Ea. rewrite Z.add_0_l. rewrite Eb. reflexivity.
  - rewrite Eb. rewrite Z.add_0_r. rewrite Ea. reflexivity.
  - rewrite Ea, Eb. apply add_normal; assumption.
Qed.

Lemma sub_on_grid a b e :
  Z.abs a < 2 ^ 53 -> Z.abs b < 2 ^ 53 -> Z.abs (a - b) < 2 ^ 53 -> -1020 <= e <= 971 ->
  SFsub 53 1024 (double_of a e) (double_of b e) = double_of (a - b) e.
Proof.
  intros Ha Hb Hab He.
  destruct (double_of_cases a e Ha He) as [[-> Ea]|(sa & pa & -> & Hpa & Ea)];
  destruct (double_of_cases b e Hb He) as [[-> Eb]|(sb & pb & -> & Hpb & Eb)].
  - reflexivity.
  - rewrite Ea, Eb. rewrite Z.sub_0_l.
    replace (- cond_Zopp sb (Zpos pb)) with (cond_Zopp (negb sb) (Zpos pb))
      by (destruct sb; reflexivity).
    destruct sb.
    + change (cond_Zopp (negb true) (Zpos pb)) with (Zpos pb).
      rewrite double_of_pos by lia. reflexivity.
    + change (cond_Zopp (negb false) (Zpos pb)) with (Zneg pb).
      rewrite double_of_neg by lia. reflexivity.
  - rewrite Eb. rewrite Z.sub_0_r. rewrite Ea. reflexivity.
  - rewrite Ea, Eb. apply sub_normal; assumption.
Qed.

Lemma half_on_grid g :
  1 <= g <= 1000 -> double_of (2 ^ (g - 1)) (- g) = S754_finite false 4503599627370496 (-53).
Proof.
  intros Hg. replace (- g) with (-1 - (g - 1)) by lia.
  replace (2 ^ (g - 1)) with (1 * 2 ^ (g - 1)) by lia.
  unfold double_of at 1. rewrite double_of_scaled by (simpl; lia). reflexivity.
Qed.

(** ** Rounding: one unit in the last place *)

(** Shifting right is division by a power of two. *)
Lemma shr_1_m mrs : 0 <= shr_m mrs -> shr_m (shr_1 mrs) = shr_m mrs / 2.
Proof.
  destruct mrs as [m r s]. simpl. intros Hm.
  destruct m as [|p|p]; [reflexivity| |lia].
  destruct p as [p|p|]; cbn [shr_m].
  - rewrite Pos2Z.inj_xI. apply Z.div_unique with 1; lia.
  - rewrite Pos2Z.inj_xO. apply Z.div_unique with 0; lia.
  - reflexivity.
Qed.

Lemma shr_1_nonneg mrs : 0 <= shr_m mrs -> 0 <= shr_m (shr_1 mrs).
Proof. intros Hm. rewrite shr_1_m by assumption. apply Z.div_pos; lia. Qed.

Lemma pow2_xO n : 2 ^ Zpos n~0 = 2 ^ Zpos n * 2 ^ Zpos n.
Proof. rewrite <- Z.pow_add_r by lia. f_equal. lia. Qed.

Lemma pow2_xI n : 2 ^ Zpos n~1 = 2 * (2 ^ Zpos n * 2 ^ Zpos n).
Proof.
  rewrite <- Z.pow_add_r by lia. rewrite <- Z.pow_succ_r by lia. f_equal. lia.
Qed.

Lemma iter_shr_m n : forall mrs,
  0 <= shr_m mrs ->
  shr_m (SpecFloat.iter_pos shr_1 n mrs) = shr_m mrs / 2 ^ Zpos n /\
  0 <= shr_m (SpecFloat.iter_pos shr_1 n mrs).
Proof.
  induction n as [n IH|n IH|]; intros mrs Hm; simpl SpecFloat.iter_pos.
  - pose proof (shr_1_nonneg mrs Hm) as H1.
    destruct (IH (shr_1 mrs) H1) as [E1 N1].
    destruct (IH _ N1) as [E2 N2]. split; [|assumption].
    assert (Hp : 0 < 2 ^ Zpos n) by (apply Z.pow_pos_nonneg; lia).
    rewrite E2, E1, shr_1_m by assumption.
    rewrite !Z.div_div by lia. rewrite pow2_xI. reflexivity.
  - destruct (IH mrs Hm) as [E1 N1].
    destruct (IH _ N1) as [E2 N2]. split; [|assumption].
    assert (Hp : 0 < 2 ^ Zpos n) by (apply Z.pow_pos_nonneg; lia).
    rewrite E2, E1.
    rewrite !Z.div_div by lia. rewrite pow2_xO. reflexivity.
  - split; [apply shr_1_m; assumption|apply shr_1_nonneg; assumption].
Qed.

Lemma shr_m_of_loc m l : shr_m (shr_record_of_loc m l) = m.
Proof. destruct l as [|[| |]]; reflexivity. Qed.

Lemma shr_floor mrs e n :
  0 <= shr_m mrs -> 0 <= n ->
  shr_m (fst (shr mrs e n)) = shr_m mrs / 2 ^ n /\ snd (shr mrs e n) = e + n.
Proof.
  intros Hm Hn. unfold shr. destruct n as [|p|p]; [| |lia].
  - simpl. rewrite Z.div_1_r. split; [reflexivity|lia].
  - simpl. split; [apply iter_shr_m; assumption|reflexivity].
Qed.

Lemma round_nearest_even_cases m l :
  round_nearest_even m l = m \/ round_nearest_even m l = m + 1.
Proof.
  unfold round_nearest_even. destruct l as [|[| |]]; auto.
  destruct (Z.even m); auto.
Qed.

Lemma Zdigits2_pos p : Zdigits2 (Zpos p) = Zpos (digits2_pos p).
Proof. reflexivity. Qed.

(** A positive integer with its number of bits. *)
Lemma Z_digits_unique m d :
  0 < m -> 2 ^ (d - 1) <= m < 2 ^ d -> Zdigits2 m = d.
Proof.
  intros Hm Hd. destruct m as [|p|p]; [lia| |lia].
  simpl Zdigits2. apply digits_unique. assumption.
Qed.

(** Rounding a mantissa of at least 53 bits: the result is the floor of
    the exact value on the grid of the result, or the next number of
    that grid. *)
Lemma binary_round_aux_floor s M E l :
  let D := Zpos (digits2_pos M) in
  53 <= D -> -1074 <= E + D - 53 -> E + D - 53 <= 970 ->
  exists m' e',
    binary_round_aux 53 1024 s (Zpos M) E l = S754_finite s m' e' /\
    Zpos (digits2_pos m') = 53 /\
    E + D - 53 <= e' <= E + D - 52 /\
    (Zpos m' * 2 ^ (e' - (E + D - 53)) = Zpos M / 2 ^ (D - 53) \/
     Zpos m' * 2 ^ (e' - (E + D - 53)) = Zpos M / 2 ^ (D - 53) + 1).
Proof.
  intros D HD Hlo Hhi.
  destruct (digits_bounds M) as [Blo Bhi]. fold D in Blo, Bhi.
  set (n := D - 53). set (f := Zpos M / 2 ^ n).
  assert (Hpn : 0 < 2 ^ n) by (apply Z.pow_pos_nonneg; lia).
  assert (Hf : 2 ^ 52 <= f < 2 ^ 53).
  { unfold f. split.
    - apply Z.div_le_lower_bound; [lia|].
      rewrite <- Z.pow_add_r by lia. replace (n + 52) with (D - 1) by lia. assumption.
    - apply Z.div_lt_upper_bound; [lia|].
      rewrite <- Z.pow_add_r by lia. replace (n + 53) with D by lia. assumption. }
  unfold binary_round_aux.
  (* first shift *)
  unfold shr_fexp at 1. rewrite Zdigits2_pos. fold D.
  rewrite fexp_53 by lia. replace (D + E - 53 - E) with n by lia.
  destruct (shr_floor (shr_record_of_loc (Zpos M) l) E n) as [Em Ee];
    [rewrite shr_m_of_loc; lia|lia|].
  rewrite shr_m_of_loc in Em. fold f in Em.
  destruct (shr (shr_record_of_loc (Zpos M) l) E n) as [mrs' e1]. simpl in Em, Ee. subst e1.
  (* rounding *)
  set (g := round_nearest_even (shr_m mrs') (loc_of_shr_record mrs')).
  assert (Hg : g = f \/ g = f + 1).
  { unfold g. rewrite <- Em. apply round_nearest_even_cases. }
  assert (Hgpos : 0 < g) by lia.
  (* second shift *)
  unfold shr_fexp.
  destruct (Z.eq_dec g (2 ^ 53)) as [Hover|Hin].
  - (* the mantissa has overflowed to 2^53 *)
    assert (Dg : Zdigits2 g = 54) by (apply Z_digits_unique; [lia|rewrite Hover; simpl; lia]).
    rewrite Dg, fexp_53 by lia. replace (54 + (E + n) - 53 - (E + n)) with 1 by lia.
    destruct (shr_floor (shr_record_of_loc g loc_Exact) (E + n) 1) as [Em2 Ee2];
      [rewrite shr_m_of_loc; lia|lia|].
    rewrite shr_m_of_loc in Em2.
    destruct (shr (shr_record_of_loc g loc_Exact) (E + n) 1) as [mrs2 e2].
    simpl in Em2, Ee2. subst e2. rewrite Em2. rewrite Hover.
    change (2 ^ 53 / 2 ^ 1) with (Zpos 4503599627370496).
    destruct (Z.leb_spec (E + n + 1) (1024 - 53)); [|lia].
    exists 4503599627370496%positive, (E + n + 1).
    split; [reflexivity|]. split; [reflexivity|]. split; [unfold n; lia|].
    right. replace (E + n + 1 - (E + D - 53)) with 1 by (unfold n; lia).
    fold n. fold f. change (Zpos 4503599627370496 * 2 ^ 1) with (2 ^ 53). lia.
  - assert (Hg53 : 2 ^ 52 <= g < 2 ^ 53) by lia.
    assert (Dg : Zdigits2 g = 53) by (apply Z_digits_unique; [lia|simpl; lia]).
    rewrite Dg, fexp_53 by lia. replace (53 + (E + n) - 53 - (E + n)) with 0 by lia.
    unfold shr. cbn [fst snd]. rewrite shr_m_of_loc.
    destruct g as [|pg|pg]; [lia| |lia].
    destruct (Z.leb_spec (E + n) (1024 - 53)); [|lia].
    exists pg, (E + n).
    split; [reflexivity|]. split; [exact Dg|]. split; [unfold n; lia|].
    replace (E + n - (E + D - 53)) with 0 by (unfold n; lia).
    fold n. fold f. rewrite Z.pow_0_r, Z.mul_1_r. exact Hg.
Qed.

(** ** Values *)

Local Open Scope Q_scope.

Lemma Qpow2_pos e : 0 < 2 ^ e.
Proof. apply Qpower_0_lt. reflexivity. Qed.

Lemma Qpow2_add a b : 2 ^ (a + b) == 2 ^ a * 2 ^ b.
Proof. apply Qpower_plus. discriminate. Qed.

Lemma Qpow2_inject n : (0 <= n)%Z -> inject_Z (2 ^ n) == 2 ^ n.
Proof. intros Hn. rewrite Zpower_Qpower by assumption. reflexivity. Qed.

Lemma Qmul_le_r a b t : 0 < t -> a <= b -> a * t <= b * t.
Proof. intros Ht Hab. apply Qmult_le_compat_r; [assumption|apply Qlt_le_weak; assumption]. Qed.

Lemma Qmul_le_r_weak a b t : 0 <= t -> a <= b -> a * t <= b * t.
Proof. intros Ht Hab. apply Qmult_le_compat_r; assumption. Qed.

(** The rounding lemma with rational values. *)
Lemma round_core s M E l :
  let D := Zpos (digits2_pos M) in
  (53 <= D)%Z -> (-1074 <= E + D - 53)%Z -> (E + D - 53 <= 970)%Z ->
  exists m' e' (f t : Q),
    binary_round_aux 53 1024 s (Zpos M) E l = S754_finite s m' e' /\
    Zpos (digits2_pos m') = 53%Z /\
    (E + D - 53 <= e' <= E + D - 52)%Z /\
    2 ^ 52 <= f /\ 0 < t /\
    f * t <= inject_Z (Zpos M) * 2 ^ E /\
    (inject_Z (Zpos M) + 1) * 2 ^ E <= (f + 1) * t /\
    (inject_Z (Zpos m') * 2 ^ e' == f * t \/ inject_Z (Zpos m') * 2 ^ e' == (f + 1) * t).
Proof.
  intros D HD Hlo Hhi.
  destruct (binary_round_aux_floor s M E l HD Hlo Hhi) as (m' & e' & Hr & Hd & He & Hm).
  fold D in He, Hm.
  set (n := (D - 53)%Z) in *. set (fz := (Zpos M / 2 ^ n)%Z) in *.
  assert (Hpn : (0 < 2 ^ n)%Z) by (apply Z.pow_pos_nonneg; lia).
  destruct (digits_bounds M) as [Blo Bhi]. fold D in Blo, Bhi.
  assert (Hfz : (2 ^ 52 <= fz)%Z).
  { unfold fz. apply Z.div_le_lower_bound; [lia|].
    rewrite <- Z.pow_add_r by lia. replace (n + 52)%Z with (D - 1)%Z by (unfold n; lia).
    assumption. }
  assert (Hdiv : (fz * 2 ^ n <= Zpos M < (fz + 1) * 2 ^ n)%Z).
  { unfold fz. pose proof (Z.div_mod (Zpos M) (2 ^ n) ltac:(lia)) as Hdm.
    pose proof (Z.mod_pos_bound (Zpos M) (2 ^ n) Hpn) as Hmb. nia. }
  assert (Ht : 2 ^ (E + n) == 2 ^ n * 2 ^ E).
  { rewrite Z.add_comm. apply Qpow2_add. }
  exists m', e', (inject_Z fz), (2 ^ (E + n)).
  split; [exact Hr|]. split; [exact Hd|]. split; [exact He|].
  split. { rewrite <- (Qpow2_inject 52) by lia. rewrite <- Zle_Qle. exact Hfz. }
  split. { apply Qpow2_pos. }
  split.
  { rewrite Ht, Qmult_assoc. apply Qmul_le_r; [apply Qpow2_pos|].
    rewrite <- Qpow2_inject by lia. rewrite <- inject_Z_mult, <- Zle_Qle. lia. }
  split.
  { rewrite Ht, Qmult_assoc. apply Qmul_le_r; [apply Qpow2_pos|].
    rewrite <- Qpow2_inject by lia.
    change 1 with (inject_Z 1). rewrite <- !inject_Z_plus, <- inject_Z_mult, <- Zle_Qle. lia. }
  assert (Hv : inject_Z (Zpos m') * 2 ^ e' ==
               inject_Z (Zpos m' * 2 ^ (e' - (E + D - 53))) * 2 ^ (E + n)).
  { replace e' with ((e' - (E + D - 53)) + (E + n))%Z at 1 by (unfold n; lia).
    rewrite Qpow2_add. rewrite inject_Z_mult. rewrite Qpow2_inject by lia.
    rewrite Qmult_assoc. reflexivity. }
  destruct Hm as [Hm|Hm]; [left|right]; rewrite Hv, Hm.
  - reflexivity.
  - rewrite inject_Z_plus. reflexivity.
Qed.

(** From the grid to a relative error. *)
Lemma grid_enclosure f t x v :
  2 ^ 52 <= f -> 0 < t -> f * t <= x -> x <= (f + 1) * t ->
  (v == f * t \/ v == (f + 1) * t) ->
  (1 - ulp1) * x <= v <= (1 + ulp1) * x.
Proof.
  intros Hf Ht Hlo Hhi Hv.
  assert (H1 : 2 ^ 52 * t <= x).
  { eapply Qle_trans; [|exact Hlo]. apply Qmul_le_r; assumption. }
  assert (E1 : (f + 1) * t == f * t + t) by ring.
  assert (E2 : (1 - ulp1) * x == x - ulp1 * x) by ring.
  assert (E3 : (1 + ulp1) * x == x + ulp1 * x) by ring.
  assert (E4 : ulp1 * x == x * (1 # 4503599627370496)) by (unfold ulp1; ring).
  assert (E5 : 2 ^ 52 * t == 4503599627370496 * t) by reflexivity.
  rewrite E1 in Hhi, Hv. rewrite E2, E3, E4. rewrite E5 in H1.
  set (ft := f * t) in *. clearbody ft.
  destruct Hv as [Hv|Hv]; rewrite Hv; split; lra.
Qed.

Lemma Qsq_le a b : 0 <= a -> a <= b -> a * a <= b * b.
Proof.
  intros Ha Hab. apply Qle_trans with (a * b).
  - rewrite (Qmult_comm a b). apply Qmul_le_r_weak; assumption.
  - apply Qmul_le_r_weak; [eapply Qle_trans; eassumption|assumption].
Qed.

(** The value of a rounded number, relative to any [x] of the grid
    interval it was rounded from; [k] is a scale. *)
Lemma round_value s M E l k x :
  let D := Zpos (digits2_pos M) in
  (53 <= D)%Z -> (-1074 <= E + D - 53)%Z -> (E + D - 53 <= 970)%Z ->
  0 < k ->
  inject_Z (Zpos M) * 2 ^ E * k <= x -> x <= (inject_Z (Zpos M) + 1) * 2 ^ E * k ->
  exists m' e',
    binary_round_aux 53 1024 s (Zpos M) E l = S754_finite s m' e' /\
    Zpos (digits2_pos m') = 53%Z /\
    (E + D - 53 <= e' <= E + D - 52)%Z /\
    (1 - ulp1) * x <= inject_Z (Zpos m') * 2 ^ e' * k <= (1 + ulp1) * x.
Proof.
  intros D HD Hlo Hhi Hk Hx1 Hx2.
  destruct (round_core s M E l HD Hlo Hhi)
    as (m' & e' & f & t & Hr & Hd & He & Hf & Ht & H1 & H2 & Hv).
  exists m', e'. repeat (split; [assumption|]).
  apply (grid_enclosure f (t * k)).
  - assumption.
  - apply Qmult_lt_0_compat; assumption.
  - eapply Qle_trans; [|exact Hx1]. rewrite Qmult_assoc.
    apply Qmul_le_r; assumption.
  - eapply Qle_trans; [exact Hx2|]. rewrite Qmult_assoc.
    apply Qmul_le_r; assumption.
  - destruct Hv as [Hv|Hv]; [left|right]; rewrite Hv; ring.
Qed.

(** The same for a number given by its square. *)
Lemma round_value_sq s M E l X :
  let D := Zpos (digits2_pos M) in
  (53 <= D)%Z -> (-1074 <= E + D - 53)%Z -> (E + D - 53 <= 970)%Z ->
  (inject_Z (Zpos M) * 2 ^ E) * (inject_Z (Zpos M) * 2 ^ E) <= X ->
  X <= ((inject_Z (Zpos M) + 1) * 2 ^ E) * ((inject_Z (Zpos M) + 1) * 2 ^ E) ->
  exists m' e',
    binary_round_aux 53 1024 s (Zpos M) E l = S754_finite s m' e' /\
    Zpos (digits2_pos m') = 53%Z /\
    (E + D - 53 <= e' <= E + D - 52)%Z /\
    let v := inject_Z (Zpos m') * 2 ^ e' in
    (1 - ulp1) * (1 - ulp1) * X <= v * v <= (1 + ulp1) * (1 + ulp1) * X.
Proof.
  intros D HD Hlo Hhi Hx1 Hx2.
  destruct (round_core s M E l HD Hlo Hhi)
    as (m' & e' & f & t & Hr & Hd & He & Hf & Ht & H1 & H2 & Hv).
  exists m', e'. repeat (split; [assumption|]).
  intros v. fold v in Hv.
  set (a := inject_Z (Zpos M) * 2 ^ E) in *.
  set (b := (inject_Z (Zpos M) + 1) * 2 ^ E) in *.
  set (w := f * t) in *.
  assert (Hf0 : 0 < f).
  { eapply Qlt_le_trans; [|exact Hf]. reflexivity. }
  assert (Hw : 0 < w) by (apply Qmult_lt_0_compat; assumption).
  assert (Htw : t <= ulp1 * w).
  { assert (H : 2 ^ 52 * t <= w) by (apply Qmul_le_r; assumption).
    change (2 ^ 52) with (4503599627370496 # 1) in H. unfold ulp1. lra. }
  set (h := (f + 1) * t) in *.
  assert (Eh : h == w + t) by (unfold h, w; ring).
  assert (Ha0 : 0 <= a).
  { unfold a. apply Qmult_le_0_compat; [|apply Qlt_le_weak, Qpow2_pos].
    change 0 with (inject_Z 0). rewrite <- Zle_Qle. lia. }
  assert (Hww : w * w <= X).
  { eapply Qle_trans; [|exact Hx1]. apply Qsq_le; [lra|assumption]. }
  assert (Hhh : X <= h * h).
  { eapply Qle_trans; [exact Hx2|]. apply Qsq_le; [|assumption].
    eapply Qle_trans; [exact Ha0|]. unfold a, b.
    apply Qmul_le_r; [apply Qpow2_pos|lra]. }
  assert (Hh1 : h * h <= ((1 + ulp1) * w) * ((1 + ulp1) * w)).
  { apply Qsq_le; lra. }
  assert (Hh2 : ((1 - ulp1) * h) * ((1 - ulp1) * h) <= w * w).
  { assert (Hu : 0 <= 1 - ulp1) by (unfold ulp1; lra).
    apply Qsq_le.
    - apply Qmult_le_0_compat; lra.
    - assert (Hu2 : 0 <= ulp1 * ulp1 * w).
      { apply Qmult_le_0_compat; [unfold ulp1; lra|lra]. }
      apply Qle_trans with ((1 - ulp1) * ((1 + ulp1) * w)).
      + rewrite !(Qmult_comm (1 - ulp1)). apply Qmul_le_r_weak; lra.
      + assert (E0 : (1 - ulp1) * ((1 + ulp1) * w) == w - ulp1 * ulp1 * w) by ring.
        rewrite E0. lra. }
  assert (E1 : ((1 + ulp1) * w) * ((1 + ulp1) * w) == (1 + ulp1) * (1 + ulp1) * (w * w)) by ring.
  assert (E2 : ((1 - ulp1) * h) * ((1 - ulp1) * h) == (1 - ulp1) * (1 - ulp1) * (h * h)) by ring.
  rewrite E1 in Hh1. rewrite E2 in Hh2.
  assert (Hc1 : 0 <= (1 - ulp1) * (1 - ulp1)) by (unfold ulp1; lra).
  assert (Hc2 : 1 <= (1 + ulp1) * (1 + ulp1)) by (unfold ulp1; lra).
  assert (Hc3 : (1 - ulp1) * (1 - ulp1) <= 1) by (unfold ulp1; lra).
  assert (HX : 0 <= X).
  { eapply Qle_trans; [|exact Hww]. apply Qlt_le_weak, Qmult_lt_0_compat; assumption. }
  set (c1 := (1 - ulp1) * (1 - ulp1)) in *. set (c2 := (1 + ulp1) * (1 + ulp1)) in *.
  assert (M1 : c1 * X <= c1 * (h * h)).
  { rewrite !(Qmult_comm c1). apply Qmul_le_r_weak; assumption. }
  assert (M2 : c2 * (w * w) <= c2 * X).
  { rewrite !(Qmult_comm c2). apply Qmul_le_r_weak; [lra|assumption]. }
  assert (M3 : c1 * X <= X).
  { rewrite <- (Qmult_1_l X) at 2. apply Qmul_le_r_weak; assumption. }
  assert (M4 : X <= c2 * X).
  { rewrite <- (Qmult_1_l X) at 1. apply Qmul_le_r_weak; assumption. }
  destruct Hv as [Hv|Hv]; rewrite Hv; split; lra.
Qed.

(** ** The four operations *)

Lemma digits_range p lo hi :
  (2 ^ lo <= Zpos p < 2 ^ hi)%Z -> (lo < Zpos (digits2_pos p) <= hi)%Z.
Proof.
  intros [H1 H2]. destruct (digits_bounds p) as [B1 B2].
  set (D := Zpos (digits2_pos p)) in *.
  assert (HD : (0 < D)%Z) by (unfold D; lia).
  assert (Hhi : (0 <= hi)%Z).
  { destruct (Z_lt_le_dec hi 0) as [Hn|Hn]; [|assumption].
    rewrite (Z.pow_neg_r 2 hi Hn) in H2. lia. }
  split.
  - apply (Z.pow_lt_mono_r_iff 2); lia.
  - assert (D - 1 < hi)%Z; [|lia]. apply (Z.pow_lt_mono_r_iff 2); lia.
Qed.

Lemma B2Q_sq s m e :
  B2Q (S754_finite s m e) * B2Q (S754_finite s m e) ==
  inject_Z (Zpos (m * m)) * 2 ^ (e + e).
Proof.
  unfold B2Q. rewrite Qpow2_add, Pos2Z.inj_mul, inject_Z_mult.
  destruct s; cbn [cond_Zopp].
  - change (Z.neg m) with (- Zpos m)%Z. rewrite inject_Z_opp. ring.
  - ring.
Qed.

Lemma B2Q_pos m e : 0 < B2Q (S754_finite false m e).
Proof.
  unfold B2Q. cbn [cond_Zopp]. apply Qmult_lt_0_compat; [|apply Qpow2_pos].
  change 0 with (inject_Z 0). rewrite <- Zlt_Qlt. lia.
Qed.

(** The square of a normal number. *)
Lemma mul_self s m e :
  Zpos (digits2_pos m) = 53%Z -> (-563 <= e <= 458)%Z ->
  exists m' e',
    SFmul 53 1024 (S754_finite s m e) (S754_finite s m e) = S754_finite false m' e' /\
    Zpos (digits2_pos m') = 53%Z /\ (2 * e + 52 <= e' <= 2 * e + 54)%Z /\
    let x := B2Q (S754_finite s m e) in
    (1 - ulp1) * (x * x) <= B2Q (S754_finite false m' e') <= (1 + ulp1) * (x * x).
Proof.
  intros Hd He. cbn [SFmul].
  replace (xorb s s) with false by (destruct s; reflexivity).
  pose proof (digits_bounds m) as Bm. rewrite Hd in Bm.
  change (2 ^ (53 - 1))%Z with 4503599627370496%Z in Bm.
  change (2 ^ 53)%Z with 9007199254740992%Z in Bm.
  assert (HM : (2 ^ 104 <= Zpos (m * m) < 2 ^ 106)%Z).
  { rewrite Pos2Z.inj_mul.
    change (2 ^ 104)%Z with (4503599627370496 * 4503599627370496)%Z.
    change (2 ^ 106)%Z with (9007199254740992 * 9007199254740992)%Z. nia. }
  apply digits_range in HM.
  set (x := B2Q (S754_finite s m e)).
  destruct (round_value false (m * m) (e + e) loc_Exact 1 (x * x))
    as (m' & e' & Hr & Hd' & He' & Hv); try lia.
  - reflexivity.
  - unfold x. rewrite B2Q_sq, Qmult_1_r. apply Qle_refl.
  - unfold x. rewrite B2Q_sq, !Qmult_1_r.
    apply Qmul_le_r; [apply Qpow2_pos|lra].
  - exists m', e'. split; [exact Hr|]. split; [exact Hd'|]. split; [lia|].
    cbv zeta. change (B2Q (S754_finite false m' e')) with (inject_Z (Zpos m') * 2 ^ e').
    rewrite Qmult_1_r in Hv. exact Hv.
Qed.

Lemma Qscale m e ez :
  (ez <= e)%Z -> inject_Z m * 2 ^ e == inject_Z (m * 2 ^ (e - ez)) * 2 ^ ez.
Proof.
  intros Hle. replace e with ((e - ez) + ez)%Z at 1 by lia.
  rewrite Qpow2_add, inject_Z_mult, Qpow2_inject by lia. ring.
Qed.

(** The sum of two positive normal numbers. *)
Lemma add_pos mx ex my ey :
  Zpos (digits2_pos mx) = 53%Z -> Zpos (digits2_pos my) = 53%Z ->
  (-1074 <= Z.max ex ey)%Z -> (Z.max ex ey <= 969)%Z ->
  exists m' e',
    SFadd 53 1024 (S754_finite false mx ex) (S754_finite false my ey) =
      S754_finite false m' e' /\
    Zpos (digits2_pos m') = 53%Z /\ (Z.max ex ey <= e' <= Z.max ex ey + 2)%Z /\
    let x := B2Q (S754_finite false mx ex) + B2Q (S754_finite false my ey) in
    (1 - ulp1) * x <= B2Q (S754_finite false m' e') <= (1 + ulp1) * x.
Proof.
  intros Hdx Hdy Hlo Hhi. rewrite SFadd_finite.
  set (ez := Z.min ex ey). set (g := (Z.max ex ey - ez)%Z).
  rewrite !shl_align_le by (unfold ez; lia). cbn [fst cond_Zopp].
  set (M := (pshl mx (ex - ez) + pshl my (ey - ez))%positive).
  change (binary_normalize 53 1024
            (Zpos (pshl mx (ex - ez)) + Zpos (pshl my (ey - ez))) ez false)
    with (binary_round 53 1024 false M ez).
  assert (HM : Zpos M = (Zpos mx * 2 ^ (ex - ez) + Zpos my * 2 ^ (ey - ez))%Z).
  { unfold M. rewrite Pos2Z.inj_add, !pshl_spec by (unfold ez; lia). reflexivity. }
  pose proof (digits_bounds mx) as Bx. rewrite Hdx in Bx.
  pose proof (digits_bounds my) as By. rewrite Hdy in By.
  change (2 ^ (53 - 1))%Z with 4503599627370496%Z in Bx, By.
  change (2 ^ 53)%Z with 9007199254740992%Z in Bx, By.
  assert (Hg : (0 <= g)%Z) by (unfold g, ez; lia).
  assert (HB : (2 ^ (52 + g) <= Zpos M < 2 ^ (54 + g))%Z).
  { rewrite !Z.pow_add_r by lia.
    change (2 ^ 52)%Z with 4503599627370496%Z.
    change (2 ^ 54)%Z with (2 * 9007199254740992)%Z.
    rewrite HM.
    assert (Hp : (0 < 2 ^ g)%Z) by (apply Z.pow_pos_nonneg; lia).
    destruct (Z.le_ge_cases ex ey) as [Hle|Hle].
    - replace (ex - ez)%Z with 0%Z by (unfold ez; lia).
      replace (ey - ez)%Z with g by (unfold g, ez; lia).
      change (2 ^ 0)%Z with 1%Z. nia.
    - replace (ey - ez)%Z with 0%Z by (unfold ez; lia).
      replace (ex - ez)%Z with g by (unfold g, ez; lia).
      change (2 ^ 0)%Z with 1%Z. nia. }
  apply digits_range in HB.
  unfold binary_round.
  rewrite fexp_53 by (unfold g, ez in *; lia).
  rewrite shl_align_ge by lia.
  set (x := B2Q (S754_finite false mx ex) + B2Q (S754_finite false my ey)).
  assert (Hx : x == inject_Z (Zpos M) * 2 ^ ez).
  { unfold x, B2Q. cbn [cond_Zopp].
    rewrite (Qscale (Zpos mx) ex ez), (Qscale (Zpos my) ey ez) by (unfold ez; lia).
    rewrite HM, inject_Z_plus. ring. }
  destruct (round_value false M ez loc_Exact 1 x)
    as (m' & e' & Hr & Hd' & He' & Hv); try (unfold g, ez in *; lia).
  - reflexivity.
  - rewrite Hx, Qmult_1_r. apply Qle_refl.
  - rewrite Hx, !Qmult_1_r. apply Qmul_le_r; [apply Qpow2_pos|lra].
  - exists m', e'. split; [exact Hr|]. split; [exact Hd'|].
    split; [unfold g, ez in *; lia|].
    cbv zeta. change (B2Q (S754_finite false m' e')) with (inject_Z (Zpos m') * 2 ^ e').
    rewrite Qmult_1_r in Hv. exact Hv.
Qed.

(** The square root of a positive normal number. *)
Lemma sqrt_pos m e :
  Zpos (digits2_pos m) = 53%Z -> (-1000 <= e <= 1000)%Z ->
  exists m' e',
    SFsqrt 53 1024 (S754_finite false m e) = S754_finite false m' e' /\
    Zpos (digits2_pos m') = 53%Z /\ (Z.div2 e - 26 <= e' <= Z.div2 e - 25)%Z /\
    let v := B2Q (S754_finite false m' e') in
    let X := B2Q (S754_finite false m e) in
    (1 - ulp1) * (1 - ulp1) * X <= v * v <= (1 + ulp1) * (1 + ulp1) * X.
Proof.
  intros Hd He. cbn [SFsqrt]. unfold SFsqrt_core_binary.
  rewrite Zdigits2_pos, Hd.
  pose proof (Z.div2_odd e) as Hk. set (k := Z.div2 e) in *.
  assert (Hb : (0 <= Z.b2z (Z.odd e) <= 1)%Z) by (destruct (Z.odd e); simpl; lia).
  assert (E1 : Z.div2 (53 + e + 1) = (k + 27)%Z).
  { rewrite Z.div2_div. replace (53 + e + 1)%Z with (e + 27 * 2)%Z by lia.
    rewrite Z.div_add by lia. unfold k. rewrite Z.div2_div. reflexivity. }
  rewrite E1, fexp_53 by lia.
  replace (Z.min (k + 27 - 53) k) with (k - 26)%Z by lia.
  set (s := (e - 2 * (k - 26))%Z).
  assert (Hs : (52 <= s <= 53)%Z) by (unfold s; lia).
  assert (Es : e = (s + ((k - 26) + (k - 26)))%Z) by (unfold s; lia).
  clearbody s.
  destruct s as [|sp|sp]; [lia| |lia].
  rewrite Z.shiftl_mul_pow2 by lia.
  set (m2 := (Zpos m * 2 ^ Zpos sp)%Z).
  pose proof (digits_bounds m) as Bm. rewrite Hd in Bm.
  change (2 ^ (53 - 1))%Z with 4503599627370496%Z in Bm.
  change (2 ^ 53)%Z with 9007199254740992%Z in Bm.
  assert (Hm2 : (2 ^ 104 <= m2 < 2 ^ 106)%Z).
  { unfold m2. assert (Hc : Zpos sp = 52%Z \/ Zpos sp = 53%Z) by lia.
    destruct Hc as [Hc|Hc]; rewrite Hc.
    - change (2 ^ 104)%Z with (4503599627370496 * 2 ^ 52)%Z.
      change (2 ^ 106)%Z with (4 * 4503599627370496 * 2 ^ 52)%Z.
      assert (0 < 2 ^ 52)%Z by reflexivity. nia.
    - change (2 ^ 104)%Z with (2251799813685248 * 2 ^ 53)%Z.
      change (2 ^ 106)%Z with (9007199254740992 * 2 ^ 53)%Z.
      assert (0 < 2 ^ 53)%Z by reflexivity. nia. }
  pose proof (Z.sqrtrem_spec m2 ltac:(lia)) as Hsq.
  destruct (Z.sqrtrem m2) as [q r]. destruct Hsq as [Hq Hr].
  set (l := if (r =? 0)%Z then loc_Exact else loc_Inexact (if (r <=? q)%Z then Lt else Gt)).
  clearbody l.
  change (2 ^ 104)%Z with (4503599627370496 * 4503599627370496)%Z in Hm2.
  change (2 ^ 106)%Z with (9007199254740992 * 9007199254740992)%Z in Hm2.
  assert (Hq52 : (4503599627370496 <= q < 9007199254740992)%Z) by nia.
  destruct q as [|qp|qp]; [lia| |lia].
  assert (Hdq : Zpos (digits2_pos qp) = 53%Z) by (apply digits_unique; exact Hq52).
  set (X := B2Q (S754_finite false m e)).
  assert (HX : X == inject_Z m2 * (2 ^ (k - 26) * 2 ^ (k - 26))).
  { unfold X, B2Q, m2. cbn [cond_Zopp]. rewrite Es at 1.
    rewrite !Qpow2_add, inject_Z_mult, Qpow2_inject by lia. ring. }
  assert (Ht : 0 < 2 ^ (k - 26) * 2 ^ (k - 26)).
  { apply Qmult_lt_0_compat; apply Qpow2_pos. }
  destruct (round_value_sq false qp (k - 26) l X)
    as (m' & e' & Hr' & Hd' & He' & Hv); try lia.
  - rewrite HX.
    assert (E : inject_Z (Zpos qp) * 2 ^ (k - 26) * (inject_Z (Zpos qp) * 2 ^ (k - 26)) ==
                inject_Z (Zpos qp * Zpos qp) * (2 ^ (k - 26) * 2 ^ (k - 26))).
    { rewrite inject_Z_mult. ring. }
    rewrite E. apply Qmul_le_r; [exact Ht|]. rewrite <- Zle_Qle. lia.
  - rewrite HX.
    assert (E : (inject_Z (Zpos qp) + 1) * 2 ^ (k - 26) * ((inject_Z (Zpos qp) + 1) * 2 ^ (k - 26)) ==
                inject_Z ((Zpos qp + 1) * (Zpos qp + 1)) * (2 ^ (k - 26) * 2 ^ (k - 26))).
    { rewrite inject_Z_mult, inject_Z_plus. change (inject_Z 1) with 1. ring. }
    rewrite E. apply Qmul_le_r; [exact Ht|]. rewrite <- Zle_Qle. lia.
  - exists m', e'. split; [exact Hr'|]. split; [exact Hd'|]. split; [lia|].
    exact Hv.
Qed.

Lemma B2Q_sq_abs s m e :
  B2Q (S754_finite s m e) * B2Q (S754_finite s m e) ==
  B2Q (S754_finite false m e) * B2Q (S754_finite false m e).
Proof. rewrite !B2Q_sq. reflexivity. Qed.

(** A normal number divided by a positive normal number. *)
Lemma div_pos s m1 e1 m2 e2 :
  Zpos (digits2_pos m1) = 53%Z -> Zpos (digits2_pos m2) = 53%Z ->
  (-1021 <= e1 - e2 <= 1022)%Z ->
  exists m' e',
    SFdiv 53 1024 (S754_finite s m1 e1) (S754_finite false m2 e2) =
      S754_finite s m' e' /\
    Zpos (digits2_pos m') = 53%Z /\ (e1 - e2 - 53 <= e' <= e1 - e2 - 51)%Z /\
    let v := B2Q (S754_finite s m' e') in
    let x := B2Q (S754_finite s m1 e1) in
    let n := B2Q (S754_finite false m2 e2) in
    (1 - ulp1) * (1 - ulp1) * (x * x) <= (v * v) * (n * n) <=
    (1 + ulp1) * (1 + ulp1) * (x * x).
Proof.
  intros Hd1 Hd2 He. cbn [SFdiv]. unfold SFdiv_core_binary.
  rewrite !Zdigits2_pos, Hd1, Hd2.
  replace (53 + e1 - (53 + e2))%Z with (e1 - e2)%Z by lia.
  rewrite fexp_53 by lia.
  replace (Z.min (e1 - e2 - 53) (e1 - e2)) with (e1 - e2 - 53)%Z by lia.
  replace (e1 - e2 - (e1 - e2 - 53))%Z with 53%Z by lia.
  cbv beta iota. rewrite Z.shiftl_mul_pow2 by lia.
  rewrite xorb_false_r.
  pose proof (digits_bounds m1) as B1. rewrite Hd1 in B1.
  pose proof (digits_bounds m2) as B2. rewrite Hd2 in B2.
  change (2 ^ (53 - 1))%Z with 4503599627370496%Z in B1, B2.
  change (2 ^ 53)%Z with 9007199254740992%Z in B1, B2 |- *.
  pose proof (Z_div_mod (Zpos m1 * 9007199254740992) (Zpos m2) ltac:(lia)) as Hdm.
  destruct (Z.div_eucl (Zpos m1 * 9007199254740992) (Zpos m2)) as [q r].
  destruct Hdm as [Hq Hr].
  set (l := new_location (Zpos m2) r). clearbody l.
  assert (Hq52 : (2 ^ 52 <= q < 2 ^ 54)%Z).
  { change (2 ^ 52)%Z with 4503599627370496%Z.
    change (2 ^ 54)%Z with (4 * 4503599627370496)%Z. nia. }
  destruct q as [|qp|qp]; [simpl in Hq52; lia| |lia].
  apply digits_range in Hq52.
  set (a := B2Q (S754_finite false m1 e1)).
  set (n := B2Q (S754_finite false m2 e2)).
  assert (Hn : 0 < n) by apply B2Q_pos.
  assert (Ha : 0 < a) by apply B2Q_pos.
  assert (En : 2 ^ (e1 - e2 - 53) * n == inject_Z (Zpos m2) * 2 ^ (e1 - 53)).
  { unfold n, B2Q. cbn [cond_Zopp].
    replace (e1 - 53)%Z with ((e1 - e2 - 53) + e2)%Z by lia.
    rewrite Qpow2_add. ring. }
  assert (Ea : a == inject_Z (Zpos m1 * 9007199254740992) * 2 ^ (e1 - 53)).
  { unfold a, B2Q. cbn [cond_Zopp].
    rewrite (Qscale (Zpos m1) e1 (e1 - 53)) by lia.
    replace (e1 - (e1 - 53))%Z with 53%Z by lia. reflexivity. }
  destruct (round_value s qp (e1 - e2 - 53) l n a)
    as (m' & e' & Hr' & Hd' & He' & Hv); try lia.
  - exact Hn.
  - rewrite <- Qmult_assoc, En, Ea, Qmult_assoc.
    apply Qmul_le_r; [apply Qpow2_pos|].
    rewrite <- inject_Z_mult, <- Zle_Qle. lia.
  - rewrite <- Qmult_assoc, En, Ea, Qmult_assoc.
    apply Qmul_le_r; [apply Qpow2_pos|].
    change 1 with (inject_Z 1). rewrite <- inject_Z_plus, <- inject_Z_mult, <- Zle_Qle. lia.
  - exists m', e'. split; [exact Hr'|]. split; [exact Hd'|]. split; [lia|].
    cbv zeta. rewrite (B2Q_sq_abs s m' e'), (B2Q_sq_abs s m1 e1). fold a.
    change (B2Q (S754_finite false m' e')) with (inject_Z (Zpos m') * 2 ^ e').
    set (w := inject_Z (Zpos m') * 2 ^ e') in *.
    destruct Hv as [Hv1 Hv2].
    assert (Hu : 0 <= 1 - ulp1) by (unfold ulp1; lra).
    assert (H1 : ((1 - ulp1) * a) * ((1 - ulp1) * a) <= (w * n) * (w * n)).
    { apply Qsq_le; [|assumption]. apply Qmult_le_0_compat; lra. }
    assert (H2 : (w * n) * (w * n) <= ((1 + ulp1) * a) * ((1 + ulp1) * a)).
    { apply Qsq_le; [|assumption].
      eapply Qle_trans; [|exact Hv1]. apply Qmult_le_0_compat; lra. }
    assert (E1 : (1 - ulp1) * (1 - ulp1) * (a * a) == ((1 - ulp1) * a) * ((1 - ulp1) * a)) by ring.
    assert (E2 : (1 + ulp1) * (1 + ulp1) * (a * a) == ((1 + ulp1) * a) * ((1 + ulp1) * a)) by ring.
    assert (E3 : w * w * (n * n) == (w * n) * (w * n)) by ring.
    rewrite E1, E2, E3. split; assumption.
Qed.

(** ** Zeros included *)

Lemma in_range_finite lo hi s m e :
  in_range lo hi (S754_finite s m e) = true <->
  Zpos (digits2_pos m) = 53%Z /\ (lo <= e <= hi)%Z.
Proof.
  unfold in_range. rewrite !andb_true_iff, Z.eqb_eq, !Z.leb_le. tauto.
Qed.

Lemma in_range_weaken lo hi lo' hi' x :
  (lo' <= lo)%Z -> (hi <= hi')%Z -> in_range lo hi x = true -> in_range lo' hi' x = true.
Proof.
  intros Hlo Hhi. destruct x as [s| | |s m e]; try (intros; assumption).
  rewrite !in_range_finite. lia.
Qed.

Lemma B2Q_neg m e : B2Q (S754_finite true m e) == - B2Q (S754_finite false m e).
Proof.
  unfold B2Q. cbn [cond_Zopp]. change (Z.neg m) with (- Zpos m)%Z.
  rewrite inject_Z_opp. ring.
Qed.

Lemma nonneg_finite s m e : 0 <= B2Q (S754_finite s m e) -> s = false.
Proof.
  destruct s; [|reflexivity]. intros H. rewrite B2Q_neg in H.
  pose proof (B2Q_pos m e). lra.
Qed.

Lemma B2Q_sq_pos s m e : 0 < B2Q (S754_finite s m e) * B2Q (S754_finite s m e).
Proof.
  rewrite B2Q_sq_abs. apply Qmult_lt_0_compat; apply B2Q_pos.
Qed.

Lemma B2Q_sq_nonneg x : 0 <= B2Q x * B2Q x.
Proof.
  destruct x as [s| | |s m e]; try apply Qle_refl.
  apply Qlt_le_weak, B2Q_sq_pos.
Qed.

(** [x * x]. *)
Lemma dmul_self x :
  in_range (-400) 400 x = true ->
  in_range (-748) 854 (dmul x x) = true /\
  (1 - ulp1) * (B2Q x * B2Q x) <= B2Q (dmul x x) <= (1 + ulp1) * (B2Q x * B2Q x).
Proof.
  destruct x as [s| | |s m e]; try discriminate.
  - intros _. split; [reflexivity|]. simpl. unfold ulp1. lra.
  - rewrite in_range_finite. intros [Hd He]. unfold dmul.
    destruct (mul_self s m e Hd ltac:(lia)) as (m' & e' & Hr & Hd' & He' & Hv).
    rewrite Hr. split; [apply in_range_finite; lia|exact Hv].
Qed.

(** [x + y] for non-negative [x] and [y]. *)
Lemma dadd_nonneg lo hi x y :
  (-1074 <= lo)%Z -> (hi <= 969)%Z ->
  in_range lo hi x = true -> 0 <= B2Q x ->
  in_range lo hi y = true -> 0 <= B2Q y ->
  in_range lo (hi + 2) (dadd x y) = true /\
  (1 - ulp1) * (B2Q x + B2Q y) <= B2Q (dadd x y) <= (1 + ulp1) * (B2Q x + B2Q y).
Proof.
  intros Hlo Hhi Hx Hx0 Hy Hy0.
  destruct x as [sx| | |sx mx ex]; try discriminate;
    destruct y as [sy| | |sy my ey]; try discriminate.
  - split; [destruct sx, sy; reflexivity|].
    assert (E : B2Q (dadd (S754_zero sx) (S754_zero sy)) == 0)
      by (destruct sx, sy; reflexivity).
    rewrite E. simpl. unfold ulp1. lra.
  - change (dadd (S754_zero sx) (S754_finite sy my ey)) with (S754_finite sy my ey).
    split; [eapply in_range_weaken; [| |exact Hy]; lia|].
    change (B2Q (S754_zero sx)) with 0.
    set (Y := B2Q (S754_finite sy my ey)) in *. unfold ulp1. lra.
  - change (dadd (S754_finite sx mx ex) (S754_zero sy)) with (S754_finite sx mx ex).
    split; [eapply in_range_weaken; [| |exact Hx]; lia|].
    change (B2Q (S754_zero sy)) with 0.
    set (X := B2Q (S754_finite sx mx ex)) in *. unfold ulp1. lra.
  - apply nonneg_finite in Hx0, Hy0. subst sx sy.
    apply in_range_finite in Hx, Hy. destruct Hx as [Hdx Hex], Hy as [Hdy Hey].
    unfold dadd.
    destruct (add_pos mx ex my ey Hdx Hdy ltac:(lia) ltac:(lia))
      as (m' & e' & Hr & Hd' & He' & Hv).
    rewrite Hr. split; [apply in_range_finite; lia|exact Hv].
Qed.

Lemma div2_mono a b : (a <= b)%Z -> (Z.div2 a <= Z.div2 b)%Z.
Proof. intros H. rewrite !Z.div2_div. apply Z.div_le_mono; lia. Qed.

(** [sqrt(x)] for a positive [x]. *)
Lemma dsqrt_pos x :
  in_range (-748) 858 x = true -> 0 < B2Q x ->
  exists m e,
    dsqrt x = S754_finite false m e /\
    Zpos (digits2_pos m) = 53%Z /\ (-400 <= e <= 404)%Z /\
    (1 - ulp1) * (1 - ulp1) * B2Q x <= B2Q (dsqrt x) * B2Q (dsqrt x) <=
    (1 + ulp1) * (1 + ulp1) * B2Q x.
Proof.
  intros Hx Hx0. destruct x as [sx| | |sx mx ex]; try discriminate.
  assert (sx = false) by (apply (nonneg_finite sx mx ex); lra). subst sx.
  apply in_range_finite in Hx. destruct Hx as [Hd He]. unfold dsqrt.
  destruct (sqrt_pos mx ex Hd ltac:(lia)) as (m' & e' & Hr & Hd' & He' & Hv).
  exists m', e'. rewrite Hr. split; [reflexivity|]. split; [exact Hd'|].
  split; [|exact Hv].
  pose proof (div2_mono (-748) ex ltac:(lia)) as H1.
  pose proof (div2_mono ex 858 ltac:(lia)) as H2.
  change (Z.div2 (-748)) with (-374)%Z in H1. change (Z.div2 858) with 429%Z in H2.
  lia.
Qed.

(** [x / n] for a positive normal [n]. *)
Lemma ddiv_pos x m e :
  in_range (-400) 400 x = true ->
  Zpos (digits2_pos m) = 53%Z -> (-400 <= e <= 404)%Z ->
  let n := S754_finite false m e in
  in_range (-857) 749 (ddiv x n) = true /\
  (1 - ulp1) * (1 - ulp1) * (B2Q x * B2Q x) <=
    (B2Q (ddiv x n) * B2Q (ddiv x n)) * (B2Q n * B2Q n) <=
  (1 + ulp1) * (1 + ulp1) * (B2Q x * B2Q x).
Proof.
  intros Hx Hd He n. destruct x as [sx| | |sx mx ex]; try discriminate.
  - split; [reflexivity|]. simpl. unfold ulp1. lra.
  - apply in_range_finite in Hx. destruct Hx as [Hdx Hex]. unfold ddiv, n.
    destruct (div_pos sx mx ex m e Hdx Hd ltac:(lia)) as (m' & e' & Hr & Hd' & He' & Hv).
    rewrite Hr. split; [apply in_range_finite; lia|exact Hv].
Qed.

(** ** Normalising a vector *)

Lemma in_range_sq_pos lo hi x :
  in_range lo hi x = true -> is_zero x = false -> 0 < B2Q x * B2Q x.
Proof.
  destruct x as [s| | |s m e]; try discriminate. intros _ _. apply B2Q_sq_pos.
Qed.

(** A non-zero vector divided by its norm. *)
Lemma normalize_nearly_unit d :
  in_range (-400) 400 (v3_0 d) = true ->
  in_range (-400) 400 (v3_1 d) = true ->
  in_range (-400) 400 (v3_2 d) = true ->
  is_zero (v3_0 d) && is_zero (v3_1 d) && is_zero (v3_2 d) = false ->
  let r := v3_div d (norm_2 d) in
  (in_range (-857) 749 (v3_0 r) = true /\
   in_range (-857) 749 (v3_1 r) = true /\
   in_range (-857) 749 (v3_2 r) = true) /\
  1 - unit_tol <= sq_norm r <= 1 + unit_tol.
Proof.
  destruct d as [a b c]. cbn [v3_0 v3_1 v3_2]. intros Ha Hb Hc Hnz.
  unfold v3_div, norm_2, sq_norm. cbn [v3_0 v3_1 v3_2].
  pose proof (B2Q_sq_nonneg a) as A0. pose proof (B2Q_sq_nonneg b) as B0.
  pose proof (B2Q_sq_nonneg c) as C0.
  assert (HS : 0 < B2Q a * B2Q a + B2Q b * B2Q b + B2Q c * B2Q c).
  { apply andb_false_iff in Hnz. destruct Hnz as [Hnz|Hnz];
      [apply andb_false_iff in Hnz; destruct Hnz as [Hnz|Hnz]|].
    - pose proof (in_range_sq_pos _ _ a Ha Hnz). lra.
    - pose proof (in_range_sq_pos _ _ b Hb Hnz). lra.
    - pose proof (in_range_sq_pos _ _ c Hc Hnz). lra. }
  destruct (dmul_self a Ha) as [Ra Va]. destruct (dmul_self b Hb) as [Rb Vb].
  destruct (dmul_self c Hc) as [Rc Vc].
  set (A := B2Q a * B2Q a) in *. set (B := B2Q b * B2Q b) in *.
  set (C := B2Q c * B2Q c) in *.
  set (qa := dmul a a) in *. set (qb := dmul b b) in *. set (qc := dmul c c) in *.
  unfold ulp1 in Va, Vb, Vc.
  destruct (dadd_nonneg (-748) 854 qa qb) as [R1 V1]; try assumption; try lia; try lra.
  set (s1 := dadd qa qb) in *. cbn [Z.add Pos.add Pos.succ] in R1.
  unfold ulp1 in V1.
  destruct (dadd_nonneg (-748) 856 s1 qc) as [R2 V2];
    try assumption; try lia; try lra.
  { eapply in_range_weaken; [| |exact Rc]; lia. }
  set (s2 := dadd s1 qc) in *.
  unfold ulp1 in V2.
  destruct (dsqrt_pos s2) as (mn & en & Hn & Hdn & Hen & Vn); [exact R2|lra|].
  rewrite Hn in Vn |- *. set (n := S754_finite false mn en) in *.
  destruct (ddiv_pos a mn en Ha Hdn Hen) as [Ka Wa].
  destruct (ddiv_pos b mn en Hb Hdn Hen) as [Kb Wb].
  destruct (ddiv_pos c mn en Hc Hdn Hen) as [Kc Wc].
  fold n in Ka, Kb, Kc, Wa, Wb, Wc. fold A in Wa. fold B in Wb. fold C in Wc.
  split; [split; [exact Ka|split; [exact Kb|exact Kc]]|].
  assert (HN : 0 < B2Q n * B2Q n) by apply B2Q_sq_pos.
  set (N := B2Q n * B2Q n) in *.
  set (ra := B2Q (ddiv a n) * B2Q (ddiv a n)) in *.
  set (rb := B2Q (ddiv b n) * B2Q (ddiv b n)) in *.
  set (rc := B2Q (ddiv c n) * B2Q (ddiv c n)) in *.
  assert (E : (ra + rb + rc) * N == ra * N + rb * N + rc * N) by ring.
  set (ta := ra * N) in *. set (tb := rb * N) in *. set (tc := rc * N) in *.
  set (S1 := B2Q s1) in *. set (S2 := B2Q s2) in *.
  set (QA := B2Q qa) in *. set (QB := B2Q qb) in *. set (QC := B2Q qc) in *.
  unfold ulp1 in Vn, Wa, Wb, Wc.
  clearbody ta tb tc S1 S2 QA QB QC N A B C.
  split; apply (Qmult_le_r _ _ N HN); rewrite E; unfold unit_tol; lra.
Qed.

End CsmFacts.

(* ===================================================================== *)
(** * Part IX: the CSM camera wrapper, claim by claim                     *)
(* ===================================================================== *)

Module CsmClaims.

Import Csm CsmFacts.
Local Open Scope Z_scope.

(** C9 (as amended).  When the sensor model accepts the pixel, with
    sensor position [ctr] and ground point [gp], [pixel_to_vector]
    returns [d / norm_2 d] for [d = gp - ctr], both computed in
    binary64: the direction from the camera centre (what
    [camera_center] returns) to the ground point.  If the components of
    [d] are zero or normal numbers with exponent in [-400, 400]
    (magnitude between [2^-348] and [2^453]) and [d] is not the zero
    vector, every component of the result is a zero or a normal number,
    and the square of its Euclidean norm, taken exactly, is within
    [2^-49] of 1. *)
Theorem C9_pixel_to_vector_nearly_unit c model pix ctr gp :
  m_csm_model c = Some model ->
  getSensorPosition model (toCsmPixel pix) = Some ctr ->
  imageToGround model (toCsmPixel pix) d_zero (m_desired_precision c) = Some gp ->
  let d := v3_sub (ecefCoordToVector gp) (ecefCoordToVector ctr) in
  in_range (-400) 400 (v3_0 d) = true ->
  in_range (-400) 400 (v3_1 d) = true ->
  in_range (-400) 400 (v3_2 d) = true ->
  is_zero (v3_0 d) && is_zero (v3_1 d) && is_zero (v3_2 d) = false ->
  exists r,
    pixel_to_vector c pix = inr r /\
    camera_center c pix = inr (ecefCoordToVector ctr) /\
    r = v3_div d (norm_2 d) /\
    (in_range (-857) 749 (v3_0 r) = true /\
     in_range (-857) 749 (v3_1 r) = true /\
     in_range (-857) 749 (v3_2 r) = true) /\
    (1 - unit_tol <= sq_norm r <= 1 + unit_tol)%Q.
Proof.
  intros Hm Hctr Hgp d H0 H1 H2 Hnz.
  exists (v3_div d (norm_2 d)).
  split.
  { unfold pixel_to_vector, throw_if_not_init. rewrite Hm. cbn [bind].
    change (vectorToImageCoord (v2_add pix ASP_TO_CSM_SHIFT)) with (toCsmPixel pix).
    rewrite Hctr. cbn [csm_call bind]. rewrite Hgp. reflexivity. }
  split.
  { unfold camera_center, throw_if_not_init. rewrite Hm. cbn [bind].
    change (vectorToImageCoord (v2_add pix ASP_TO_CSM_SHIFT)) with (toCsmPixel pix).
    rewrite Hctr. reflexivity. }
  split; [reflexivity|].
  exact (normalize_nearly_unit d H0 H1 H2 Hnz).
Qed.

(** C9, witness: the pixel (100.5, 20) of the half-pixel sensor model,
    seen from 1000 above the origin. *)
Lemma C9_witness :
  let d := V3 (double_of 201 (-1)) (double_of_Z 20) (double_of_Z (-1000)) in
  exists r,
    pixel_to_vector shift_camera (grid_pixel 1 201 40) = inr r /\
    camera_center shift_camera (grid_pixel 1 201 40) =
      inr (V3 d_zero d_zero (double_of_Z 1000)) /\
    r = v3_div d (norm_2 d) /\
    (in_range (-857) 749 (v3_0 r) = true /\
     in_range (-857) 749 (v3_1 r) = true /\
     in_range (-857) 749 (v3_2 r) = true) /\
    (1 - unit_tol <= sq_norm r <= 1 + unit_tol)%Q.
Proof.
  apply (C9_pixel_to_vector_nearly_unit shift_camera shift_model (grid_pixel 1 201 40)
           {| x := d_zero; y := d_zero; z := double_of_Z 1000 |}
           {| x := double_of 201 (-1); y := double_of_Z 20; z := d_zero |});
    [reflexivity|reflexivity|vm_compute; reflexivity|vm_compute; reflexivity
    |vm_compute; reflexivity|vm_compute; reflexivity|vm_compute; reflexivity].
Defined.

(** C9, counterexample: at the pixel (1000, 0) of the same camera the
    direction is (1000, 0, -1000) / norm; the returned vector has both
    non-zero components equal to 0.7071067811865475 in magnitude, the
    sum of their squares is less than 1, and [norm_2] of the result
    evaluates to 0.9999999999999999.  (And a vector of zeros is
    normalised to a vector of NaN.) *)
Lemma C9_norm_not_exactly_one :
  let r := V3 (S754_finite false 6369051672525772 (-53)) (S754_zero false)
              (S754_finite true 6369051672525772 (-53)) in
  pixel_to_vector shift_camera (grid_pixel 1 2000 0) = inr r /\
  (sq_norm r < 1)%Q /\
  norm_2 r = S754_finite false 9007199254740991 (-53) /\
  SFeqb (norm_2 r) (double_of_Z 1) = false /\
  v3_div Vector3_zero (norm_2 Vector3_zero) = V3 S754_nan S754_nan S754_nan.
Proof.
  split; [vm_compute; reflexivity|]. split; [vm_compute; reflexivity|].
  split; [vm_compute; reflexivity|]. split; vm_compute; reflexivity.
Qed.

(** Adding the half-pixel shift to a coordinate [k / 2^g] and taking it
    away again is exact, as long as [k / 2^g + 1/2] fits in 53 bits on
    the same grid. *)
Lemma shift_roundtrip g k :
  1 <= g -> Z.abs k + 2 ^ (g - 1) < 2 ^ 53 ->
  dsub (dadd (double_of k (- g)) d_half) d_half = double_of k (- g).
Proof.
  intros Hg Hk.
  assert (Hp : 0 < 2 ^ (g - 1)) by (apply Z.pow_pos_nonneg; lia).
  assert (Hg53 : g <= 53).
  { destruct (Z.le_gt_cases g 53) as [Hle|Hgt]; [assumption|].
    assert (2 ^ 53 <= 2 ^ (g - 1)) by (apply Z.pow_le_mono_r; lia). lia. }
  unfold dsub, dadd, d_half. rewrite <- (half_on_grid g) by lia.
  rewrite add_on_grid by lia. rewrite sub_on_grid by lia.
  f_equal. lia.
Qed.

(** C10 (as amended).  For a pixel whose coordinates are multiples of
    [2^-g] ([g >= 1]; [g = 1] gives the integer and half-integer
    positions) and for which the shifted coordinates still fit in 53
    bits, [fromCsmPixel (toCsmPixel p) = p] holds exactly.  For every
    pixel, [camera_center] and [pixel_to_vector] query the sensor model
    at [toCsmPixel pix], and [point_to_pixel] returns [fromCsmPixel] of
    the image coordinate computed by the sensor model; so a ground
    point that the sensor model images at [toCsmPixel p], for [p] on the
    grid, is reported at [p]. *)
Theorem C10_pixel_convention g kx ky :
  1 <= g -> Z.abs kx + 2 ^ (g - 1) < 2 ^ 53 -> Z.abs ky + 2 ^ (g - 1) < 2 ^ 53 ->
  fromCsmPixel (toCsmPixel (grid_pixel g kx ky)) = grid_pixel g kx ky /\
  (forall c pix,
     camera_center c pix =
     try! model := throw_if_not_init c in
     try! ecef := csm_call (getSensorPosition model (toCsmPixel pix)) in
     inr (ecefCoordToVector ecef)) /\
  (forall c pix,
     pixel_to_vector c pix =
     try! model := throw_if_not_init c in
     try! ctr := csm_call (getSensorPosition model (toCsmPixel pix)) in
     try! groundPt := csm_call (imageToGround model (toCsmPixel pix) d_zero
                                              (m_desired_precision c)) in
     let dir0 := v3_sub (ecefCoordToVector groundPt) (ecefCoordToVector ctr) in
     inr (v3_div dir0 (norm_2 dir0))) /\
  (forall c point,
     point_to_pixel c point =
     try! model := throw_if_not_init c in
     try! imagePt := csm_call (groundToImage model (vectorToEcefCoord point)
                                             (m_desired_precision c)) in
     inr (fromCsmPixel imagePt)) /\
  (forall c model point,
     m_csm_model c = Some model ->
     groundToImage model (vectorToEcefCoord point) (m_desired_precision c) =
       Some (toCsmPixel (grid_pixel g kx ky)) ->
     point_to_pixel c point = inr (grid_pixel g kx ky)).
Proof.
  intros Hg Hx Hy.
  assert (Hrt : fromCsmPixel (toCsmPixel (grid_pixel g kx ky)) = grid_pixel g kx ky).
  { unfold fromCsmPixel, toCsmPixel, grid_pixel, ASP_TO_CSM_SHIFT.
    cbn [samp line v2_0 v2_1].
    rewrite !shift_roundtrip by assumption. reflexivity. }
  split; [exact Hrt|].
  split; [reflexivity|]. split; [reflexivity|]. split; [reflexivity|].
  intros c model point Hm Hproj.
  unfold point_to_pixel, throw_if_not_init. rewrite Hm. cbn [bind].
  rewrite Hproj. cbn [csm_call bind].
  change (v2_sub (imageCoordToVector (toCsmPixel (grid_pixel g kx ky))) ASP_TO_CSM_SHIFT)
    with (fromCsmPixel (toCsmPixel (grid_pixel g kx ky))).
  rewrite Hrt. reflexivity.
Qed.

(** C10, witness: the pixel (100.5, 20) and the ground point (100.5, 20, 0)
    seen by the half-pixel sensor model. *)
Lemma C10_witness :
  1 <= 1 /\ Z.abs 201 + 2 ^ (1 - 1) < 2 ^ 53 /\ Z.abs 40 + 2 ^ (1 - 1) < 2 ^ 53 /\
  fromCsmPixel (toCsmPixel (grid_pixel 1 201 40)) = grid_pixel 1 201 40 /\
  point_to_pixel shift_camera (V3 (double_of 201 (-1)) (double_of 40 (-1)) d_zero) =
    inr (grid_pixel 1 201 40).
Proof.
  assert (H1 : 1 <= 1) by lia.
  assert (H2 : Z.abs 201 + 2 ^ (1 - 1) < 2 ^ 53) by (vm_compute; reflexivity).
  assert (H3 : Z.abs 40 + 2 ^ (1 - 1) < 2 ^ 53) by (vm_compute; reflexivity).
  split; [exact H1|]. split; [exact H2|]. split; [exact H3|].
  destruct (C10_pixel_convention 1 201 40 H1 H2 H3) as (Hrt & _ & _ & _ & Hpt).
  split; [exact Hrt|].
  apply (Hpt shift_camera shift_model); [reflexivity|vm_compute; reflexivity].
Defined.

(** C10, counterexample: at the pixel (0.1, 0.1) the round trip returns
    0.09999999999999998 in both coordinates (mantissa ...792 instead of
    ...794), which compares unequal to 0.1. *)
Lemma C10_roundtrip_inexact :
  fromCsmPixel (toCsmPixel (V2 d_tenth d_tenth)) =
    V2 (S754_finite false 7205759403792792 (-56)) (S754_finite false 7205759403792792 (-56)) /\
  d_tenth = S754_finite false 7205759403792794 (-56) /\
  fromCsmPixel (toCsmPixel (V2 d_tenth d_tenth)) <> V2 d_tenth d_tenth /\
  SFeqb (v2_0 (fromCsmPixel (toCsmPixel (V2 d_tenth d_tenth)))) d_tenth = false.
Proof.
  split; [vm_compute; reflexivity|]. split; [reflexivity|].
  split; [vm_compute; discriminate|vm_compute; reflexivity].
Qed.

End CsmClaims.

(* ===================================================================== *)
(** * More facts about the disparity view                                 *)
(* ===================================================================== *)

Module DemDispMoreFacts.

Import VW DemDisp VWFacts DemDispFacts DemDispMore.
Local Open Scope Q_scope.

(** ** Rounding *)




(** ** The disparity range *)










(** ** Sample points *)

Lemma width_nonempty b :
  (bmin_x b < bmax_x b)%Z -> (bmin_y b < bmax_y b)%Z ->
  width b = (bmax_x b - bmin_x b)%Z /\ height b = (bmax_y b - bmin_y b)%Z.
Proof.
  intros Hx Hy. unfold width, height, bbox_is_empty.
  destruct (Z.leb_spec (bmax_x b) (bmin_x b)); [lia|].
  destruct (Z.leb_spec (bmax_y b) (bmin_y b)); [lia|]. split; reflexivity.
Qed.

(** [i * w / d] for [0 <= i <= d] lies between [0] and [w]. *)
Lemma fraction_bounds i w d :
  (0 <= i <= d)%Z -> (0 <= w)%Z -> (1 <= d)%Z ->
  0 <= inject_Z i * inject_Z w / inject_Z d /\
  inject_Z i * inject_Z w / inject_Z d <= inject_Z w.
Proof.
  intros Hi Hw Hd.
  assert (Hd0 : 0 < inject_Z d).
  { change 0 with (inject_Z 0). rewrite <- Zlt_Qlt. lia. }
  rewrite <- inject_Z_mult. split.
  - apply Qle_shift_div_l; [assumption|]. rewrite Qmult_0_l.
    change 0 with (inject_Z 0). rewrite <- Zle_Qle. nia.
  - apply Qle_shift_div_r; [assumption|]. rewrite <- inject_Z_mult, <- Zle_Qle. nia.
Qed.

Lemma fraction_zero w d : inject_Z 0 * inject_Z w / inject_Z d == 0.
Proof. unfold Qdiv. change (inject_Z 0) with 0. ring. Qed.

Lemma fraction_full w d : (1 <= d)%Z -> inject_Z d * inject_Z w / inject_Z d == inject_Z w.
Proof.
  intros Hd. rewrite Qmult_comm. apply Qdiv_mult_l.
  intros E. unfold Qeq in E. simpl in E. lia.
Qed.

Lemma elem_of_map_seqZ {A} (f : Z -> A) n p :
  p ∈ map f (seqZ 0 n) <-> exists i, (0 <= i < n)%Z /\ p = f i.
Proof.
  rewrite list_elem_of_In, in_map_iff. split.
  - intros (i & <- & Hi). apply list_elem_of_In, elem_of_seqZ in Hi. exists i. split; [lia|reflexivity].
  - intros (i & Hi & ->). exists i. split; [reflexivity|].
    apply list_elem_of_In, elem_of_seqZ. lia.
Qed.

Section Loops.
Context {DEM GEOREF : Type} `{Cartography DEM GEOREF}.
Implicit Types (v : DemDisparity DEM GEOREF) (st : LoopState) (bbox : BBox2i).

(** ** The block outside the tile *)

Lemma prerasterize_block_outside v bbox s0 c r :
  ~ in_tile bbox c r -> cv_get (fst (prerasterize v bbox s0)) c r = None.
Proof.
  intros Hout. unfold prerasterize.
  destruct (estimate_dem_box v bbox _) as [dem_box prev]. simpl.
  match goal with |- cv_get (st_lowres_disparity ?s) _ _ = _ =>
    change (fst (peek s c r) = None) end.
  rewrite row_loop_other.
  - change (fst (peek (clear_tile bbox
       {| st_lowres_disparity := {| cv_child := ∅; cv_ci := - bmin_x bbox; cv_cj := - bmin_y bbox |};
          st_disp_spread := s0; st_prev_xyz := Vector3_zero |}) c r) = None).
    rewrite clear_tile_out by assumption. reflexivity.
  - destruct (decide (r ∈ tile_rows bbox)) as [Hr|Hr]; [|left; assumption].
    right. intros Hc. apply Hout. apply in_tile_elem. split; assumption.
Qed.

(** ** The perturbation loop *)




(** ** Copying a block *)

Lemma copy_cols_other blk row cs : forall dest c r,
  (r <> row \/ c ∉ cs) ->
  foldl (copy_pixel blk row) dest cs !! (c, r) = dest !! (c, r).
Proof.
  induction cs as [|c0 cs IH]; intros dest c r Hn; simpl; [reflexivity|].
  rewrite IH.
  - unfold copy_pixel. destruct (cv_get blk c0 row); [|reflexivity].
    apply lookup_insert_ne. intros E. injection E as -> ->.
    destruct Hn as [Hn|Hn]; [congruence|]. apply Hn. apply elem_of_cons. auto.
  - destruct Hn as [Hn|Hn]; [left; assumption|right].
    intros Hc. apply Hn. apply elem_of_cons. auto.
Qed.

Lemma copy_cols_at blk row cs : forall dest c p,
  c ∈ cs -> cv_get blk c row = Some p ->
  foldl (copy_pixel blk row) dest cs !! (c, row) = Some p.
Proof.
  induction cs as [|c0 cs IH]; intros dest c p Hin Hp; [inversion Hin|]. simpl.
  destruct (decide (c ∈ cs)) as [Hc|Hc]; [apply IH; assumption|].
  rewrite copy_cols_other by (right; assumption).
  apply elem_of_cons in Hin. destruct Hin as [->|Hin]; [|contradiction].
  unfold copy_pixel. rewrite Hp. apply lookup_insert_eq.
Qed.

Lemma copy_rows_other blk bbox rs : forall dest c r,
  (r ∉ rs \/ c ∉ tile_cols bbox) ->
  foldl (fun dest row => foldl (copy_pixel blk row) dest (tile_cols bbox)) dest rs !! (c, r) =
  dest !! (c, r).
Proof.
  induction rs as [|r0 rs IH]; intros dest c r Hn; simpl; [reflexivity|].
  rewrite IH.
  - apply copy_cols_other. destruct Hn as [Hn|Hn]; [left|right; assumption].
    intros ->. apply Hn. apply elem_of_cons. auto.
  - destruct Hn as [Hn|Hn]; [left|right; assumption].
    intros Hr. apply Hn. apply elem_of_cons. auto.
Qed.

Lemma copy_rows_at blk bbox rs : forall dest c r p,
  r ∈ rs -> c ∈ tile_cols bbox -> cv_get blk c r = Some p ->
  foldl (fun dest row => foldl (copy_pixel blk row) dest (tile_cols bbox)) dest rs !! (c, r) =
  Some p.
Proof.
  induction rs as [|r0 rs IH]; intros dest c r p Hr Hc Hp; [inversion Hr|]. simpl.
  destruct (decide (r ∈ rs)) as [Hr'|Hr']; [apply IH; assumption|].
  rewrite copy_rows_other by (left; assumption).
  apply elem_of_cons in Hr. destruct Hr as [->|Hr]; [|contradiction].
  apply copy_cols_at; assumption.
Qed.

(** What [rasterize] leaves at a position of the two images. *)
Lemma rasterize_inside v dest spread bbox c r :
  in_tile bbox c r ->
  (fst (rasterize v (dest, spread) bbox) !! (c, r),
   snd (rasterize v (dest, spread) bbox) !! (c, r)) =
  written (stored_range v bbox c r).
Proof.
  intros Hin. pose proof (prerasterize_peek v bbox spread c r Hin) as Hp.
  unfold rasterize. destruct (prerasterize v bbox spread) as [blk sp]. simpl in *.
  apply in_tile_elem in Hin. destruct Hin as [Hr Hc].
  destruct (stored_range v bbox c r); simpl in *; injection Hp as Hb Hs;
    rewrite Hs; f_equal; apply copy_rows_at; assumption.
Qed.

Lemma rasterize_outside v dest spread bbox c r :
  ~ in_tile bbox c r ->
  fst (rasterize v (dest, spread) bbox) !! (c, r) = dest !! (c, r) /\
  snd (rasterize v (dest, spread) bbox) !! (c, r) = spread !! (c, r).
Proof.
  intros Hout. pose proof (prerasterize_spread_outside v bbox spread c r Hout) as Hs.
  unfold rasterize. destruct (prerasterize v bbox spread) as [blk sp]. simpl in *.
  split; [|assumption]. apply copy_rows_other.
  destruct (decide (r ∈ tile_rows bbox)) as [Hr|Hr]; [|left; assumption].
  right. intros Hc. apply Hout. apply in_tile_elem. split; assumption.
Qed.

Lemma rasterize_lookup v acc bbox c r :
  pixel_pair (rasterize v acc bbox) c r =
  if decide (in_tile bbox c r) then written (stored_range v bbox c r)
  else pixel_pair acc c r.
Proof.
  destruct acc as [dest spread]. unfold pixel_pair.
  destruct (decide (in_tile bbox c r)) as [Hin|Hout].
  - apply rasterize_inside. assumption.
  - destruct (rasterize_outside v dest spread bbox c r Hout) as [-> ->]. reflexivity.
Qed.

(** A property of single positions that every tile establishes holds
    for every position after any sequence of tiles. *)
Lemma rasterize_all_invariant v
    (P : Z -> Z -> option (PixelMask Vector2f) * option (PixelMask Vector2i) -> Prop) ts :
  (forall t c r, in_tile t c r -> P c r (written (stored_range v t c r))) ->
  forall acc, (forall c r, P c r (pixel_pair acc c r)) ->
  forall c r, P c r (pixel_pair (foldl (rasterize v) acc ts) c r).
Proof.
  intros Ht. induction ts as [|t ts IH]; intros acc Ha; simpl; [exact Ha|].
  apply IH. intros c r. rewrite rasterize_lookup.
  destruct (decide (in_tile t c r)); [apply Ht; assumption|apply Ha].
Qed.

(** The positions that hold a pixel after a sequence of tiles. *)
Lemma rasterize_all_domain v ts : forall acc c r,
  (is_Some (fst (pixel_pair (foldl (rasterize v) acc ts) c r)) <->
   is_Some (fst (pixel_pair acc c r)) \/ exists t, t ∈ ts /\ in_tile t c r) /\
  (is_Some (snd (pixel_pair (foldl (rasterize v) acc ts) c r)) <->
   is_Some (snd (pixel_pair acc c r)) \/ exists t, t ∈ ts /\ in_tile t c r).
Proof.
  induction ts as [|t ts IH]; intros acc c r; simpl.
  - split; (split; [auto|intros [Hs|(t & Ht & _)]; [assumption|inversion Ht]]).
  - destruct (IH (rasterize v acc t) c r) as [I1 I2].
    rewrite rasterize_lookup in I1, I2.
    assert (W : forall o, is_Some (fst (written o)) /\ is_Some (snd (written o))).
    { intros [sr|]; split; eexists; reflexivity. }
    split.
    + rewrite I1. destruct (decide (in_tile t c r)) as [Hin|Hout].
      * split; [intros _; right; exists t; split; [apply elem_of_cons; auto|assumption]
               |intros _; left; apply W].
      * split; (intros [Hs|(t' & Ht' & Hin')]; [left; assumption|right]).
        -- exists t'. split; [apply elem_of_cons; auto|assumption].
        -- apply elem_of_cons in Ht'. destruct Ht' as [->|Ht']; [contradiction|].
           exists t'. split; assumption.
    + rewrite I2. destruct (decide (in_tile t c r)) as [Hin|Hout].
      * split; [intros _; right; exists t; split; [apply elem_of_cons; auto|assumption]
               |intros _; left; apply W].
      * split; (intros [Hs|(t' & Ht' & Hin')]; [left; assumption|right]).
        -- exists t'. split; [apply elem_of_cons; auto|assumption].
        -- apply elem_of_cons in Ht'. destruct Ht' as [->|Ht']; [contradiction|].
           exists t'. split; assumption.
Qed.

End Loops.

End DemDispMoreFacts.

(* ===================================================================== *)
(** * The disparity view: further properties                              *)
(* ===================================================================== *)

Module DemDispExtras.

Import VW DemDisp VWFacts DemDispFacts DemDispMore DemDispMoreFacts Scenes.
Local Open Scope Q_scope.

Section View.
Context {DEM GEOREF : Type} `{Cartography DEM GEOREF}.
Implicit Types (v : DemDisparity DEM GEOREF) (bbox : BBox2i).

(** X1.  [prerasterize] works on its tile and nowhere else: the block it
    returns holds a pixel exactly at the positions of the tile, and the
    shared spread image holds a pixel at every position of the tile
    afterwards and is left as it was at every other position. *)
Theorem X1_prerasterize_works_on_its_tile v bbox s0 col row :
  let blk := fst (prerasterize v bbox s0) in
  let spread := snd (prerasterize v bbox s0) in
  (in_tile bbox col row ->
     is_Some (cv_get blk col row) /\ is_Some (spread !! (col, row))) /\
  (~ in_tile bbox col row ->
     cv_get blk col row = None /\ spread !! (col, row) = s0 !! (col, row)).
Proof.
  intros blk spread. split.
  - intros Hin. pose proof (prerasterize_peek v bbox s0 col row Hin) as Hp.
    fold blk spread in Hp.
    destruct (stored_range v bbox col row); simpl in Hp;
      injection Hp as -> ->; split; eexists; reflexivity.
  - intros Hout. split;
      [apply prerasterize_block_outside|apply prerasterize_spread_outside]; assumption.
Qed.




End View.

(** X6.  For a tile that is not empty, the list of sample points has
    [2 (dim + 1)] entries with [dim = max(1, max(wid, hgt) / 10)], every
    sample lies between the first and the last pixel of the tile in each
    coordinate, and each of the four corner pixels is among the
    samples. *)
Theorem X6_diagonal_samples bbox :
  (bmin_x bbox < bmax_x bbox)%Z -> (bmin_y bbox < bmax_y bbox)%Z ->
  let wid := (bmax_x bbox - bmin_x bbox - 1)%Z in
  let hgt := (bmax_y bbox - bmin_y bbox - 1)%Z in
  let dim := Z.max 1 (Z.quot (Z.max wid hgt) 10) in
  length (diagonals bbox) = Z.to_nat (2 * (dim + 1)) /\
  (forall p, p ∈ diagonals bbox ->
     (inject_Z (bmin_x bbox) <= v2x p /\ v2x p <= inject_Z (bmax_x bbox - 1)) /\
     (inject_Z (bmin_y bbox) <= v2y p /\ v2y p <= inject_Z (bmax_y bbox - 1))) /\
  (forall cx cy,
     cx = bmin_x bbox \/ cx = (bmax_x bbox - 1)%Z ->
     cy = bmin_y bbox \/ cy = (bmax_y bbox - 1)%Z ->
     exists p, p ∈ diagonals bbox /\ v2x p == inject_Z cx /\ v2y p == inject_Z cy).
Proof.
  intros Hx Hy wid hgt dim.
  destruct (width_nonempty bbox Hx Hy) as [Ew Eh].
  unfold diagonals. rewrite Ew, Eh. fold wid hgt. fold dim.
  assert (Hwid : (0 <= wid)%Z) by (unfold wid; lia).
  assert (Hhgt : (0 <= hgt)%Z) by (unfold hgt; lia).
  assert (Hdim : (1 <= dim)%Z) by (unfold dim; lia).
  assert (Mx : inject_Z (bmax_x bbox - 1) == inject_Z (bmin_x bbox) + inject_Z wid).
  { rewrite <- inject_Z_plus. unfold wid. apply inject_Z_injective. f_equal. lia. }
  assert (My : inject_Z (bmax_y bbox - 1) == inject_Z (bmin_y bbox) + inject_Z hgt).
  { rewrite <- inject_Z_plus. unfold hgt. apply inject_Z_injective. f_equal. lia. }
  split; [|split].
  - rewrite length_app, !length_map, !length_seqZ. lia.
  - intros p Hp. apply elem_of_app in Hp.
    destruct Hp as [Hp|Hp]; apply elem_of_map_seqZ in Hp; destruct Hp as (i & Hi & ->);
      cbn [v2_add v2x v2y v2_of_ints]; rewrite Mx, My;
      destruct (fraction_bounds i wid dim ltac:(lia) Hwid Hdim) as [X1 X2];
      destruct (fraction_bounds i hgt dim ltac:(lia) Hhgt Hdim) as [Y1 Y2];
      repeat split; lra.
  - intros cx cy Hcx Hcy.
    pose proof (fraction_zero wid dim) as Z1. pose proof (fraction_zero hgt dim) as Z2.
    pose proof (fraction_full wid dim Hdim) as F1.
    pose proof (fraction_full hgt dim Hdim) as F2.
    destruct Hcx as [->| ->], Hcy as [->| ->].
    + eexists. split; [apply elem_of_app; left; apply elem_of_map_seqZ;
                       exists 0%Z; split; [lia|reflexivity]|].
      cbn [v2_add v2x v2y v2_of_ints]. rewrite Z1, Z2. split; ring.
    + eexists. split; [apply elem_of_app; right; apply elem_of_map_seqZ;
                       exists 0%Z; split; [lia|reflexivity]|].
      cbn [v2_add v2x v2y v2_of_ints]. rewrite Z1, Z2, My. split; ring.
    + eexists. split; [apply elem_of_app; right; apply elem_of_map_seqZ;
                       exists dim; split; [lia|reflexivity]|].
      cbn [v2_add v2x v2y v2_of_ints]. rewrite F1, F2, Mx. split; ring.
    + eexists. split; [apply elem_of_app; left; apply elem_of_map_seqZ;
                       exists dim; split; [lia|reflexivity]|].
      cbn [v2_add v2x v2y v2_of_ints]. rewrite F1, F2, Mx, My. split; ring.
Qed.



(** X6, witness: the 4 x 4 tile has four samples, its corners. *)
Lemma X6_witness :
  length (diagonals tile_4x4) = 4%nat /\
  exists p, p ∈ diagonals tile_4x4 /\ v2x p == 3 /\ v2y p == 0.
Proof.
  assert (Hx : (bmin_x tile_4x4 < bmax_x tile_4x4)%Z) by (simpl; lia).
  assert (Hy : (bmin_y tile_4x4 < bmax_y tile_4x4)%Z) by (simpl; lia).
  destruct (X6_diagonal_samples tile_4x4 Hx Hy) as (Hlen & _ & Hcorner).
  split; [exact Hlen|].
  apply (Hcorner 3%Z 0%Z); [right|left]; reflexivity.
Defined.

End DemDispExtras.

(* ===================================================================== *)
(** * A further property of the driver of [DEMDisparity.cc]               *)
(* ===================================================================== *)

Module DemDispRunExtras.

Import VW DemDisp DemDispMore VWFacts DemDispFacts DemDispMoreFacts.
Import DemDispRun DemDispRunFacts Scenes RunScenes.
Local Open Scope Q_scope.

Section View.

Context {DEM GEOREF : Type} `{Cartography DEM GEOREF}.

(** X5.  When [produce_dem_disparity] returns, the two rasters hold a
    pixel exactly at the positions covered by the tiles the writer asked
    for (of size 64), and a pixel that is valid in either raster has an
    even column and an even row: the driver always samples every second
    pixel. *)
Theorem X5_driver_samples_every_second_pixel (settings : StereoSettings)
    (files : Files DEM GEOREF) tx_left tx_right left_camera_model right_camera_model
    tiles w col row :
  produce_dem_disparity settings files tx_left tx_right
    left_camera_model right_camera_model tiles = inr w ->
  let requested :=
    tiles (fst (left_image_sub_size files)) (snd (left_image_sub_size files)) 64%Z in
  (is_Some (D_sub w !! (col, row)) <-> exists t, t ∈ requested /\ in_tile t col row) /\
  (is_Some (D_sub_spread w !! (col, row)) <-> exists t, t ∈ requested /\ in_tile t col row) /\
  (forall p, D_sub w !! (col, row) = Some p -> is_valid p = true ->
     (2 | col)%Z /\ (2 | row)%Z) /\
  (forall q, D_sub_spread w !! (col, row) = Some q -> is_valid q = true ->
     (2 | col)%Z /\ (2 | row)%Z).
Proof.
  intros Hw requested.
  destruct (produce_dem_disparity_returns _ _ _ _ _ _ _ _ Hw) as (v0 & size & Hsize & Hk & Hf).
  unfold requested, left_image_sub_size. clear requested. rewrite Hsize. cbn [default].
  destruct size as [sc sr]. cbn [fst snd] in *.
  set (C := pure_cartography) in *.
  set (v := pure_view v0) in *.
  assert (Hk' : DemDisp.m_pixel_sample v = 2%Z) by exact Hk.
  set (ts := tiles sc sr 64%Z) in *.
  destruct w as [d s]. cbn [D_sub D_sub_spread] in *. symmetry in Hf.
  destruct (@rasterize_all_domain DEM GEOREF C v ts (∅, ∅) col row) as [D1 D2].
  rewrite Hf in D1, D2. unfold pixel_pair in D1, D2. cbn [fst snd] in D1, D2.
  rewrite (lookup_empty (col, row)) in D1. rewrite (lookup_empty (col, row)) in D2.
  assert (N : forall A, ~ is_Some (@None A)) by (intros A [x Hx]; discriminate).
  split; [rewrite D1; split; [intros [Hs|Hs]; [destruct (N _ Hs)|exact Hs]|auto]|].
  split; [rewrite D2; split; [intros [Hs|Hs]; [destruct (N _ Hs)|exact Hs]|auto]|].
  pose proof (@rasterize_all_invariant DEM GEOREF C v
    (fun c r pp =>
       (forall p, fst pp = Some p -> is_valid p = true -> (2 | c)%Z /\ (2 | r)%Z) /\
       (forall q, snd pp = Some q -> is_valid q = true -> (2 | c)%Z /\ (2 | r)%Z)) ts) as Inv.
  assert (Step : forall t c r, in_tile t c r ->
    (forall p, fst (written (@stored_range DEM GEOREF C v t c r)) = Some p ->
       is_valid p = true -> (2 | c)%Z /\ (2 | r)%Z) /\
    (forall q, snd (written (@stored_range DEM GEOREF C v t c r)) = Some q ->
       is_valid q = true -> (2 | c)%Z /\ (2 | r)%Z)).
  { intros t c r _.
    destruct (Z.eq_dec (Z.rem c 2) 0%Z) as [Ec|Ec], (Z.eq_dec (Z.rem r 2) 0%Z) as [Er|Er];
      try (assert (Hn : @stored_range DEM GEOREF C v t c r = None)
             by (apply stored_range_unsampled; rewrite Hk'; tauto);
           rewrite Hn; split; intros x Hx Hv; injection Hx as <-; discriminate).
    split; intros _ _ _; split; apply Z.rem_divide; (lia || assumption). }
  specialize (Inv Step (∅, ∅)).
  assert (Base : forall c r,
    (forall p, fst (pixel_pair ((∅ : Image (PixelMask Vector2f)), (∅ : Image (PixelMask Vector2i))) c r) = Some p ->
       is_valid p = true -> (2 | c)%Z /\ (2 | r)%Z) /\
    (forall q, snd (pixel_pair ((∅ : Image (PixelMask Vector2f)), (∅ : Image (PixelMask Vector2i))) c r) = Some q ->
       is_valid q = true -> (2 | c)%Z /\ (2 | r)%Z)).
  { intros c r. unfold pixel_pair. cbn [fst snd].
    rewrite !(lookup_empty (c, r)). split; intros x Hx; discriminate. }
  specialize (Inv Base col row). rewrite Hf in Inv. exact Inv.
Qed.

End View.

(** X5, witness: a run on the 4 x 4 low-resolution image, written as
    one tile; the pixel (1, 1) is present and the valid pixel (2, 2) has
    even coordinates. *)
Lemma X5_witness :
  exists w,
    produce_dem_disparity (run_settings "dem.tif" 1) (run_files true) tx_id tx_id
      nadir_camera (parallax_camera 2 7 (3 # 2)) one_tile = inr w /\
    is_Some (D_sub w !! (1%Z, 1%Z)) /\
    (forall p, D_sub w !! (2%Z, 2%Z) = Some p -> is_valid p = true ->
       (2 | 2)%Z /\ (2 | 2)%Z).
Proof.
  destruct (produce_dem_disparity (run_settings "dem.tif" 1) (run_files true) tx_id tx_id
              nadir_camera (parallax_camera 2 7 (3 # 2)) one_tile) as [e|w] eqn:E;
    [vm_compute in E; discriminate|].
  exists w. split; [reflexivity|].
  split.
  - destruct (X5_driver_samples_every_second_pixel _ _ _ _ _ _ _ w 1 1 E) as (H1 & _).
    apply H1. exists (BBox2i_xywh 0 0 4 4). split.
    + apply list_elem_of_In. left. reflexivity.
    + unfold in_tile. simpl. lia.
  - destruct (X5_driver_samples_every_second_pixel _ _ _ _ _ _ _ w 2 2 E) as (_ & _ & H3 & _).
    exact H3.
Defined.

End DemDispRunExtras.

(* ===================================================================== *)
(** * More facts about binary64 arithmetic                                *)
(* ===================================================================== *)

Module CsmMoreFacts.

Import Csm CsmFacts CsmMore.
Local Open Scope Z_scope.

(** [x - x] is [+0], or NaN when [x] is an infinity or NaN. *)
Lemma dsub_self a : dsub a a = S754_zero false \/ dsub a a = S754_nan.
Proof.
  destruct a as [s|s| |s m e].
  - left. destruct s; reflexivity.
  - right. destruct s; reflexivity.
  - right. reflexivity.
  - left. unfold dsub. rewrite SFsub_finite. rewrite Z.sub_diag. reflexivity.
Qed.

(** Normalising a vector of zeros and NaNs. *)
Lemma normalize_degenerate a b c :
  (a = S754_zero false \/ a = S754_nan) ->
  (b = S754_zero false \/ b = S754_nan) ->
  (c = S754_zero false \/ c = S754_nan) ->
  v3_div (V3 a b c) (norm_2 (V3 a b c)) = Vector3_nan.
Proof. intros [-> | ->] [-> | ->] [-> | ->]; reflexivity. Qed.

Local Open Scope Q_scope.

(** The norm of a non-zero vector in range is a positive normal
    number. *)
Lemma norm_2_normal d :
  in_range (-400) 400 (v3_0 d) = true ->
  in_range (-400) 400 (v3_1 d) = true ->
  in_range (-400) 400 (v3_2 d) = true ->
  is_zero (v3_0 d) && is_zero (v3_1 d) && is_zero (v3_2 d) = false ->
  exists m e, norm_2 d = S754_finite false m e /\
              Zpos (digits2_pos m) = 53%Z /\ (-400 <= e <= 404)%Z.
Proof.
  destruct d as [a b c]. cbn [v3_0 v3_1 v3_2]. intros Ha Hb Hc Hnz.
  unfold norm_2. cbn [v3_0 v3_1 v3_2].
  pose proof (B2Q_sq_nonneg a) as A0. pose proof (B2Q_sq_nonneg b) as B0.
  pose proof (B2Q_sq_nonneg c) as C0.
  assert (HS : 0 < B2Q a * B2Q a + B2Q b * B2Q b + B2Q c * B2Q c).
  { apply andb_false_iff in Hnz. destruct Hnz as [Hnz|Hnz];
      [apply andb_false_iff in Hnz; destruct Hnz as [Hnz|Hnz]|].
    - pose proof (in_range_sq_pos _ _ a Ha Hnz). lra.
    - pose proof (in_range_sq_pos _ _ b Hb Hnz). lra.
    - pose proof (in_range_sq_pos _ _ c Hc Hnz). lra. }
  destruct (dmul_self a Ha) as [Ra Va]. destruct (dmul_self b Hb) as [Rb Vb].
  destruct (dmul_self c Hc) as [Rc Vc].
  set (A := B2Q a * B2Q a) in *. set (B := B2Q b * B2Q b) in *.
  set (C := B2Q c * B2Q c) in *.
  set (qa := dmul a a) in *. set (qb := dmul b b) in *. set (qc := dmul c c) in *.
  unfold ulp1 in Va, Vb, Vc.
  destruct (dadd_nonneg (-748) 854 qa qb) as [R1 V1]; try assumption; try lia; try lra.
  set (s1 := dadd qa qb) in *. cbn [Z.add Pos.add Pos.succ] in R1.
  unfold ulp1 in V1.
  destruct (dadd_nonneg (-748) 856 s1 qc) as [R2 V2];
    try assumption; try lia; try lra.
  { eapply in_range_weaken; [| |exact Rc]; lia. }
  set (s2 := dadd s1 qc) in *.
  unfold ulp1 in V2.
  destruct (dsqrt_pos s2) as (mn & en & Hn & Hdn & Hen & Vn); [exact R2|lra|].
  exists mn, en. split; [exact Hn|]. split; assumption.
Qed.

(** Dividing by a positive normal number keeps the sign. *)
Lemma ddiv_sign a m e :
  in_range (-400) 400 a = true ->
  Zpos (digits2_pos m) = 53%Z -> (-400 <= e <= 404)%Z ->
  same_sign (ddiv a (S754_finite false m e)) a = true.
Proof.
  intros Ha Hd He. destruct a as [s| | |s ma ea]; try discriminate.
  - destruct s; reflexivity.
  - apply in_range_finite in Ha. destruct Ha as [Hda Hea]. unfold ddiv.
    destruct (div_pos s ma ea m e Hda Hd ltac:(lia)) as (m' & e' & Hr & _).
    rewrite Hr. destruct s; reflexivity.
Qed.

End CsmMoreFacts.


(* ===================================================================== *)
(** * The camera operations: further properties                           *)
(* ===================================================================== *)

Module CsmMoreExtras.

Import Csm CsmFacts CsmMore CsmMoreFacts LoadScenes.

(** X7.  Before a model is loaded (as after the default constructor),
    [get_image_size], [point_to_pixel], [pixel_to_vector] and
    [camera_center] all throw the same [ArgumentErr]; with a model
    loaded [get_image_size] returns (samples, lines) and none of the
    four throws an [ArgumentErr]: what they throw comes from the sensor
    model. *)
Theorem X7_argument_error_means_not_loaded c :
  (m_csm_model c = None ->
     get_image_size c = inl not_loaded /\
     (forall point, point_to_pixel c point = inl not_loaded) /\
     (forall pix, pixel_to_vector c pix = inl not_loaded) /\
     (forall pix, camera_center c pix = inl not_loaded)) /\
  (forall model, m_csm_model c = Some model ->
     get_image_size c = inr (V2 (iv_samp (getImageSize model)) (iv_line (getImageSize model))) /\
     (forall point msg, point_to_pixel c point <> inl (ArgumentErr msg)) /\
     (forall pix msg, pixel_to_vector c pix <> inl (ArgumentErr msg)) /\
     (forall pix msg, camera_center c pix <> inl (ArgumentErr msg))) /\
  m_csm_model CsmModel_default = None.
Proof.
  split; [|split; [|reflexivity]].
  - intros Hn. unfold get_image_size, point_to_pixel, pixel_to_vector, camera_center,
      throw_if_not_init. rewrite Hn. repeat split.
  - intros model Hm. unfold get_image_size, point_to_pixel, pixel_to_vector, camera_center,
      throw_if_not_init. rewrite Hm. cbn [bind]. split; [reflexivity|]. split; [|split].
    + intros point msg. destruct (groundToImage model _ _); discriminate.
    + intros pix msg. destruct (getSensorPosition model _); [|discriminate].
      cbn [csm_call bind]. destruct (imageToGround model _ _ _); discriminate.
    + intros pix msg. destruct (getSensorPosition model _); discriminate.
Qed.

(** X8.  When the sensor model returns the same point as sensor position
    and as ground point, [pixel_to_vector] does not throw: it returns a
    vector whose three components are NaN. *)
Theorem X8_coincident_points_give_nan c model pix point :
  m_csm_model c = Some model ->
  getSensorPosition model (toCsmPixel pix) = Some point ->
  imageToGround model (toCsmPixel pix) d_zero (m_desired_precision c) = Some point ->
  pixel_to_vector c pix = inr Vector3_nan.
Proof.
  intros Hm Hctr Hgp. unfold pixel_to_vector, throw_if_not_init. rewrite Hm. cbn [bind].
  change (vectorToImageCoord (v2_add pix ASP_TO_CSM_SHIFT)) with (toCsmPixel pix).
  rewrite Hctr. cbn [csm_call bind]. rewrite Hgp. cbn [csm_call bind]. f_equal.
  unfold v3_sub, ecefCoordToVector. cbn [v3_0 v3_1 v3_2].
  apply normalize_degenerate; apply dsub_self.
Qed.

(** X9.  For a difference between ground point and sensor position that
    is not zero and whose components are zero or have exponents between
    -400 and 400, each component of the vector returned by
    [pixel_to_vector] has the sign of that component of the difference,
    and is zero exactly when it is. *)
Theorem X9_direction_keeps_signs c model pix ctr gp :
  m_csm_model c = Some model ->
  getSensorPosition model (toCsmPixel pix) = Some ctr ->
  imageToGround model (toCsmPixel pix) d_zero (m_desired_precision c) = Some gp ->
  let d := v3_sub (ecefCoordToVector gp) (ecefCoordToVector ctr) in
  in_range (-400) 400 (v3_0 d) = true ->
  in_range (-400) 400 (v3_1 d) = true ->
  in_range (-400) 400 (v3_2 d) = true ->
  is_zero (v3_0 d) && is_zero (v3_1 d) && is_zero (v3_2 d) = false ->
  exists r,
    pixel_to_vector c pix = inr r /\
    same_sign (v3_0 r) (v3_0 d) = true /\
    same_sign (v3_1 r) (v3_1 d) = true /\
    same_sign (v3_2 r) (v3_2 d) = true.
Proof.
  intros Hm Hctr Hgp d H0 H1 H2 Hnz.
  exists (v3_div d (norm_2 d)). split.
  { unfold pixel_to_vector, throw_if_not_init. rewrite Hm. cbn [bind].
    change (vectorToImageCoord (v2_add pix ASP_TO_CSM_SHIFT)) with (toCsmPixel pix).
    rewrite Hctr. cbn [csm_call bind]. rewrite Hgp. reflexivity. }
  destruct (norm_2_normal d H0 H1 H2 Hnz) as (m & e & Hn & Hd & He).
  rewrite Hn. unfold v3_div. cbn [v3_0 v3_1 v3_2].
  repeat split; apply ddiv_sign; assumption.
Qed.


(** X8, witness: the collapsed sensor model, at the pixel (1, 1). *)
Lemma X8_witness :
  m_csm_model collapsed_camera = Some collapsed_model /\
  pixel_to_vector collapsed_camera (grid_pixel 1 2 2) = inr Vector3_nan.
Proof.
  split; [reflexivity|].
  apply (X8_coincident_points_give_nan collapsed_camera collapsed_model (grid_pixel 1 2 2)
           {| x := double_of_Z 7; y := double_of_Z 8; z := double_of_Z 9 |});
    reflexivity.
Defined.

(** X9, witness: the pixel (100.5, 20) of the half-pixel sensor model,
    seen from 1000 above the origin: the direction (100.5, 20, -1000)
    keeps its signs. *)
Lemma X9_witness :
  let d := V3 (double_of 201 (-1)) (double_of_Z 20) (double_of_Z (-1000)) in
  exists r,
    pixel_to_vector shift_camera (grid_pixel 1 201 40) = inr r /\
    same_sign (v3_0 r) (v3_0 d) = true /\
    same_sign (v3_1 r) (v3_1 d) = true /\
    same_sign (v3_2 r) (v3_2 d) = true.
Proof.
  apply (X9_direction_keeps_signs shift_camera shift_model (grid_pixel 1 201 40)
           {| x := d_zero; y := d_zero; z := double_of_Z 1000 |}
           {| x := double_of 201 (-1); y := double_of_Z 20; z := d_zero |});
    [reflexivity|reflexivity|vm_compute; reflexivity|vm_compute; reflexivity
    |vm_compute; reflexivity|vm_compute; reflexivity|vm_compute; reflexivity].
Defined.

End CsmMoreExtras.

(* ===================================================================== *)
(** * Facts about the loader                                              *)
(* ===================================================================== *)

Module CsmLoadFacts.

Import Csm CsmLoad.
Local Open Scope string_scope.

(** ** Sequencing *)

Lemma and_then_inr {A B} (m : Load A) (k : A -> Load B) c p a c' p' :
  m c p = (inr a, c', p') -> and_then m k c p = k a c' p'.
Proof. intros E. unfold and_then. rewrite E. reflexivity. Qed.

Lemma and_then_inl {A B} (m : Load A) (k : A -> Load B) c p t c' p' :
  m c p = (inl t, c', p') -> and_then m k c p = (inl t, c', p').
Proof. intros E. unfold and_then. rewrite E. reflexivity. Qed.

Lemma object_rel_and_then {A B} (R : CsmModel -> CsmModel -> Prop)
    (m : Load A) (k : A -> Load B) :
  (forall x y z, R x y -> R y z -> R x z) ->
  object_rel R m -> (forall a, object_rel R (k a)) -> object_rel R (and_then m k).
Proof.
  intros Tr Hm Hk c p. unfold and_then. specialize (Hm c p).
  destruct (m c p) as [[[t|a] c'] p']; [exact Hm|].
  eapply Tr; [exact Hm|apply Hk].
Qed.

Lemma process_rel_and_then {A B} (R : Process -> Process -> Prop)
    (m : Load A) (k : A -> Load B) :
  (forall x y z, R x y -> R y z -> R x z) ->
  process_rel R m -> (forall a, process_rel R (k a)) -> process_rel R (and_then m k).
Proof.
  intros Tr Hm Hk c p. unfold and_then. specialize (Hm c p).
  destruct (m c p) as [[[t|a] c'] p']; [exact Hm|].
  eapply Tr; [exact Hm|apply Hk].
Qed.

Lemma same_members_trans x y z : same_members x y -> same_members y z -> same_members x z.
Proof. unfold same_members. intuition congruence. Qed.

Lemma same_members_refl x : same_members x x.
Proof. unfold same_members. auto. Qed.

Lemma same_settings_trans x y z : same_settings x y -> same_settings y z -> same_settings x z.
Proof. unfold same_settings. intuition congruence. Qed.

Lemma same_members_settings x y : same_members x y -> same_settings x y.
Proof. unfold same_members, same_settings. tauto. Qed.

Lemma eq_trans' {A} (x y z : A) : x = y -> y = z -> x = z.
Proof. congruence. Qed.

Create HintDb load discriminated.

Lemma object_eq_ret {A} (a : A) : object_rel eq (ret a).
Proof. intros c p. reflexivity. Qed.
Lemma object_eq_throw {A} t : object_rel eq (@throw A t).
Proof. intros c p. reflexivity. Qed.
Lemma object_eq_vw_throw {A} msg : object_rel eq (@vw_throw A msg).
Proof. intros c p. reflexivity. Qed.
Lemma object_eq_library_call {A} (r : option A) : object_rel eq (library_call r).
Proof. intros c p. destruct r; reflexivity. Qed.
Lemma object_eq_plugin_call {A} (r : option A) : object_rel eq (plugin_call r).
Proof. intros c p. destruct r; reflexivity. Qed.
Lemma object_eq_vw_out line : object_rel eq (vw_out line).
Proof. intros c p. reflexivity. Qed.
Lemma object_eq_print_warnings w : object_rel eq (print_warnings w).
Proof. intros c p. reflexivity. Qed.
Lemma object_eq_get_plugin_list : object_rel eq get_plugin_list.
Proof. intros c p. reflexivity. Qed.
Lemma object_eq_register l : object_rel eq (register_plugins l).
Proof. intros c p. reflexivity. Qed.
Lemma object_eq_get_object : object_rel eq get_object.
Proof. intros c p. reflexivity. Qed.

#[export] Hint Resolve object_eq_ret object_eq_throw object_eq_vw_throw
  object_eq_library_call object_eq_plugin_call object_eq_vw_out
  object_eq_print_warnings object_eq_get_plugin_list object_eq_register
  object_eq_get_object : load.

Lemma object_eq_and_then {A B} (m : Load A) (k : A -> Load B) :
  object_rel eq m -> (forall a, object_rel eq (k a)) -> object_rel eq (and_then m k).
Proof. apply object_rel_and_then. intros; congruence. Qed.

Lemma object_eq_for_each {A} (l : list A) body :
  (forall a, object_rel eq (body a)) -> object_rel eq (for_each l body).
Proof.
  intros Hb. induction l as [|a l IH]; simpl; [apply object_eq_ret|].
  apply object_eq_and_then; [apply Hb|intros _; exact IH].
Qed.

Ltac object_eq :=
  repeat first
    [ apply object_eq_and_then; [|intros ?]
    | apply object_eq_for_each; intros ?
    | solve [auto with load]
    | match goal with
      | |- object_rel eq (if ?b then _ else _) => destruct b
      | |- object_rel eq (match ?x with _ => _ end) => destruct x
      | |- object_rel eq (let '(_, _) := ?x in _) => destruct x
      end ].

Section Loader.
Context {J : Type}.
Variable env : Environment J.

Lemma object_eq_folder : object_rel eq (get_csm_plugin_folder env).
Proof. unfold get_csm_plugin_folder. object_eq. Qed.

Lemma object_eq_find_csm_plugins plugins : object_rel eq (find_csm_plugins env plugins).
Proof.
  unfold find_csm_plugins.
  apply object_eq_and_then; [apply object_eq_folder|intros folder]. object_eq.
Qed.

Lemma object_eq_print_models : object_rel eq print_available_models.
Proof. unfold print_available_models. object_eq. Qed.

Lemma object_eq_try_models pl isd show idx : object_rel eq (try_models pl isd show idx).
Proof.
  induction idx as [|i idx IH]; simpl; [apply object_eq_ret|].
  apply object_eq_and_then; [auto with load|intros name].
  apply object_eq_and_then; [auto with load|intros [can w]].
  destruct can.
  - apply object_eq_and_then; [auto with load|intros family; apply object_eq_ret].
  - apply object_eq_and_then; [destruct show; auto with load|intros _; exact IH].
Qed.

Lemma object_eq_try_plugins pls isd show : object_rel eq (try_plugins pls isd show).
Proof.
  induction pls as [|pl pls IH]; simpl; [apply object_eq_ret|].
  apply object_eq_and_then; [auto with load|intros n].
  apply object_eq_and_then; [apply object_eq_try_models|].
  intros [[name family]|]; [apply object_eq_ret|exact IH].
Qed.

Lemma object_eq_find_plugin isd show : object_rel eq (find_plugin_for_isd isd show).
Proof.
  unfold find_plugin_for_isd.
  apply object_eq_and_then; [auto with load|intros pls].
  apply object_eq_and_then; [apply object_eq_try_plugins|intros r]. object_eq.
Qed.

Lemma object_eq_initialize : object_rel eq (initialize_plugins env).
Proof.
  unfold initialize_plugins.
  apply object_eq_and_then; [auto with load|intros pls].
  destruct (negb _); [apply object_eq_ret|].
  apply object_eq_and_then; [apply object_eq_find_csm_plugins|intros [n files]].
  apply object_eq_and_then; [|intros _; apply object_eq_print_models]. object_eq.
Qed.


(** ** The plugin folder and the plugin file *)

Lemma folder_outcome c p :
  object_of (get_csm_plugin_folder env c p) = c /\
  process_of (get_csm_plugin_folder env c p) = p.
Proof.
  unfold get_csm_plugin_folder.
  destruct (getenv env "ISISROOT") as [root|]; [|split; reflexivity].
  destruct (negb (fs_exists env _)); split; reflexivity.
Qed.


(** ** The search for a plugin *)

(** A call into the plugin leaves the object and the process alone. *)
Lemma plugin_call_outcome {A} (r : option A) c p :
  plugin_call r c p =
  (match r with Some a => inr a | None => inl (Threw CsmError) end, c, p).
Proof. destruct r; reflexivity. Qed.

(** One iteration of each of the two loops of the search. *)
Lemma try_models_cons pl isd show i idx c p :
  try_models pl isd show (i :: idx) c p =
  match getModelName pl i with
  | None => (inl (Threw CsmError), c, p)
  | Some name =>
      match canModelBeConstructedFromISD pl isd name with
      | None => (inl (Threw CsmError), c, p)
      | Some (true, _) =>
          match getModelFamily pl i with
          | None => (inl (Threw CsmError), c, p)
          | Some family => (inr (Some (name, family)), c, p)
          end
      | Some (false, w) => try_models pl isd show idx c (after_warnings show w p)
      end
  end.
Proof.
  simpl. unfold and_then. rewrite plugin_call_outcome.
  destruct (getModelName pl i) as [name|]; [|reflexivity].
  rewrite plugin_call_outcome.
  destruct (canModelBeConstructedFromISD pl isd name) as [[[|] w]|]; [| |reflexivity].
  - rewrite plugin_call_outcome. destruct (getModelFamily pl i); reflexivity.
  - destruct show; reflexivity.
Qed.

Lemma try_plugins_cons pl pls isd show c p :
  try_plugins (pl :: pls) isd show c p =
  match getNumModels pl with
  | None => (inl (Threw CsmError), c, p)
  | Some n =>
      match try_models pl isd show (seq 0 n) c p with
      | (inl t, c', p') => (inl t, c', p')
      | (inr (Some (name, family)), c', p') => (inr (Some (pl, name, family)), c', p')
      | (inr None, c', p') => try_plugins pls isd show c' p'
      end
  end.
Proof.
  simpl. unfold and_then. rewrite plugin_call_outcome.
  destruct (getNumModels pl) as [n|]; [|reflexivity].
  destruct (try_models pl isd show (seq 0 n) c p) as [[[t|[[name family]|]] c'] p'];
    reflexivity.
Qed.

(** The search among the models of one plugin: it returns the first
    model that the plugin accepts, after the plugin has rejected the
    ones before it; it throws when a call into the plugin does. *)
Lemma try_models_spec pl isd show idx : forall c p,
  object_of (try_models pl isd show idx c p) = c /\
  match result_of (try_models pl isd show idx c p) with
  | inr (Some (name, family)) =>
      exists pre i post,
        idx = (pre ++ i :: post)%list /\
        answer_of pl isd i = Some (name, true) /\
        getModelFamily pl i = Some family /\
        forall i', In i' pre -> rejected pl isd i'
  | inr None => forall i, In i idx -> rejected pl isd i
  | inl t =>
      t = Threw CsmError /\
      exists i, In i idx /\ (answer_of pl isd i = None \/ getModelFamily pl i = None)
  end.
Proof.
  induction idx as [|i idx IH]; intros c p.
  - split; [reflexivity|]. intros i [].
  - rewrite try_models_cons.
    destruct (getModelName pl i) as [name|] eqn:En.
    2:{ split; [reflexivity|]. split; [reflexivity|]. exists i. split; [left; reflexivity|].
        left. unfold answer_of. rewrite En. reflexivity. }
    destruct (canModelBeConstructedFromISD pl isd name) as [[can w]|] eqn:Ec.
    2:{ split; [reflexivity|]. split; [reflexivity|]. exists i. split; [left; reflexivity|].
        left. unfold answer_of. rewrite En, Ec. reflexivity. }
    assert (Ea : answer_of pl isd i = Some (name, can))
      by (unfold answer_of; rewrite En, Ec; reflexivity).
    destruct can.
    + destruct (getModelFamily pl i) as [family|] eqn:Ef.
      * split; [reflexivity|]. exists [], i, idx.
        split; [reflexivity|]. split; [exact Ea|]. split; [exact Ef|]. intros i' [].
      * split; [reflexivity|]. split; [reflexivity|]. exists i.
        split; [left; reflexivity|]. right. exact Ef.
    + destruct (IH c (after_warnings show w p)) as [Ho Hr]. split; [exact Ho|].
      destruct (result_of (try_models pl isd show idx c _)) as [t|[[name' family]|]].
      * destruct Hr as (Ht & i0 & Hin & Hn). split; [exact Ht|].
        exists i0. split; [right; exact Hin|exact Hn].
      * destruct Hr as (pre & i0 & post & -> & Hc & Hf & Hpre).
        exists (i :: pre), i0, post. repeat split; try assumption.
        intros i' [<-|Hi']; [exists name; exact Ea|apply Hpre; assumption].
      * intros i' [<-|Hi']; [exists name; exact Ea|apply Hr; assumption].
Qed.

Lemma seq_split_at n pre i post :
  seq 0 n = (pre ++ i :: post)%list ->
  i = length pre /\ (i < n)%nat /\ forall i', (i' < i)%nat -> In i' pre.
Proof.
  intros E.
  assert (Hl : (length pre < n)%nat).
  { apply (f_equal (@length nat)) in E. rewrite length_seq, length_app in E. simpl in E. lia. }
  assert (Hi : nth (length pre) (seq 0 n) 0%nat = i).
  { rewrite E. rewrite app_nth2 by lia. rewrite Nat.sub_diag. reflexivity. }
  rewrite seq_nth in Hi by assumption. simpl in Hi. subst i.
  split; [reflexivity|]. split; [assumption|].
  intros i' Hi'.
  assert (Hn : nth i' (seq 0 n) 0%nat = nth i' pre 0%nat).
  { rewrite E. apply app_nth1. assumption. }
  rewrite seq_nth in Hn by lia. simpl in Hn. rewrite Hn. apply nth_In. assumption.
Qed.

(** The search among the plugins. *)
Lemma try_plugins_spec pls isd show : forall c p,
  object_of (try_plugins pls isd show c p) = c /\
  match result_of (try_plugins pls isd show c p) with
  | inr (Some (pl, name, family)) =>
      exists pre post i n,
        pls = (pre ++ pl :: post)%list /\
        getNumModels pl = Some n /\ (i < n)%nat /\
        answer_of pl isd i = Some (name, true) /\
        getModelFamily pl i = Some family /\
        (forall i', (i' < i)%nat -> rejected pl isd i') /\
        (forall pl', In pl' pre -> all_rejected pl' isd)
  | inr None => forall pl, In pl pls -> all_rejected pl isd
  | inl t =>
      t = Threw CsmError /\ exists pl, In pl pls /\ ~ plugin_answers pl isd
  end.
Proof.
  induction pls as [|pl pls IH]; intros c p.
  - split; [reflexivity|]. intros pl [].
  - rewrite try_plugins_cons.
    destruct (getNumModels pl) as [n|] eqn:En.
    2:{ split; [reflexivity|]. split; [reflexivity|]. exists pl. split; [left; reflexivity|].
        intros (n' & Hn' & _). congruence. }
    destruct (try_models_spec pl isd show (seq 0 n) c p) as [Ho Hr].
    destruct (try_models pl isd show (seq 0 n) c p) as [[r c1] p1].
    unfold object_of, result_of in Ho, Hr. simpl in Ho, Hr. subst c1.
    destruct r as [t|[[name family]|]].
    + split; [reflexivity|]. destruct Hr as (Ht & i & Hin & Hnone).
      split; [exact Ht|]. exists pl. split; [left; reflexivity|].
      intros (n' & Hn' & Hall). rewrite En in Hn'. injection Hn' as <-.
      apply in_seq in Hin. destruct (Hall i) as [[a Ha] [f Hf]]; [lia|].
      destruct Hnone; congruence.
    + split; [reflexivity|].
      destruct Hr as (pre & i & post & Es & Hc & Hf & Hpre).
      destruct (seq_split_at _ _ _ _ Es) as (Ei & Hi & Epre).
      exists [], pls, i, n. repeat split; try assumption.
      * intros i' Hi'. apply Hpre. apply Epre. assumption.
      * intros pl' [].
    + assert (Hrej : all_rejected pl isd).
      { exists n. split; [exact En|]. intros i Hi. apply Hr. apply in_seq. lia. }
      destruct (IH c p1) as [Ho' Hr']. split; [exact Ho'|].
      destruct (result_of (try_plugins pls isd show c p1)) as [t|[[[pl0 name] family]|]].
      * destruct Hr' as (Ht & pl' & Hin & Hna). split; [exact Ht|].
        exists pl'. split; [right; exact Hin|exact Hna].
      * destruct Hr' as (pre & post & i & n0 & -> & Hn0 & Hi & Hc & Hf & Hlt & Hpre).
        exists (pl :: pre), post, i, n0. repeat split; try assumption.
        intros pl' [<-|Hin]; [exact Hrej|apply Hpre; assumption].
      * intros pl' [<-|Hin]; [exact Hrej|apply Hr'; assumption].
Qed.

(** The result of the search does not depend on [show_warnings], nor on
    the object or on what has been printed. *)
Lemma try_models_result pl isd show show' idx : forall c p c' p',
  result_of (try_models pl isd show idx c p) = result_of (try_models pl isd show' idx c' p').
Proof.
  induction idx as [|i idx IH]; intros c p c' p'; [reflexivity|].
  rewrite !try_models_cons.
  destruct (getModelName pl i) as [name|]; [|reflexivity].
  destruct (canModelBeConstructedFromISD pl isd name) as [[[|] w]|]; [| |reflexivity].
  - destruct (getModelFamily pl i); reflexivity.
  - apply IH.
Qed.

Lemma try_plugins_result pls isd show show' : forall c p c' p',
  result_of (try_plugins pls isd show c p) = result_of (try_plugins pls isd show' c' p').
Proof.
  induction pls as [|pl pls IH]; intros c p c' p'; [reflexivity|].
  rewrite !try_plugins_cons.
  destruct (getNumModels pl) as [n|]; [|reflexivity].
  pose proof (try_models_result pl isd show show' (seq 0 n) c p c' p') as E.
  destruct (try_models pl isd show _ c p) as [[r c1] p1].
  destruct (try_models pl isd show' _ c' p') as [[r' c1'] p1'].
  unfold result_of in E. simpl in E. subst r'.
  destruct r as [t|[[name family]|]]; [reflexivity|reflexivity|apply IH].
Qed.

Lemma prefix_append s t : String.prefix s (s ++ t) = true.
Proof.
  induction s as [|a s IH]; simpl; [destruct t; reflexivity|].
  destruct (ascii_dec a a); [exact IH|congruence].
Qed.

Lemma warnings_added_refl p : warnings_added p p.
Proof.
  split; [reflexivity|]. exists []. split; [symmetry; apply app_nil_r|constructor].
Qed.

Lemma warnings_added_trans x y z :
  warnings_added x y -> warnings_added y z -> warnings_added x z.
Proof.
  intros [P1 (e1 & E1 & F1)] [P2 (e2 & E2 & F2)]. split; [congruence|].
  exists (e1 ++ e2)%list. split; [rewrite E2, E1; symmetry; apply app_assoc|].
  apply Forall_app. split; assumption.
Qed.

Lemma warnings_added_print w : process_rel warnings_added (print_warnings w).
Proof.
  intros c p. split; [reflexivity|]. eexists. split; [reflexivity|].
  apply Forall_forall. intros line Hin. apply list_elem_of_In, in_map_iff in Hin.
  destruct Hin as (x & <- & _). apply prefix_append.
Qed.

Lemma process_eq_plugin_call {A} (r : option A) : process_rel eq (plugin_call r).
Proof. intros c p. rewrite plugin_call_outcome. reflexivity. Qed.

Lemma warnings_added_plugin_call {A} (r : option A) :
  process_rel warnings_added (plugin_call r).
Proof. intros c p. rewrite plugin_call_outcome. apply warnings_added_refl. Qed.

Lemma try_models_output pl isd show idx :
  process_rel warnings_added (try_models pl isd show idx) /\
  (show = false -> process_rel eq (try_models pl isd show idx)).
Proof.
  induction idx as [|i idx [IH1 IH2]]; simpl.
  - split; [intros c p; apply warnings_added_refl|intros _ c p; reflexivity].
  - split.
    + apply process_rel_and_then;
        [apply warnings_added_trans|apply warnings_added_plugin_call|intros name].
      apply process_rel_and_then;
        [apply warnings_added_trans|apply warnings_added_plugin_call|intros [can w]].
      destruct can.
      * apply process_rel_and_then;
          [apply warnings_added_trans|apply warnings_added_plugin_call|intros family].
        intros c p. apply warnings_added_refl.
      * apply process_rel_and_then; [apply warnings_added_trans| |intros _; exact IH1].
        destruct show; [apply warnings_added_print|intros c p; apply warnings_added_refl].
    + intros ->.
      apply process_rel_and_then;
        [intros; congruence|apply process_eq_plugin_call|intros name].
      apply process_rel_and_then;
        [intros; congruence|apply process_eq_plugin_call|intros [can w]].
      destruct can.
      * apply process_rel_and_then;
          [intros; congruence|apply process_eq_plugin_call|intros family].
        intros c p. reflexivity.
      * apply process_rel_and_then; [intros; congruence| |intros _; auto].
        intros c p. reflexivity.
Qed.

Lemma try_plugins_output pls isd show :
  process_rel warnings_added (try_plugins pls isd show) /\
  (show = false -> process_rel eq (try_plugins pls isd show)).
Proof.
  induction pls as [|pl pls [IH1 IH2]]; simpl.
  - split; [intros c p; apply warnings_added_refl|intros _ c p; reflexivity].
  - split.
    + apply process_rel_and_then;
        [apply warnings_added_trans|apply warnings_added_plugin_call|intros n].
      destruct (try_models_output pl isd show (seq 0 n)) as [M1 M2].
      apply process_rel_and_then; [apply warnings_added_trans|exact M1|].
      intros [[name family]|]; [intros c p; apply warnings_added_refl|exact IH1].
    + intros E.
      apply process_rel_and_then;
        [intros; congruence|apply process_eq_plugin_call|intros n].
      destruct (try_models_output pl isd show (seq 0 n)) as [M1 M2].
      apply process_rel_and_then; [intros; congruence|auto|].
      intros [[name family]|]; [intros c p; reflexivity|auto].
Qed.

(** ** The ellipsoid *)

(** [read_ellipsoid_from_isd] in closed form. *)
Lemma read_ellipsoid_closed isd_path c p :
  read_ellipsoid_from_isd env isd_path c p =
  match json_read_file env isd_path with
  | None => (inl (Threw (ArgumentErr ("Cannot open file: " ++ isd_path ++ nl))), c, p)
  | Some json_isd =>
      let a := isd_radius env json_isd "semimajor" in
      let b := isd_radius env json_isd "semiminor" in
      let unit := isd_unit env json_isd in
      let check a b :=
        if SFleb a d_zero || SFleb b d_zero then
          (inl (Threw (ArgumentErr
                  ("Could not read positive semi-major and semi-minor axies from:  " ++
                   isd_path ++ ". The read values are: "))), with_axes c a b, p)
        else (inr tt, with_axes c a b, p) in
      if String.eqb unit "km" then
        check (dmul a (double_of_Z 1000)) (dmul b (double_of_Z 1000))
      else if negb (String.eqb unit "m") then
        (inl (Threw (ArgumentErr ("Unknown unit for the ellipsoid radii in " ++ isd_path ++
                                  ". The read value is: " ++ unit))), with_axes c a b, p)
      else check a b
  end.
Proof.
  unfold read_ellipsoid_from_isd, isd_radius, isd_unit.
  destruct (json_read_file env isd_path) as [j|]; [|reflexivity].
  unfold and_then at 1. unfold ret at 1.
  unfold and_then at 1. unfold set_semi_major_axis at 1.
  destruct (json_at2 env j "radii" "semimajor") as [e1|];
    [destruct (json_get_double env e1) as [a|]|];
    (destruct (json_at2 env j "radii" "semiminor") as [e2|];
      [destruct (json_get_double env e2) as [b|]|]);
    unfold and_then, set_semi_major_axis, set_semi_minor_axis, ret, get_object, vw_throw,
      throw, with_axes; cbn [m_csm_model m_semi_major_axis m_semi_minor_axis
                            m_sun_position m_desired_precision];
    destruct (String.eqb _ "km"); cbn [m_csm_model m_semi_major_axis m_semi_minor_axis
                            m_sun_position m_desired_precision];
    try (destruct (SFleb _ d_zero || SFleb _ d_zero); reflexivity);
    destruct (negb (String.eqb _ "m")); try reflexivity;
    cbn [m_csm_model m_semi_major_axis m_semi_minor_axis m_sun_position m_desired_precision];
    destruct (SFleb _ d_zero || SFleb _ d_zero); reflexivity.
Qed.

Lemma object_rel_read_ellipsoid isd_path :
  object_rel same_members (read_ellipsoid_from_isd env isd_path).
Proof.
  intros c p. rewrite read_ellipsoid_closed.
  destruct (json_read_file env isd_path) as [j|]; [|apply same_members_refl].
  cbv zeta. destruct (String.eqb _ "km");
    [|destruct (negb _)]; try destruct (SFleb _ _ || SFleb _ _);
    unfold same_members, object_of; simpl; auto.
Qed.

Lemma process_eq_read_ellipsoid isd_path :
  process_rel eq (read_ellipsoid_from_isd env isd_path).
Proof.
  intros c p. rewrite read_ellipsoid_closed.
  destruct (json_read_file env isd_path) as [j|]; [|reflexivity].
  cbv zeta. destruct (String.eqb _ "km");
    [|destruct (negb _)]; try destruct (SFleb _ _ || SFleb _ _); reflexivity.
Qed.

(** ** All or nothing *)

Lemma same_settings_refl x : same_settings x x.
Proof. unfold same_settings. auto. Qed.

Lemma all_or_nothing_throw t : all_or_nothing (throw t).
Proof. intros c p. split; [apply same_settings_refl|reflexivity]. Qed.

Lemma all_or_nothing_vw_throw msg : all_or_nothing (vw_throw msg).
Proof. apply all_or_nothing_throw. Qed.

(** A step that keeps the object, followed by a loading step. *)
Lemma all_or_nothing_after {A} (m : Load A) (k : A -> Load unit) :
  object_rel eq m -> (forall a, all_or_nothing (k a)) -> all_or_nothing (and_then m k).
Proof.
  intros Hm Hk c p. unfold and_then. specialize (Hm c p).
  destruct (m c p) as [[[t|a] c1] p1]; unfold object_of in Hm; simpl in Hm; subst c1.
  - split; [apply same_settings_refl|reflexivity].
  - apply Hk.
Qed.

(** The assignment of the model pointer when the axes pass the check. *)
Lemma reset_after_check raster_model c p :
  axes_ok c ->
  same_settings c (object_of (reset_csm_model raster_model c p)) /\
  (exists m, m_csm_model (object_of (reset_csm_model raster_model c p)) = Some m) /\
  axes_ok (object_of (reset_csm_model raster_model c p)).
Proof.
  intros Hok. split; [split; reflexivity|]. split; [eexists; reflexivity|exact Hok].
Qed.

(** A loading step that may rely on the axes having passed the check. *)
Lemma all_or_nothing_checked {A} (m : Load A) (k : A -> Load unit) :
  object_rel same_members m ->
  (forall c p a c1 p1, m c p = (inr a, c1, p1) -> axes_ok c1) ->
  (forall a c p, axes_ok c ->
     same_settings c (object_of (k a c p)) /\
     match result_of (k a c p) with
     | inl _ => m_csm_model (object_of (k a c p)) = m_csm_model c
     | inr _ => (exists rm, m_csm_model (object_of (k a c p)) = Some rm) /\
                axes_ok (object_of (k a c p))
     end) ->
  all_or_nothing (and_then m k).
Proof.
  intros Hm Hax Hk c p. unfold and_then. specialize (Hm c p). specialize (Hax c p).
  destruct (m c p) as [[[t|a] c1] p1]; unfold object_of in Hm; simpl in Hm.
  - unfold object_of, result_of. simpl. destruct Hm as (M1 & M2 & M3).
    split; [split; assumption|assumption].
  - specialize (Hax a c1 p1 eq_refl). destruct (Hk a c1 p1 Hax) as [Hs Hr].
    destruct Hm as (M1 & M2 & M3). split.
    + eapply same_settings_trans; [split; eassumption|exact Hs].
    + destruct (result_of (k a c1 p1)); [congruence|exact Hr].
Qed.

(** The same for a continuation that keeps the object until it sets the
    model. *)
Lemma checked_after {A} (m : Load A) (k : A -> Load unit) c p :
  object_rel eq m ->
  (forall a c p, axes_ok c ->
     same_settings c (object_of (k a c p)) /\
     match result_of (k a c p) with
     | inl _ => m_csm_model (object_of (k a c p)) = m_csm_model c
     | inr _ => (exists rm, m_csm_model (object_of (k a c p)) = Some rm) /\
                axes_ok (object_of (k a c p))
     end) ->
  axes_ok c ->
  same_settings c (object_of (and_then m k c p)) /\
  match result_of (and_then m k c p) with
  | inl _ => m_csm_model (object_of (and_then m k c p)) = m_csm_model c
  | inr _ => (exists rm, m_csm_model (object_of (and_then m k c p)) = Some rm) /\
             axes_ok (object_of (and_then m k c p))
  end.
Proof.
  intros Hm Hk Hok. unfold and_then. specialize (Hm c p).
  destruct (m c p) as [[[t|a] c1] p1]; unfold object_of in Hm; simpl in Hm; subst c1.
  - split; [apply same_settings_refl|reflexivity].
  - apply Hk. assumption.
Qed.

Lemma checked_throw {A} (t : Thrown) c p :
  same_settings c (object_of (@throw A t c p)) /\
  match result_of (@throw A t c p) with
  | inl _ => m_csm_model (object_of (@throw A t c p)) = m_csm_model c
  | inr _ => (exists rm, m_csm_model (object_of (@throw A t c p)) = Some rm) /\
             axes_ok (object_of (@throw A t c p))
  end.
Proof. split; [apply same_settings_refl|reflexivity]. Qed.

Lemma read_ellipsoid_returns_ok isd_path c p a c1 p1 :
  read_ellipsoid_from_isd env isd_path c p = (inr a, c1, p1) -> axes_ok c1.
Proof.
  rewrite read_ellipsoid_closed.
  destruct (json_read_file env isd_path) as [j|]; [|discriminate]. cbv zeta.
  destruct (String.eqb _ "km"); [|destruct (negb _); [discriminate|]];
    destruct (SFleb _ d_zero || SFleb _ d_zero) eqn:Es; try discriminate;
    apply orb_false_elim in Es; intros E; injection E as _ <- _; exact Es.
Qed.

Lemma all_or_nothing_load_isd isd_path : all_or_nothing (load_model_from_isd env isd_path).
Proof.
  unfold load_model_from_isd.
  apply all_or_nothing_after; [apply object_eq_initialize|intros _].
  apply all_or_nothing_checked;
    [apply object_rel_read_ellipsoid|apply read_ellipsoid_returns_ok|].
  intros _ c p Hok.
  apply checked_after; [apply object_eq_find_plugin| |exact Hok].
  clear c p Hok. intros [[[pl|] name] family] c p Hok.
  - apply checked_after; [auto with load| |exact Hok].
    clear c p Hok. intros plugin_name c p Hok.
    apply checked_after; [auto with load| |exact Hok].
    clear c p Hok. intros _ c p Hok.
    apply checked_after; [auto with load| |exact Hok].
    clear c p Hok. intros [[csm_model|] warnings] c p Hok.
    + apply checked_after; [auto with load| |exact Hok].
      clear c p Hok. intros _ c p Hok.
      destruct (dynamic_cast_RasterGM csm_model) as [rm|].
      * apply reset_after_check. exact Hok.
      * apply checked_throw.
    + apply checked_after; [auto with load| |exact Hok].
      clear c p Hok. intros _ c p Hok. apply checked_throw.
  - apply checked_after; [apply object_eq_find_plugin| |exact Hok].
    clear c p Hok. intros _ c p Hok. apply checked_throw.
Qed.

(** The model type tried by [setModelFromStateString]. *)
Lemma dispatch_state_kind model_state :
  (if starts_with (SENSOR_MODEL_NAME env USGSCSM_FRAME_MODEL) model_state then
     plugin_call (model_from_state env USGSCSM_FRAME_MODEL model_state)
   else if starts_with (SENSOR_MODEL_NAME env USGSCSM_LINESCAN_MODEL) model_state then
     plugin_call (model_from_state env USGSCSM_LINESCAN_MODEL model_state)
   else if starts_with (SENSOR_MODEL_NAME env USGSCSM_PUSHFRAME_MODEL) model_state then
     plugin_call (model_from_state env USGSCSM_PUSHFRAME_MODEL model_state)
   else if starts_with (SENSOR_MODEL_NAME env USGSCSM_SAR_MODEL) model_state then
     plugin_call (model_from_state env USGSCSM_SAR_MODEL model_state)
   else vw_throw ("Could not create CSM model from state string." ++ nl)) =
  match state_kind env model_state with
  | Some kind => plugin_call (model_from_state env kind model_state)
  | None => vw_throw ("Could not create CSM model from state string." ++ nl)
  end.
Proof.
  unfold state_kind.
  destruct (starts_with (SENSOR_MODEL_NAME env USGSCSM_FRAME_MODEL) model_state); [reflexivity|].
  destruct (starts_with (SENSOR_MODEL_NAME env USGSCSM_LINESCAN_MODEL) model_state); [reflexivity|].
  destruct (starts_with (SENSOR_MODEL_NAME env USGSCSM_PUSHFRAME_MODEL) model_state); [reflexivity|].
  destruct (starts_with (SENSOR_MODEL_NAME env USGSCSM_SAR_MODEL) model_state); reflexivity.
Qed.

(** [setModelFromStateString] in closed form. *)
Lemma set_model_closed model_state c p :
  setModelFromStateString env model_state c p =
  match state_kind env model_state with
  | None => (inl (Threw (ArgumentErr ("Could not create CSM model from state string." ++ nl))),
             c, p)
  | Some kind =>
      match model_from_state env kind model_state with
      | None => (inl (Threw CsmError), c, p)
      | Some raster_model =>
          match stateAsJson env model_state with
          | None => (inl ThrewOther, c, p)
          | Some j =>
              match json_index_double env j "m_majorAxis" with
              | None => (inl ThrewOther, c, p)
              | Some a =>
                  match json_index_double env j "m_minorAxis" with
                  | None => (inl ThrewOther, with_axes c a (m_semi_minor_axis c), p)
                  | Some b =>
                      if SFleb a d_zero || SFleb b d_zero then
                        (inl (Threw (ArgumentErr
                           "Could not read positive semi-major and semi-minor axies from state string.")),
                         with_axes c a b, p)
                      else
                        match raster_model with
                        | None =>
                            (inl (Threw (ArgumentErr
                               "Failed to cast linescan model to raster type.")),
                             with_axes c a b, p)
                        | Some raster_model =>
                            (inr tt,
                             {| m_csm_model := Some raster_model;
                                m_semi_major_axis := a;
                                m_semi_minor_axis := b;
                                m_sun_position := m_sun_position c;
                                m_desired_precision := m_desired_precision c |}, p)
                        end
                  end
              end
          end
      end
  end.
Proof.
  unfold setModelFromStateString. rewrite dispatch_state_kind.
  destruct (state_kind env model_state) as [kind|]; [|reflexivity].
  unfold and_then at 1.
  destruct (model_from_state env kind model_state) as [rm|]; [|reflexivity].
  cbn [plugin_call ret]. unfold and_then at 1.
  destruct (stateAsJson env model_state) as [j|]; [|reflexivity].
  cbn [library_call ret]. unfold and_then at 1.
  destruct (json_index_double env j "m_majorAxis") as [a|]; [|reflexivity].
  cbn [library_call ret]. unfold and_then at 1. unfold set_semi_major_axis at 1.
  unfold and_then at 1.
  destruct (json_index_double env j "m_minorAxis") as [b|]; [|reflexivity].
  cbn [library_call ret].
  unfold and_then, set_semi_minor_axis, get_object, vw_throw, throw, reset_csm_model,
    with_axes.
  cbn [m_csm_model m_semi_major_axis m_semi_minor_axis m_sun_position m_desired_precision].
  destruct (SFleb a d_zero || SFleb b d_zero); [reflexivity|].
  destruct rm; reflexivity.
Qed.

Lemma all_or_nothing_set_model model_state :
  all_or_nothing (setModelFromStateString env model_state).
Proof.
  intros c p. rewrite set_model_closed.
  destruct (state_kind env model_state) as [kind|];
    [|split; [apply same_settings_refl|reflexivity]].
  destruct (model_from_state env kind model_state) as [rm|];
    [|split; [apply same_settings_refl|reflexivity]].
  destruct (stateAsJson env model_state) as [j|];
    [|split; [apply same_settings_refl|reflexivity]].
  destruct (json_index_double env j "m_majorAxis") as [a|];
    [|split; [apply same_settings_refl|reflexivity]].
  destruct (json_index_double env j "m_minorAxis") as [b|];
    [|split; [split; reflexivity|reflexivity]].
  destruct (SFleb a d_zero || SFleb b d_zero) eqn:Es;
    [split; [split; reflexivity|reflexivity]|].
  destruct rm as [rm|]; [|split; [split; reflexivity|reflexivity]].
  split; [split; reflexivity|]. unfold result_of, object_of. simpl.
  split; [eexists; reflexivity|]. apply orb_false_elim in Es. exact Es.
Qed.

Lemma all_or_nothing_state_file state_file :
  all_or_nothing (loadModelFromStateFile env state_file).
Proof.
  unfold loadModelFromStateFile.
  apply all_or_nothing_after; [auto with load|]. intros s. apply all_or_nothing_set_model.
Qed.

Lemma all_or_nothing_load_either isd_path : all_or_nothing (load_either env isd_path).
Proof.
  unfold load_either. destruct (negb _);
    [apply all_or_nothing_load_isd|apply all_or_nothing_state_file].
Qed.

(** ** Words and prefixes *)

Lemma take_word_prefix s : String.prefix (take_word s) s = true.
Proof.
  induction s as [|a s IH]; simpl; [reflexivity|].
  destruct (isspace a); simpl; [reflexivity|].
  destruct (ascii_dec a a); [exact IH|congruence].
Qed.

Lemma prefix_first_char a s b t : String.prefix (String a s) (String b t) = true -> a = b.
Proof. simpl. destruct (ascii_dec a b); [auto|discriminate]. Qed.

(** A name without white space does not start a string that starts
    with white space. *)
Lemma no_space_not_prefix name ws rest :
  name <> EmptyString -> no_space name = true -> isspace ws = true ->
  starts_with name (String ws rest) = false.
Proof.
  intros Hne Hns Hws. destruct name as [|a name]; [congruence|].
  simpl in Hns. apply andb_prop in Hns. destruct Hns as [Ha _].
  unfold starts_with. simpl. destruct (ascii_dec a ws) as [->|]; [|reflexivity].
  rewrite Hws in Ha. discriminate.
Qed.

Lemma is_model_state_word_name line :
  is_model_state_word env line = true -> exists kind, line = SENSOR_MODEL_NAME env kind.
Proof.
  unfold is_model_state_word. rewrite !orb_true_iff, !String.eqb_eq.
  intros [[[E|E]|E]|E]; eexists; exact E.
Qed.

Lemma state_kind_some kind model_state :
  starts_with (SENSOR_MODEL_NAME env kind) model_state = true ->
  state_kind env model_state <> None.
Proof.
  intros Hp. unfold state_kind.
  destruct (starts_with (SENSOR_MODEL_NAME env USGSCSM_FRAME_MODEL) model_state) eqn:E1;
    [discriminate|].
  destruct (starts_with (SENSOR_MODEL_NAME env USGSCSM_LINESCAN_MODEL) model_state) eqn:E2;
    [discriminate|].
  destruct (starts_with (SENSOR_MODEL_NAME env USGSCSM_PUSHFRAME_MODEL) model_state) eqn:E3;
    [discriminate|].
  destruct (starts_with (SENSOR_MODEL_NAME env USGSCSM_SAR_MODEL) model_state) eqn:E4;
    [discriminate|].
  destruct kind; congruence.
Qed.

Lemma state_kind_prefix kind model_state :
  state_kind env model_state = Some kind ->
  starts_with (SENSOR_MODEL_NAME env kind) model_state = true.
Proof.
  unfold state_kind.
  destruct (starts_with (SENSOR_MODEL_NAME env USGSCSM_FRAME_MODEL) model_state) eqn:E1;
    [intros E; injection E as <-; exact E1|].
  destruct (starts_with (SENSOR_MODEL_NAME env USGSCSM_LINESCAN_MODEL) model_state) eqn:E2;
    [intros E; injection E as <-; exact E2|].
  destruct (starts_with (SENSOR_MODEL_NAME env USGSCSM_PUSHFRAME_MODEL) model_state) eqn:E3;
    [intros E; injection E as <-; exact E3|].
  destruct (starts_with (SENSOR_MODEL_NAME env USGSCSM_SAR_MODEL) model_state) eqn:E4;
    [intros E; injection E as <-; exact E4|discriminate].
Qed.

(** [load_model] as its first step followed by the Sun position. *)
Lemma load_model_steps isd_path :
  load_model env isd_path =
  and_then (load_either env isd_path) (fun _ =>
    and_then get_object (fun c =>
      match m_csm_model c with
      | None => throw ThrewOther
      | Some model =>
          and_then (plugin_call (getModelState env model)) (fun modelState =>
          and_then (library_call (stateAsJson env modelState)) (fun j =>
            match json_find env j "m_sunPosition" with
            | None => ret tt
            | Some e =>
                and_then (library_call (json_get_vector env e)) (fun sun_pos =>
                  if (length sun_pos <? 3)%nat then
                    vw_throw ("The Sun position must be a vector of size >= 3." ++ nl)
                  else
                    set_sun_position (V3 (nth 0 sun_pos d_zero) (nth 1 sun_pos d_zero)
                                         (nth 2 sun_pos d_zero)))
            end))
      end)).
Proof. reflexivity. Qed.

(** [load_model] after a first step that returned. *)
Lemma load_model_closed isd_path c p c1 p1 raster_model :
  load_either env isd_path c p = (inr tt, c1, p1) ->
  m_csm_model c1 = Some raster_model ->
  load_model env isd_path c p =
  match getModelState env raster_model with
  | None => (inl (Threw CsmError), c1, p1)
  | Some modelState =>
      match stateAsJson env modelState with
      | None => (inl ThrewOther, c1, p1)
      | Some j =>
          match json_find env j "m_sunPosition" with
          | None => (inr tt, c1, p1)
          | Some e =>
              match json_get_vector env e with
              | None => (inl ThrewOther, c1, p1)
              | Some sun_pos =>
                  if (length sun_pos <? 3)%nat then
                    (inl (Threw (ArgumentErr
                       ("The Sun position must be a vector of size >= 3." ++ nl))), c1, p1)
                  else
                    set_sun_position (V3 (nth 0 sun_pos d_zero) (nth 1 sun_pos d_zero)
                                         (nth 2 sun_pos d_zero)) c1 p1
              end
          end
      end
  end.
Proof.
  intros E Hrm. rewrite load_model_steps. rewrite (and_then_inr _ _ _ _ _ _ _ E).
  unfold and_then at 1. unfold get_object at 1. rewrite Hrm.
  unfold and_then at 1.
  destruct (getModelState env raster_model) as [st|]; [|reflexivity].
  cbn [plugin_call ret]. unfold and_then at 1.
  destruct (stateAsJson env st) as [j|]; [|reflexivity].
  cbn [library_call ret].
  destruct (json_find env j "m_sunPosition") as [e|]; [|reflexivity].
  unfold and_then. destruct (json_get_vector env e) as [sun|]; [|reflexivity].
  cbn [library_call ret]. destruct (length sun <? 3)%nat; reflexivity.
Qed.
End Loader.

End CsmLoadFacts.


(* ===================================================================== *)
(** * The loader: further properties                                      *)
(* ===================================================================== *)

Module CsmLoadExtras.

Import Csm CsmLoad CsmLoadFacts LoadScenes.
Local Open Scope string_scope.

Section Loader.
Context {J : Type}.
Variable env : Environment J.

(** X10.  [get_csm_plugin_folder] changes nothing.  Without [ISISROOT]
    it throws, even when [CSM_PLUGIN_PATH] is set; a folder it returns
    exists and is [CSM_PLUGIN_PATH] when that variable is set and not
    empty, and [ISISROOT/lib] otherwise. *)
Theorem X10_plugin_folder_needs_ISISROOT c p :
  let o := get_csm_plugin_folder env c p in
  object_of o = c /\ process_of o = p /\
  (getenv env "ISISROOT" = None ->
     result_of o = inl (Threw (ArgumentErr ("The variable ISISROOT was not set." ++ nl)))) /\
  (forall folder, result_of o = inr folder ->
     fs_exists env folder = true /\
     exists isis_root, getenv env "ISISROOT" = Some isis_root /\
       ((getenv env "CSM_PLUGIN_PATH" = Some folder /\ folder <> EmptyString) \/
        ((getenv env "CSM_PLUGIN_PATH" = None \/ getenv env "CSM_PLUGIN_PATH" = Some EmptyString) /\
         folder = path_append env isis_root "lib"))).
Proof.
  intros o. destruct (folder_outcome env c p) as [Ho Hp].
  split; [exact Ho|]. split; [exact Hp|]. unfold o, get_csm_plugin_folder. split.
  - intros ->. reflexivity.
  - intros folder. destruct (getenv env "ISISROOT") as [root|]; [|discriminate].
    set (path := match getenv env "CSM_PLUGIN_PATH" with
                 | Some path => if negb (String.eqb path EmptyString) then path
                                else path_append env root "lib"
                 | None => path_append env root "lib"
                 end).
    destruct (fs_exists env path) eqn:Ex; simpl; [|discriminate].
    intros E. injection E as <-. split; [exact Ex|]. exists root. split; [reflexivity|].
    unfold path. destruct (getenv env "CSM_PLUGIN_PATH") as [pp|]; [|right; auto].
    destruct (String.eqb_spec pp EmptyString) as [Heq|Hne]; simpl; [right; rewrite Heq; auto|left; auto].
Qed.

(** X11.  When [find_csm_plugins] returns, it returns 1 and the vector
    holds exactly one file, [libusgscsm.so] or [libusgscsm.dylib] in the
    plugin folder, which exists; what the vector held before the call
    does not matter. *)
Theorem X11_find_csm_plugins_single c p plugins n files :
  result_of (find_csm_plugins env plugins c p) = inr (n, files) ->
  n = 1%nat /\
  (exists folder ext,
     result_of (get_csm_plugin_folder env c p) = inr folder /\
     (ext = ".so" \/ ext = ".dylib") /\
     files = [path_append env folder ("libusgscsm" ++ ext)] /\
     fs_exists env (path_append env folder ("libusgscsm" ++ ext)) = true) /\
  (forall plugins', find_csm_plugins env plugins' c p = find_csm_plugins env plugins c p).
Proof.
  intros E. split; [|split; [|reflexivity]].
  - revert E. unfold find_csm_plugins, and_then.
    destruct (get_csm_plugin_folder env c p) as [[[t|folder] c1] p1]; [discriminate|].
    destruct (has_substring "linux" _); [|destruct (has_substring "mac" _); [|discriminate]];
      simpl; destruct (fs_exists env _); simpl; intros E; try discriminate;
      injection E as <- _; reflexivity.
  - revert E. unfold find_csm_plugins, and_then.
    destruct (get_csm_plugin_folder env c p) as [[[t|folder] c1] p1]; [discriminate|].
    destruct (has_substring "linux" _); [|destruct (has_substring "mac" _); [|discriminate]];
      simpl; destruct (fs_exists env _) eqn:Ex; simpl; intros E; try discriminate;
      injection E as _ <-; exists folder; eexists; (split; [reflexivity|]);
      (split; [|split; [reflexivity|exact Ex]]); auto.
Qed.


(** X12.  When [find_plugin_for_isd] returns a plugin, it is the first
    plugin, in the order of the plugin list, and for it the first model
    that can be constructed from the ISD, with that model's name and
    family; when it returns null, the names are empty and no model of
    any plugin can be constructed.  The only exception that ends it is
    the one of a plugin, and then some call that the search can make
    into a plugin of the list throws. *)
Theorem X12_find_plugin_first_match isd show c p :
  let plugins := plugin_list p in
  match result_of (find_plugin_for_isd isd show c p) with
  | inr (Some csm_plugin, model_name, model_family) =>
      exists k i,
        nth_error plugins k = Some csm_plugin /\
        getModelName csm_plugin i = Some model_name /\
        getModelFamily csm_plugin i = Some model_family /\
        constructible plugins isd k i /\
        (forall k' i', (k' < k)%nat \/ (k' = k /\ (i' < i)%nat) ->
           ~ constructible plugins isd k' i')
  | inr (None, model_name, model_family) =>
      model_name = EmptyString /\ model_family = EmptyString /\
      forall k i, ~ constructible plugins isd k i
  | inl t =>
      t = Threw CsmError /\
      exists csm_plugin, In csm_plugin plugins /\ ~ plugin_answers csm_plugin isd
  end.
Proof.
  intros plugins. unfold find_plugin_for_isd, and_then, get_plugin_list. fold plugins.
  destruct (try_plugins_spec plugins isd show c p) as [_ Hr].
  destruct (try_plugins plugins isd show c p) as [[r c1] p1].
  unfold result_of in *. simpl in *.
  assert (Hno : forall pl i n name,
    all_rejected pl isd -> getNumModels pl = Some n -> (i < n)%nat ->
    answer_of pl isd i = Some (name, true) -> False).
  { intros pl i n name (n' & Hn' & Hall) Hn Hi Ha.
    rewrite Hn in Hn'. injection Hn' as <-.
    destruct (Hall i Hi) as [name' Ha']. congruence. }
  destruct r as [t|[[[pl name] family]|]]; simpl; [exact Hr| |].
  - destruct Hr as (pre & post & i & n & Es & Hn & Hi & Hc & Hf & Hlt & Hpre).
    assert (Hk : nth_error plugins (length pre) = Some pl).
    { rewrite Es. rewrite nth_error_app2 by lia. rewrite Nat.sub_diag. reflexivity. }
    exists (length pre), i. split; [exact Hk|].
    split.
    { unfold answer_of in Hc. destruct (getModelName pl i) as [name'|]; [|discriminate].
      destruct (canModelBeConstructedFromISD pl isd name') as [[can w]|]; [|discriminate].
      injection Hc as -> _. reflexivity. }
    split; [exact Hf|]. split.
    + exists pl, n, name. repeat split; assumption.
    + intros k' i' Hlt' (pl' & n' & name' & Hk' & Hn' & Hi' & Hc').
      destruct Hlt' as [Hlt'|[-> Hlt']].
      * assert (Hin : In pl' pre).
        { rewrite Es in Hk'. rewrite nth_error_app1 in Hk' by assumption.
          apply nth_error_In in Hk'. exact Hk'. }
        apply (Hno pl' i' n' name' (Hpre pl' Hin) Hn' Hi' Hc').
      * rewrite Hk in Hk'. injection Hk' as <-.
        destruct (Hlt i' Hlt') as [name'' Ha'']. congruence.
  - repeat split. intros k i (pl & n & name & Hk & Hn & Hi & Hc).
    apply nth_error_In in Hk. apply (Hno pl i n name (Hr pl Hk) Hn Hi Hc).
Qed.

(** X13.  The flag [show_warnings] of [find_plugin_for_isd] changes only
    what is printed: the result is the same; without the flag nothing is
    printed; with it only lines that start with [CSM warning: ] are
    added; the object and the plugin list are left as they were. *)
Theorem X13_show_warnings_only_prints isd c p :
  let quiet := find_plugin_for_isd isd false c p in
  let loud := find_plugin_for_isd isd true c p in
  result_of loud = result_of quiet /\
  object_of quiet = c /\ process_of quiet = p /\
  object_of loud = c /\ warnings_added p (process_of loud).
Proof.
  intros quiet loud. unfold quiet, loud, find_plugin_for_isd, and_then, get_plugin_list.
  pose proof (try_plugins_result (plugin_list p) isd true false c p c p) as Er.
  destruct (try_plugins_spec (plugin_list p) isd true c p) as [Ho1 _].
  destruct (try_plugins_spec (plugin_list p) isd false c p) as [Ho2 _].
  destruct (try_plugins_output (plugin_list p) isd true) as [W1 _].
  destruct (try_plugins_output (plugin_list p) isd false) as [_ W2].
  specialize (W1 c p). specialize (W2 eq_refl c p).
  destruct (try_plugins (plugin_list p) isd true c p) as [[r1 c1] p1].
  destruct (try_plugins (plugin_list p) isd false c p) as [[r2 c2] p2].
  unfold result_of, object_of, process_of in *. simpl in *. subst r2 c1 c2 p2.
  destruct r1 as [t|[[[pl name] family]|]]; simpl; repeat split; try assumption;
    destruct W1 as [E1 E2]; assumption.
Qed.

(** X14.  When [read_ellipsoid_from_isd] returns, both axes pass the
    check [!(a <= 0)], the unit read from the ISD is [m] or [km] after
    conversion to lower case, the axes are the radii of the ISD,
    multiplied by 1000 for [km], and nothing else of the object or of
    the process has changed. *)
Theorem X14_ellipsoid_accepted isd_path c p c' p' :
  read_ellipsoid_from_isd env isd_path c p = (inr tt, c', p') ->
  p' = p /\
  m_csm_model c' = m_csm_model c /\ m_sun_position c' = m_sun_position c /\
  m_desired_precision c' = m_desired_precision c /\
  SFleb (m_semi_major_axis c') d_zero = false /\
  SFleb (m_semi_minor_axis c') d_zero = false /\
  exists json_isd,
    json_read_file env isd_path = Some json_isd /\
    ((isd_unit env json_isd = "m" /\
      m_semi_major_axis c' = isd_radius env json_isd "semimajor" /\
      m_semi_minor_axis c' = isd_radius env json_isd "semiminor") \/
     (isd_unit env json_isd = "km" /\
      m_semi_major_axis c' = dmul (isd_radius env json_isd "semimajor") (double_of_Z 1000) /\
      m_semi_minor_axis c' = dmul (isd_radius env json_isd "semiminor") (double_of_Z 1000))).
Proof.
  rewrite read_ellipsoid_closed.
  destruct (json_read_file env isd_path) as [j|]; [|discriminate]. cbv zeta.
  destruct (String.eqb_spec (isd_unit env j) "km") as [Ekm|Nkm].
  - destruct (SFleb _ d_zero || SFleb _ d_zero) eqn:Es; [discriminate|].
    apply orb_false_elim in Es. destruct Es as [Ea Eb].
    intros E. injection E as <- <-. repeat split; try assumption.
    exists j. split; [reflexivity|]. right. repeat split. assumption.
  - destruct (String.eqb_spec (isd_unit env j) "m") as [Em|Nm]; simpl; [|discriminate].
    destruct (SFleb _ d_zero || SFleb _ d_zero) eqn:Es; [discriminate|].
    apply orb_false_elim in Es. destruct Es as [Ea Eb].
    intros E. injection E as <- <-. repeat split; try assumption.
    exists j. split; [reflexivity|]. left. repeat split. assumption.
Qed.

(** X15.  [read_ellipsoid_from_isd] throws only [ArgumentErr].  A file
    that cannot be read as JSON is reported as one that cannot be opened,
    with the object unchanged.  The exceptions of missing keys are
    swallowed and lead to an [ArgumentErr] later: without [radii] the
    empty unit is reported as unknown, with both axes left at 0; a
    missing unit or, for the unit [m], a missing radius makes the call
    throw as well. *)
Theorem X15_ellipsoid_missing_keys isd_path c p :
  let o := read_ellipsoid_from_isd env isd_path c p in
  (json_read_file env isd_path = None ->
     o = (inl (Threw (ArgumentErr ("Cannot open file: " ++ isd_path ++ nl))), c, p)) /\
  (forall json_isd,
     json_read_file env isd_path = Some json_isd ->
     json_at env json_isd "radii" = None ->
     o = (inl (Threw (ArgumentErr ("Unknown unit for the ellipsoid radii in " ++ isd_path ++
                                   ". The read value is: "))),
          with_axes c d_zero d_zero, p)) /\
  (forall json_isd,
     json_read_file env isd_path = Some json_isd ->
     json_at2 env json_isd "radii" "unit" = None ->
     exists msg, result_of o = inl (Threw (ArgumentErr msg))) /\
  (forall json_isd,
     json_read_file env isd_path = Some json_isd ->
     isd_unit env json_isd = "m" ->
     json_at2 env json_isd "radii" "semimajor" = None \/
     json_at2 env json_isd "radii" "semiminor" = None ->
     exists msg, result_of o = inl (Threw (ArgumentErr msg))) /\
  (forall t, result_of o = inl t -> exists msg, t = Threw (ArgumentErr msg)).
Proof.
  intros o. unfold o. rewrite read_ellipsoid_closed. split; [|split; [|split; [|split]]].
  - intros ->. reflexivity.
  - intros j -> Hr. unfold isd_unit, isd_radius, json_at2. rewrite Hr. reflexivity.
  - intros j -> Hu. unfold isd_unit. rewrite Hu. simpl. eexists. reflexivity.
  - intros j -> Hm Hmissing. cbv zeta. rewrite Hm. simpl.
    assert (Hz : SFleb (isd_radius env j "semimajor") d_zero ||
                 SFleb (isd_radius env j "semiminor") d_zero = true).
    { unfold isd_radius. destruct Hmissing as [E|E]; rewrite E; simpl;
        [reflexivity|apply orb_true_r]. }
    rewrite Hz. eexists. reflexivity.
  - intros t. destruct (json_read_file env isd_path) as [j|].
    + cbv zeta. destruct (String.eqb _ "km");
        [|destruct (negb _)]; try destruct (SFleb _ _ || SFleb _ _);
        unfold result_of; simpl; intros E; try discriminate;
        injection E as <-; eexists; reflexivity.
    + unfold result_of; simpl. intros E. injection E as <-. eexists; reflexivity.
Qed.

(** X16.  [load_model_from_isd] keeps the Sun position and the precision;
    when it throws, the model pointer is the one from before the call;
    when it returns, the model pointer is
    set and both axes pass the check. *)
Theorem X16_isd_load_all_or_nothing isd_path c p :
  let o := load_model_from_isd env isd_path c p in
  m_sun_position (object_of o) = m_sun_position c /\
  m_desired_precision (object_of o) = m_desired_precision c /\
  match result_of o with
  | inl _ => m_csm_model (object_of o) = m_csm_model c
  | inr _ =>
      (exists raster_model, m_csm_model (object_of o) = Some raster_model) /\
      SFleb (m_semi_major_axis (object_of o)) d_zero = false /\
      SFleb (m_semi_minor_axis (object_of o)) d_zero = false
  end.
Proof.
  intros o. destruct (all_or_nothing_load_isd env isd_path c p) as [[S1 S2] Hr].
  fold o in S1, S2, Hr. split; [exact S1|]. split; [exact S2|exact Hr].
Qed.

(** X17.  [setModelFromStateString] prints nothing and keeps the Sun
    position and the precision.  A state that starts with none of the
    four model names is rejected with the object unchanged.  When the
    call throws, the model pointer is the one from before; when it
    returns, the model is the one built for the first type whose name
    starts the state, and both axes pass the check. *)
Theorem X17_state_string_all_or_nothing model_state c p :
  let o := setModelFromStateString env model_state c p in
  (state_kind env model_state = None ->
     o = (inl (Threw (ArgumentErr ("Could not create CSM model from state string." ++ nl))),
          c, p)) /\
  m_sun_position (object_of o) = m_sun_position c /\
  m_desired_precision (object_of o) = m_desired_precision c /\
  process_of o = p /\
  match result_of o with
  | inl _ => m_csm_model (object_of o) = m_csm_model c
  | inr _ =>
      (exists kind raster_model,
         state_kind env model_state = Some kind /\
         starts_with (SENSOR_MODEL_NAME env kind) model_state = true /\
         model_from_state env kind model_state = Some (Some raster_model) /\
         m_csm_model (object_of o) = Some raster_model) /\
      SFleb (m_semi_major_axis (object_of o)) d_zero = false /\
      SFleb (m_semi_minor_axis (object_of o)) d_zero = false
  end.
Proof.
  intros o. unfold o. rewrite set_model_closed. split.
  { intros ->. reflexivity. }
  destruct (state_kind env model_state) as [kind|] eqn:Ek; [|repeat split].
  pose proof (state_kind_prefix env kind model_state Ek) as Hp.
  destruct (model_from_state env kind model_state) as [rm|] eqn:Em; [|repeat split].
  destruct (stateAsJson env model_state) as [j|]; [|repeat split].
  destruct (json_index_double env j "m_majorAxis") as [a|]; [|repeat split].
  destruct (json_index_double env j "m_minorAxis") as [b|]; [|repeat split].
  destruct (SFleb a d_zero || SFleb b d_zero) eqn:Es; [repeat split|].
  destruct rm as [rm|]; [|repeat split].
  apply orb_false_elim in Es. destruct Es as [Ea Eb].
  unfold result_of, object_of, process_of. simpl.
  repeat split; try assumption. exists kind, rm. repeat split; assumption.
Qed.

(** X18.  In [load_model] the model pointer that is dereferenced after
    loading is never null; and when [load_model] returns, the object is
    initialised ([throw_if_not_init] passes), both axes pass the check
    and the precision is the one from before the call. *)
Theorem X18_load_model_never_null isd_path c p :
  let o := load_model env isd_path c p in
  (forall c1 p1, load_either env isd_path c p = (inr tt, c1, p1) ->
     exists raster_model, m_csm_model c1 = Some raster_model) /\
  (result_of o = inr tt ->
     exists raster_model,
       m_csm_model (object_of o) = Some raster_model /\
       throw_if_not_init (object_of o) = inr raster_model /\
       SFleb (m_semi_major_axis (object_of o)) d_zero = false /\
       SFleb (m_semi_minor_axis (object_of o)) d_zero = false /\
       m_desired_precision (object_of o) = m_desired_precision c).
Proof.
  intros o.
  assert (H1 : forall c1 p1, load_either env isd_path c p = (inr tt, c1, p1) ->
                 (exists raster_model, m_csm_model c1 = Some raster_model) /\
                 axes_ok c1 /\ m_desired_precision c1 = m_desired_precision c).
  { intros c1 p1 E. destruct (all_or_nothing_load_either env isd_path c p) as [[S1 S2] Hr].
    rewrite E in S1, S2, Hr. unfold result_of, object_of in *. simpl in *.
    destruct Hr as [Hm Hok]. split; [exact Hm|]. split; [exact Hok|exact S2]. }
  split; [intros c1 p1 E; apply (H1 c1 p1 E)|].
  destruct (load_either env isd_path c p) as [[[t|[]] c1] p1] eqn:E.
  { unfold o. rewrite load_model_steps. rewrite (and_then_inl _ _ _ _ _ _ _ E).
    unfold result_of; simpl; discriminate. }
  destruct (H1 c1 p1 eq_refl) as ([rm Hrm] & [Ha Hb] & Hp).
  unfold o. rewrite (load_model_closed env isd_path c p c1 p1 rm E Hrm).
  destruct (getModelState env rm) as [st|]; [|unfold result_of; simpl; discriminate].
  destruct (stateAsJson env st) as [j|]; [|unfold result_of; simpl; discriminate].
  destruct (json_find env j "m_sunPosition") as [e|].
  - destruct (json_get_vector env e) as [sun|]; [|unfold result_of; simpl; discriminate].
    destruct (length sun <? 3)%nat; [unfold result_of; simpl; discriminate|].
    intros _. exists rm. unfold object_of, throw_if_not_init. simpl.
    rewrite Hrm. repeat split; assumption.
  - intros _. exists rm. unfold object_of, throw_if_not_init. simpl.
    rewrite Hrm. repeat split; assumption.
Qed.

(** X19.  A model state file that starts with white space is recognised
    as a model state by its first word, and is then rejected because the
    state string does not start with the model name; the object and the
    process are unchanged.  (The model names are not empty and contain
    no white space.) *)
Theorem X19_state_file_after_white_space isd_path ws rest c p :
  (forall kind, SENSOR_MODEL_NAME env kind <> EmptyString /\
                no_space (SENSOR_MODEL_NAME env kind) = true) ->
  isspace ws = true ->
  read_file env isd_path = Some (String ws rest) ->
  is_model_state_word env (first_line_word env isd_path) = true ->
  load_model env isd_path c p =
  (inl (Threw (ArgumentErr ("Could not create CSM model from state string." ++ nl))), c, p).
Proof.
  intros Hnames Hws Hfile Hstate.
  assert (Hk : state_kind env (String ws rest) = None).
  { unfold state_kind.
    rewrite !no_space_not_prefix by (first [apply Hnames|assumption]). reflexivity. }
  rewrite load_model_steps. apply and_then_inl.
  unfold load_either. rewrite Hstate. simpl.
  unfold loadModelFromStateFile. rewrite Hfile. cbn [library_call].
  unfold and_then, ret. rewrite set_model_closed, Hk. reflexivity.
Qed.

(** X20.  For a file that does not start with white space and whose
    first word is one of the four model names, [load_model] passes the
    whole content to [setModelFromStateString], the content starts with
    a model name, and the state is not rejected as unrecognised. *)
Theorem X20_state_file_recognised isd_path content c p :
  read_file env isd_path = Some content ->
  skip_spaces content = content ->
  is_model_state_word env (first_line_word env isd_path) = true ->
  load_either env isd_path c p = setModelFromStateString env content c p /\
  exists kind,
    state_kind env content = Some kind /\
    starts_with (SENSOR_MODEL_NAME env kind) content = true /\
    load_either env isd_path c p <>
    (inl (Threw (ArgumentErr ("Could not create CSM model from state string." ++ nl))), c, p).
Proof.
  intros Hfile Hskip Hstate. split.
  { unfold load_either. rewrite Hstate. simpl.
    unfold loadModelFromStateFile. rewrite Hfile. reflexivity. }
  destruct (is_model_state_word_name env _ Hstate) as [kind0 Hname].
  unfold first_line_word in Hname. rewrite Hfile in Hname.
  unfold first_word in Hname. rewrite Hskip in Hname.
  assert (Hp : starts_with (SENSOR_MODEL_NAME env kind0) content = true).
  { rewrite <- Hname. apply take_word_prefix. }
  destruct (state_kind env content) as [kind|] eqn:Ek;
    [|destruct (state_kind_some env kind0 content Hp Ek)].
  exists kind. split; [reflexivity|]. split; [apply state_kind_prefix; exact Ek|].
  unfold load_either. rewrite Hstate. simpl.
  unfold loadModelFromStateFile. rewrite Hfile. cbn [library_call]. unfold and_then, ret.
  rewrite set_model_closed, Ek.
  destruct (model_from_state env kind content) as [rm|]; [|discriminate].
  destruct (stateAsJson env content) as [j|]; [|discriminate].
  destruct (json_index_double env j "m_majorAxis") as [a|]; [|discriminate].
  destruct (json_index_double env j "m_minorAxis") as [b|]; [|discriminate].
  destruct (SFleb a d_zero || SFleb b d_zero); [discriminate|].
  destruct rm; discriminate.
Qed.

(** X21.  After loading, [load_model] changes only the Sun position, and
    prints nothing: without the key [m_sunPosition] in the model state
    the Sun position stays as it was before the call; a value with fewer
    than three numbers gives an [ArgumentErr] with the model already
    loaded; otherwise the first three numbers become the Sun
    position. *)
Theorem X21_sun_position isd_path c p c1 p1 raster_model modelState j :
  load_either env isd_path c p = (inr tt, c1, p1) ->
  m_csm_model c1 = Some raster_model ->
  getModelState env raster_model = Some modelState ->
  stateAsJson env modelState = Some j ->
  let o := load_model env isd_path c p in
  m_sun_position c1 = m_sun_position c /\
  match json_find env j "m_sunPosition" with
  | None => o = (inr tt, c1, p1)
  | Some e =>
      match json_get_vector env e with
      | None => o = (inl ThrewOther, c1, p1)
      | Some sun_pos =>
          if (length sun_pos <? 3)%nat then
            o = (inl (Threw (ArgumentErr
                   ("The Sun position must be a vector of size >= 3." ++ nl))), c1, p1)
          else
            result_of o = inr tt /\ process_of o = p1 /\
            m_sun_position (object_of o) =
              V3 (nth 0 sun_pos d_zero) (nth 1 sun_pos d_zero) (nth 2 sun_pos d_zero) /\
            m_csm_model (object_of o) = Some raster_model /\
            m_semi_major_axis (object_of o) = m_semi_major_axis c1 /\
            m_semi_minor_axis (object_of o) = m_semi_minor_axis c1 /\
            m_desired_precision (object_of o) = m_desired_precision c1
      end
  end.
Proof.
  intros E Hrm Hst Hj o. split.
  { destruct (all_or_nothing_load_either env isd_path c p) as [[S1 _] _].
    rewrite E in S1. exact S1. }
  unfold o. rewrite (load_model_closed env isd_path c p c1 p1 raster_model E Hrm).
  rewrite Hst, Hj.
  destruct (json_find env j "m_sunPosition") as [e|]; [|reflexivity].
  destruct (json_get_vector env e) as [sun|]; [|reflexivity].
  destruct (length sun <? 3)%nat; [reflexivity|].
  unfold result_of, object_of, process_of. simpl. repeat split; assumption.
Qed.
End Loader.

(** X11, witness: the Linux installation under [/isis]. *)
Lemma X11_witness :
  result_of (find_csm_plugins moon_env ["stale"] CsmModel_default fresh_process) =
    inr (1%nat, ["/isis/lib/libusgscsm.so"]) /\
  forall plugins',
    find_csm_plugins moon_env plugins' CsmModel_default fresh_process =
    find_csm_plugins moon_env ["stale"] CsmModel_default fresh_process.
Proof.
  assert (E : result_of (find_csm_plugins moon_env ["stale"] CsmModel_default fresh_process) =
              inr (1%nat, ["/isis/lib/libusgscsm.so"])) by reflexivity.
  split; [exact E|].
  destruct (X11_find_csm_plugins_single moon_env CsmModel_default fresh_process ["stale"]
              1%nat ["/isis/lib/libusgscsm.so"] E) as (_ & _ & Hany).
  exact Hany.
Defined.

(** X14, witness: the ISD [cam.json] gives its radii as 1737 with the
    unit [Km]. *)
Lemma X14_witness :
  read_ellipsoid_from_isd moon_env "cam.json" CsmModel_default fresh_process =
    (inr tt,
     with_axes CsmModel_default (dmul (double_of_Z 1737) (double_of_Z 1000))
                                (dmul (double_of_Z 1737) (double_of_Z 1000)),
     fresh_process) /\
  SFleb (dmul (double_of_Z 1737) (double_of_Z 1000)) d_zero = false.
Proof.
  assert (E : read_ellipsoid_from_isd moon_env "cam.json" CsmModel_default fresh_process =
              (inr tt,
               with_axes CsmModel_default (dmul (double_of_Z 1737) (double_of_Z 1000))
                                          (dmul (double_of_Z 1737) (double_of_Z 1000)),
               fresh_process)) by reflexivity.
  split; [exact E|].
  destruct (X14_ellipsoid_accepted moon_env "cam.json" CsmModel_default fresh_process _ _ E)
    as (_ & _ & _ & _ & Ha & _).
  exact Ha.
Defined.

(** X19, witness: [blank.json] holds a model state behind a line
    feed. *)
Lemma X19_witness :
  load_model moon_env "blank.json" CsmModel_default fresh_process =
  (inl (Threw (ArgumentErr ("Could not create CSM model from state string." ++ nl))),
   CsmModel_default, fresh_process).
Proof.
  apply (X19_state_file_after_white_space moon_env "blank.json" "010"
           (usgscsm_name USGSCSM_LINESCAN_MODEL ++ nl ++ "{ }")).
  - intros kind. destruct kind; split; (discriminate || reflexivity).
  - reflexivity.
  - reflexivity.
  - reflexivity.
Defined.

(** X20, witness: [state.json] starts with the name of the line
    scanner. *)
Lemma X20_witness :
  load_either moon_env "state.json" CsmModel_default fresh_process =
    setModelFromStateString moon_env (usgscsm_name USGSCSM_LINESCAN_MODEL ++ nl ++ "{ }")
      CsmModel_default fresh_process /\
  exists kind,
    state_kind moon_env (usgscsm_name USGSCSM_LINESCAN_MODEL ++ nl ++ "{ }") = Some kind /\
    starts_with (SENSOR_MODEL_NAME moon_env kind)
      (usgscsm_name USGSCSM_LINESCAN_MODEL ++ nl ++ "{ }") = true /\
    load_either moon_env "state.json" CsmModel_default fresh_process <>
    (inl (Threw (ArgumentErr ("Could not create CSM model from state string." ++ nl))),
     CsmModel_default, fresh_process).
Proof.
  apply (X20_state_file_recognised moon_env "state.json"
           (usgscsm_name USGSCSM_LINESCAN_MODEL ++ nl ++ "{ }"));
    reflexivity.
Defined.

(** X21, witness: the state of [state.json] has a Sun position of four
    numbers, of which the first three are kept. *)
Lemma X21_witness :
  let loaded := {| m_csm_model := Some collapsed_model;
                   m_semi_major_axis := double_of_Z 1737400;
                   m_semi_minor_axis := double_of_Z 1737400;
                   m_sun_position := m_sun_position CsmModel_default;
                   m_desired_precision := m_desired_precision CsmModel_default |} in
  load_either moon_env "state.json" CsmModel_default fresh_process =
    (inr tt, loaded, fresh_process) /\
  m_sun_position (object_of (load_model moon_env "state.json" CsmModel_default fresh_process)) =
    V3 (double_of_Z 1) (double_of_Z 2) (double_of_Z 3).
Proof.
  intros loaded.
  assert (E : load_either moon_env "state.json" CsmModel_default fresh_process =
              (inr tt, loaded, fresh_process)) by reflexivity.
  split; [exact E|].
  destruct (X21_sun_position moon_env "state.json" CsmModel_default fresh_process
              loaded fresh_process collapsed_model
              (usgscsm_name USGSCSM_LINESCAN_MODEL ++ nl ++ "{ }") moon_state
              E eq_refl eq_refl eq_refl) as [_ Hsun].
  destruct Hsun as (_ & _ & Hs & _). exact Hs.
Defined.

(** The search among a plugin that throws and the plugin of the scene:
    when the first one comes first, its exception ends the search; in
    the other order the second model of the plugin of the scene is
    found. *)
Example search_ended_by_plugin :
  result_of (find_plugin_for_isd {| isd_filename := "cam.json" |} false CsmModel_default
               {| plugin_list := [broken_plugin; usgs_plugin]; printed := [] |}) =
  inl (Threw CsmError).
Proof. reflexivity. Qed.

Example search_finds_second_model :
  result_of (find_plugin_for_isd {| isd_filename := "cam.json" |} false CsmModel_default
               {| plugin_list := [usgs_plugin; broken_plugin]; printed := [] |}) =
  inr (Some usgs_plugin, usgscsm_name USGSCSM_LINESCAN_MODEL, "Raster").
Proof. reflexivity. Qed.

End CsmLoadExtras.
